(** * dependenpy: the dependency-matrix engine of [dependenpy/utils.py]

    A shallow embedding of the class [DependencyMatrix]: module discovery,
    import resolution, the bottom-up folding of matrices and the matrix
    accessor with its attribute projection.

    Python objects that the code mutates through aliases (the module and
    edge dictionaries) live in an explicit object store. A raised
    exception is a value of [result]; what a stage has assigned before it
    raises is not kept. The file system, the path resolver and the
    statement extractor are parameters. Path functions are those of
    [posixpath]. *)

From Stdlib Require Import ZArith Ascii String.
From stdpp Require Import base option list gmap strings.

Local Open Scope Z_scope.

(** ** Exceptions and results *)

Inductive exn :=
  | TypeError | KeyError | IndexError | ValueError | AttributeError | OSError.

Inductive result (A : Type) :=
  | Ok (a : A)
  | Raise (e : exn).
Arguments Ok {A} a.
Arguments Raise {A} e.

#[global] Instance result_ret : MRet result := fun A a => Ok a.
#[global] Instance result_bind : MBind result := fun A B f r =>
  match r with
  | Ok a => f a
  | Raise e => Raise e
  end.

#[global] Instance exn_eq_dec : EqDecision exn.
Proof. solve_decision. Defined.

(** ** Strings

    The string methods and the [os.path] functions the class calls. *)

Module Str.

Definition dot : ascii := "."%char.
Definition slash : ascii := "/"%char.

(** [s.split(sep)] for a one-character separator: one more piece than
    there are separators, empty pieces included. *)
Fixpoint split (sep : ascii) (s : string) : list string :=
  match s with
  | EmptyString => [EmptyString]
  | String c r =>
      if Ascii.eqb c sep then EmptyString :: split sep r
      else match split sep r with
           | [] => [String c EmptyString]
           | w :: ws => String c w :: ws
           end
  end.

(** [sep.join(l)] *)
Fixpoint join (sep : string) (l : list string) : string :=
  match l with
  | [] => EmptyString
  | [x] => x
  | x :: r => x +:+ sep +:+ join sep r
  end.

(** [s.startswith(p)] *)
Fixpoint startswith (s p : string) : bool :=
  match p, s with
  | EmptyString, _ => true
  | String c p', String d s' => Ascii.eqb c d && startswith s' p'
  | String _ _, EmptyString => false
  end.

(** [s.endswith(p)] *)
Definition endswith (s p : string) : bool :=
  startswith (String.rev s) (String.rev p).

(** [s.replace(a, b)] for single characters. *)
Fixpoint replace (a b : ascii) (s : string) : string :=
  match s with
  | EmptyString => EmptyString
  | String c r => String (if Ascii.eqb c a then b else c) (replace a b r)
  end.

(** [s.rfind(c)]: the index of the last occurrence of [c], or [-1]. *)
Fixpoint rfind_from (c : ascii) (s : string) (i acc : Z) : Z :=
  match s with
  | EmptyString => acc
  | String d r => rfind_from c r (i + 1) (if Ascii.eqb d c then i else acc)
  end.

Definition rfind (c : ascii) (s : string) : Z := rfind_from c s 0 (-1).

(** [s[:n]] and [s[n:]] for [0 <= n]. *)
Fixpoint take (n : nat) (s : string) : string :=
  match n, s with
  | O, _ => EmptyString
  | S n', String c r => String c (take n' r)
  | S _, EmptyString => EmptyString
  end.

Fixpoint drop (n : nat) (s : string) : string :=
  match n, s with
  | O, _ => s
  | S n', String _ r => drop n' r
  | S _, EmptyString => EmptyString
  end.

(** Is there a character other than [c] in [s]? *)
Fixpoint has_other (c : ascii) (s : string) : bool :=
  match s with
  | EmptyString => false
  | String d r => negb (Ascii.eqb d c) || has_other c r
  end.

(** [os.path.splitext] (posixpath): the extension starts at the last dot
    of the last path component, unless that component has only dots
    before it. [genericpath._splitext] scans [p[sepIndex+1:dotIndex]]
    for a character that is not a dot. *)
Definition splitext (p : string) : string * string :=
  let sepIndex := rfind slash p in
  let dotIndex := rfind dot p in
  if bool_decide (dotIndex > sepIndex) then
    if has_other dot
         (take (Z.to_nat (dotIndex - (sepIndex + 1)))
               (drop (Z.to_nat (sepIndex + 1)) p))
    then (take (Z.to_nat dotIndex) p, drop (Z.to_nat dotIndex) p)
    else (p, EmptyString)
  else (p, EmptyString).

(** [os.path.join(a, b)] (posixpath) for two components. *)
Definition path_join (a b : string) : string :=
  if startswith b "/" then b
  else if bool_decide (a = EmptyString) || endswith a "/" then a +:+ b
  else a +:+ "/" +:+ b.

(** [s.rstrip('/')] *)
Definition rstrip_slash (s : string) : string :=
  let fix go (r : string) : string :=
    match r with
    | String c r' => if Ascii.eqb c slash then go r' else r
    | EmptyString => EmptyString
    end in
  String.rev (go (String.rev s)).

(** [os.path.dirname] (posixpath): everything up to the last slash, with
    trailing slashes removed unless the head is all slashes. *)
Definition dirname (p : string) : string :=
  let i := rfind slash p + 1 in
  let head := take (Z.to_nat i) p in
  if has_other slash head then rstrip_slash head else head.

End Str.

(** ** Python values, dictionaries and the object store *)

(** One raw declaration record, the dictionary
    [{'by': ..., 'from': ..., 'import': [...]}] of [parse_imports]. *)
Record import_decl := {
  d_by : string;
  d_from : string;
  d_import : list string
}.

Inductive pyval :=
  | VNone
  | VInt (z : Z)
  | VStr (s : string)
  | VList (l : list string)
  | VDecls (l : list import_decl).

#[global] Instance import_decl_eq_dec : EqDecision import_decl.
Proof. solve_decision. Defined.
#[global] Instance pyval_eq_dec : EqDecision pyval.
Proof. solve_decision. Defined.

(** A module or edge dictionary; a reference to one; the store of all of
    them. The lists [self.modules], [self.imports] and the lists inside a
    matrix hold references: two lists that hold the same reference share
    the dictionary, as in Python. *)
Abbreviation pydict := (gmap string pyval).
Abbreviation loc := nat.
Abbreviation heap := (list (gmap string pyval)).

(** [a[k]] on the dictionary at [l]. A reference outside the store has no
    Python counterpart; the model answers [KeyError]. *)
Definition getitem (h : heap) (l : loc) (k : string) : result pyval :=
  match h !! l with
  | Some d => match d !! k with
              | Some v => Ok v
              | None => Raise KeyError
              end
  | None => Raise KeyError
  end.

(** [del a[k]] on the dictionary at [l], in place. *)
Definition delitem (h : heap) (l : loc) (k : string) : result heap :=
  match h !! l with
  | Some d => match d !! k with
              | Some _ => Ok (<[l := delete k d]> h)
              | None => Raise KeyError
              end
  | None => Raise KeyError
  end.

(** [a[k] = v] on the dictionary at [l], in place. *)
Definition setitem (h : heap) (l : loc) (k : string) (v : pyval) : heap :=
  match h !! l with
  | Some d => <[l := <[k := v]> d]> h
  | None => h
  end.

(** A new dictionary object. *)
Definition alloc (h : heap) (d : pydict) : heap * loc := (h ++ [d], length h).

Fixpoint alloc_all (h : heap) (ds : list pydict) : heap * list loc :=
  match ds with
  | [] => (h, [])
  | d :: r =>
      let '(h1, l) := alloc h d in
      let '(h2, ls) := alloc_all h1 r in
      (h2, l :: ls)
  end.

(** [l[i]] on a Python list: a negative index counts from the end. *)
Definition py_index {A} (l : list A) (i : Z) : result A :=
  let n := Z.of_nat (length l) in
  let j := if bool_decide (i < 0) then i + n else i in
  if bool_decide (0 <= j < n) then
    match l !! Z.to_nat j with
    | Some x => Ok x
    | None => Raise IndexError
    end
  else Raise IndexError.

(** [l[i] = x] on a Python list. *)
Definition py_setindex {A} (l : list A) (i : Z) (x : A) : result (list A) :=
  let n := Z.of_nat (length l) in
  let j := if bool_decide (i < 0) then i + n else i in
  if bool_decide (0 <= j < n) then Ok (<[Z.to_nat j := x]> l)
  else Raise IndexError.

(** [v.split('.')]: only a string has the method. *)
Definition py_split (v : pyval) : result (list string) :=
  match v with
  | VStr s => Ok (Str.split Str.dot s)
  | _ => Raise AttributeError
  end.

(** ** The analysis object *)

(** One matrix, the dictionary [{'modules': [...], 'imports': [...]}]. *)
Record matrix := {
  m_modules : list loc;
  m_imports : list loc
}.

#[global] Instance matrix_eq_dec : EqDecision matrix.
Proof. solve_decision. Defined.

(** [self.groups]: the list [['']], or the keys of the ordered dictionary
    the instance was made from. On Python 3 [packages.keys()] is a view:
    it iterates in order and has a length, and it cannot be indexed. *)
Inductive groups_obj :=
  | GList (labels : list string)
  | GKeys (labels : list string).

(** [groups[group]] *)
Definition group_label (gs : groups_obj) (group : nat) : result string :=
  match gs with
  | GList labels => py_index labels (Z.of_nat group)
  | GKeys _ => Raise TypeError
  end.

(** The attributes of a [DependencyMatrix] instance, and the store of the
    dictionaries they refer to. [path_resolver] is a parameter of the
    stages that call it. An entry [None] of [matrices] is a slot that
    [build_matrices] has created and not yet filled. *)
Record DependencyMatrix := {
  packages : list (list string);
  groups : groups_obj;
  modules : list loc;
  imports : list loc;
  max_depth : Z;
  matrices : list (option matrix);
  _inside : gmap string bool;
  _modules_are_built : bool;
  _imports_are_built : bool;
  _matrices_are_built : bool;
  objects : heap
}.

(** The shapes of the constructor's [packages] argument. *)
Inductive packages_arg :=
  | PStr (s : string)
  | PList (l : list string)
  | POrderedDict (d : list (string * list string))
  | POther (l : list (list string)).

(** [__init__]. For an ordered dictionary the groups are its keys view
    and the package lists its values, in order; the values are only
    iterated. *)
Definition __init__ (arg : packages_arg) : DependencyMatrix :=
  let '(ps, gs) :=
    match arg with
    | PStr s => ([[s]], GList [EmptyString])
    | PList l => ([l], GList [EmptyString])
    | POrderedDict d => (d.*2, GKeys d.*1)
    | POther l => (l, GList [EmptyString])
    end in
  {| packages := ps; groups := gs;
     modules := []; imports := []; max_depth := 0; matrices := [];
     _inside := ∅;
     _modules_are_built := false; _imports_are_built := false;
     _matrices_are_built := false;
     objects := [] |}.

(** ** Module discovery *)

(** A directory listing with the listings of its sub-directories: what
    [os.listdir] and [os.path.isdir] answer below one root. [FNoList] is
    a sub-directory on which [os.listdir] raises [OSError]. Item names
    hold no slash, so [os.path.basename (os.path.join path item)] is
    [item]. *)
#[warnings="-register-all"]
Inductive fsnode :=
  | FFile (item : string)
  | FDir (item : string) (children : list fsnode)
  | FNoList (item : string).

Definition module_entry (name path : string) (group : nat) (gname : string)
  : pydict :=
  <["name" := VStr name]>
    (<["path" := VStr path]>
      (<["group_index" := VInt (Z.of_nat group)]>
        (<["group_name" := VStr gname]> ∅))).

(** The results of a loop body that yields a list per item, in order; the
    first exception ends the loop. *)
Definition for_each {A B} (f : A → result (list B))
  : list A → result (list B) :=
  fix go (l : list A) : result (list B) :=
    match l with
    | [] => Ok []
    | x :: r => a ← f x; b ← go r; Ok (a ++ b)
    end.

(** The body of the loop of [_walk(name, path, group, prefix)] at one item
    of [os.listdir(path)]; a directory recurses into its own listing. *)
Fixpoint _walk_item (gs : groups_obj) (name path : string) (group : nat)
    (prefix : string) (node : fsnode) {struct node} : result (list pydict) :=
  match node with
  | FDir item children =>
      for_each
        (_walk_item gs name (Str.path_join path item) group
           (prefix +:+ item +:+ "/"))
        children
  | FNoList item => Raise OSError
  | FFile item =>
      if Str.endswith item ".py" then
        gname ← group_label gs group;
        Ok [module_entry
              (name +:+ "." +:+
                 Str.replace Str.slash Str.dot
                   (Str.splitext (prefix +:+ item)).1)
              (Str.path_join path item) group gname]
      else Ok []
  end.

(** [_walk(name, path, group, prefix)] over the listing of [path]. *)
Definition _walk (gs : groups_obj) (name path : string) (group : nat)
    (prefix : string) (entries : list fsnode) : result (list pydict) :=
  for_each (_walk_item gs name path group prefix) entries.

(** [max(l)] on a list of integers. *)
Definition py_max (l : list Z) : result Z :=
  match l with
  | [] => Raise ValueError
  | x :: r => Ok (foldl Z.max x r)
  end.

(** [[len(m['name'].split('.')) for m in ms]] *)
Fixpoint name_depths (h : heap) (ms : list loc) : result (list Z) :=
  match ms with
  | [] => Ok []
  | m :: rest =>
      name ← getitem h m "name";
      parts ← py_split name;
      more ← name_depths h rest;
      Ok (Z.of_nat (length parts) :: more)
  end.

Section Discovery.

(** The path resolver ([None] when it finds nothing) and the file
    system: the listing below a directory, [None] where [os.listdir]
    fails. *)
Variable path_resolver : string → option string.
Variable listing : string → option (list fsnode).

(** The inner loop of [build_modules]: the packages of one group. *)
Fixpoint walk_packages (gs : groups_obj) (group : nat)
    (pkgs : list string) : result (list pydict) :=
  match pkgs with
  | [] => Ok []
  | package :: rest =>
      match path_resolver package with
      | None | Some EmptyString => walk_packages gs group rest
      | Some module_path =>
          let module_path := Str.dirname module_path in
          match listing module_path with
          | None => Raise OSError
          | Some entries =>
              found ← _walk gs package module_path group EmptyString entries;
              more ← walk_packages gs group rest;
              Ok (found ++ more)
          end
      end
  end.

(** The outer loop: one group index per package group. *)
Fixpoint walk_groups (gs : groups_obj) (group : nat)
    (pgs : list (list string)) : result (list pydict) :=
  match pgs with
  | [] => Ok []
  | package_group :: rest =>
      found ← walk_packages gs group package_group;
      more ← walk_groups gs (S group) rest;
      Ok (found ++ more)
  end.

Definition build_modules (self : DependencyMatrix) : result DependencyMatrix :=
  if _modules_are_built self then Ok self
  else
    found ← walk_groups (groups self) 0 (packages self);
    let '(h, ls) := alloc_all (objects self) found in
    let ms := modules self ++ ls in
    depths ← name_depths h ms;
    md ← py_max depths;
    Ok {| packages := packages self; groups := groups self;
          modules := ms; imports := imports self;
          max_depth := md; matrices := matrices self;
          _inside := _inside self;
          _modules_are_built := true;
          _imports_are_built := _imports_are_built self;
          _matrices_are_built := _matrices_are_built self;
          objects := h |}.

End Discovery.


(** ** Import resolution *)

(** One [ast.ImportFrom] node of a module body: [node.module] ([None] for
    [from . import x]), [node.level] and the names of [node.names]. The
    other nodes of the body are skipped by [parse_imports] and are not
    part of the extractor's answer. *)
Record import_from := {
  node_module : option string;
  node_level : nat;
  node_names : list string
}.

(** [contains(module)] with its cache [_inside]: the answer and the cache
    after the call. *)
Definition contains (pkgs : list (list string)) (inside : gmap string bool)
    (module : string) : bool * gmap string bool :=
  match inside !! module with
  | Some pre_computed => (pre_computed, inside)
  | None =>
      let found :=
        existsb
          (existsb (λ package,
             bool_decide (module = package)
             || Str.startswith module (package +:+ ".")))
          pkgs in
      (found, <[module := found]> inside)
  end.

(** The [while level != 0] loop of [parse_imports]. *)
Fixpoint strip_levels (level : nat) (modname : string) : string :=
  match level with
  | O => modname
  | S level' => strip_levels level' (Str.splitext modname).1
  end.

(** The name a declaration resolves to: lines 214-223 of [parse_imports],
    for the importing module [name]. *)
Definition resolve_import (name : string) (level : nat) (node_mod : string)
  : string :=
  match level with
  | O => node_mod
  | S level' =>
      strip_levels level' (Str.splitext name).1 +:+ "." +:+ node_mod
  end.

(** The ordered dictionary [sum_from]: keys in first-insertion order. *)
Fixpoint sum_from_add (sum_from : list (string * import_decl))
    (modname by_name : string) (names : list string)
  : list (string * import_decl) :=
  match sum_from with
  | [] =>
      [(modname,
        {| d_by := by_name; d_from := modname; d_import := names |})]
  | (k, d) :: rest =>
      if bool_decide (k = modname) then
        (k, {| d_by := d_by d; d_from := d_from d;
               d_import := d_import d ++ names |}) :: rest
      else (k, d) :: sum_from_add rest modname by_name names
  end.

(** The name of a module of the inventory is a string ([_walk] makes it);
    [os.path.splitext] rejects anything else. *)
Definition as_str (v : pyval) : result string :=
  match v with
  | VStr s => Ok s
  | _ => Raise TypeError
  end.

(** The three loops of [module_index] share this shape: the index of the
    first module whose name passes [test]. *)
Fixpoint index_where (h : heap) (test : pyval → result bool)
    (ms : list loc) (idx : Z) : result (option Z) :=
  match ms with
  | [] => Ok None
  | m :: rest =>
      name ← getitem h m "name";
      hit ← test name;
      if hit : bool then Ok (Some idx) else index_where h test rest (idx + 1)
  end.

(** [module_index(module)]; [None] is Python's [None]. *)
Definition module_index (h : heap) (ms : list loc) (module : string)
  : result (option Z) :=
  (* Case 1: module is already a target *)
  r1 ← index_where h (λ name, Ok (bool_decide (VStr module = name))) ms 0;
  match r1 with
  | Some idx => Ok (Some idx)
  | None =>
      (* Case 2: module is an __init__ target *)
      r2 ← index_where h
             (λ name, Ok (bool_decide (name = VStr (module +:+ ".__init__"))))
             ms 0;
      match r2 with
      | Some idx => Ok (Some idx)
      | None =>
          (* Case 3: module is the sub-module of a target *)
          index_where h
            (λ name, match name with
                     | VStr n => Ok (Str.startswith module (n +:+ "."))
                     | _ => Raise TypeError
                     end)
            ms 0
      end
  end.

Definition edge_entry (source_name : pyval) (source_index : Z)
    (target_index : Z) (target_name : pyval) (decl : import_decl) : pydict :=
  <["source_name" := source_name]>
    (<["source_index" := VInt source_index]>
      (<["target_index" := VInt target_index]>
        (<["target_name" := target_name]>
          (<["imports" := VDecls [decl]]>
            (<["cardinal" := VInt (Z.of_nat (length (d_import decl)))]> ∅))))).

Section Resolution.

(** The statement extractor: the [ImportFrom] nodes of the file at a path,
    in order, or the exception of [open] or [ast.parse]. *)
Variable extract : string → result (list import_from).

(** The loop of [parse_imports] over the nodes. *)
Fixpoint parse_nodes (pkgs : list (list string)) (name : string)
    (force : bool) (nodes : list import_from)
    (sum_from : list (string * import_decl)) (inside : gmap string bool)
  : list (string * import_decl) * gmap string bool :=
  match nodes with
  | [] => (sum_from, inside)
  | node :: rest =>
      match node_module node with
      | None | Some EmptyString =>
          parse_nodes pkgs name force rest sum_from inside
      | Some node_mod =>
          let modname := resolve_import name (node_level node) node_mod in
          let '(c, inside) := contains pkgs inside modname in
          if c || force then
            parse_nodes pkgs name force rest
              (sum_from_add sum_from modname name (node_names node)) inside
          else parse_nodes pkgs name force rest sum_from inside
      end
  end.

(** [parse_imports(module, force)]: the ordered dictionary and the cache
    after the call. The module's name is read once, ahead of the loop; the
    source reads it at each use. *)
Definition parse_imports (h : heap) (pkgs : list (list string))
    (inside : gmap string bool) (module : loc) (force : bool)
  : result (list (string * import_decl) * gmap string bool) :=
  path ← getitem h module "path";
  path ← as_str path;
  nodes ← extract path;
  name ← getitem h module "name";
  name ← as_str name;
  Ok (parse_nodes pkgs name force nodes [] inside).

(** The inner loop of [build_imports]: one edge per key of
    [imports_dicts]. *)
Fixpoint add_edges (ms : list loc) (source : loc) (source_index : Z)
    (imports_dicts : list (string * import_decl))
    (h : heap) (edges : list loc) : result (heap * list loc) :=
  match imports_dicts with
  | [] => Ok (h, edges)
  | (key, decl) :: rest =>
      target_index ← module_index h ms key;
      source_name ← getitem h source "name";
      match target_index with
      | None => Raise TypeError
      | Some target_index =>
          target ← py_index ms target_index;
          target_name ← getitem h target "name";
          let '(h, e) :=
            alloc h (edge_entry source_name source_index target_index
                       target_name decl) in
          add_edges ms source source_index rest h (edges ++ [e])
      end
  end.

(** The outer loop of [build_imports] over [self.modules]. *)
Fixpoint scan_modules (pkgs : list (list string)) (ms todo : list loc)
    (source_index : Z) (h : heap) (edges : list loc)
    (inside : gmap string bool)
  : result (heap * list loc * gmap string bool) :=
  match todo with
  | [] => Ok (h, edges, inside)
  | module :: rest =>
      '(imports_dicts, inside) ← parse_imports h pkgs inside module false;
      '(h, edges) ← add_edges ms module source_index imports_dicts h edges;
      scan_modules pkgs ms rest (source_index + 1) h edges inside
  end.

Definition build_imports (self : DependencyMatrix) : result DependencyMatrix :=
  if negb (_modules_are_built self) || _imports_are_built self then Ok self
  else
    '(h, edges, inside) ←
      scan_modules (packages self) (modules self) (modules self) 0
        (objects self) (imports self) (_inside self);
    Ok {| packages := packages self; groups := groups self;
          modules := modules self; imports := edges;
          max_depth := max_depth self; matrices := matrices self;
          _inside := inside;
          _modules_are_built := _modules_are_built self;
          _imports_are_built := true;
          _matrices_are_built := _matrices_are_built self;
          objects := h |}.

End Resolution.


(** ** Matrix construction *)

(** A dictionary keyed by Python values hashes the key before anything
    else, and a list has no hash: [d.get([...])] and [d[[...]] = v] raise
    [TypeError: unhashable type: 'list']. *)
Definition hashable (v : pyval) : bool :=
  match v with
  | VList _ | VDecls _ => false
  | _ => true
  end.

Fixpoint assoc {V} (d : list (pyval * V)) (k : pyval) : option V :=
  match d with
  | [] => None
  | (k', v) :: rest => if decide (k' = k) then Some v else assoc rest k
  end.

(** [d.get(k, None)] *)
Definition dict_get {V} (d : list (pyval * V)) (k : pyval)
  : result (option V) :=
  if hashable k then Ok (assoc d k) else Raise TypeError.

(** [d[k] = v] *)
Definition dict_set {V} (d : list (pyval * V)) (k : pyval) (v : V)
  : result (list (pyval * V)) :=
  if hashable k then Ok ((k, v) :: d) else Raise TypeError.

(** [modules_indexes[v]], a dictionary with integer keys. *)
Definition index_lookup (modules_indexes : gmap Z (Z * pyval)) (v : pyval)
  : result (Z * pyval) :=
  if hashable v then
    match v with
    | VInt z => match modules_indexes !! z with
                | Some r => Ok r
                | None => Raise KeyError
                end
    | _ => Raise KeyError
    end
  else Raise TypeError.

(** [a + b] where the class uses it: integers and lists. *)
Definition py_add (a b : pyval) : result pyval :=
  match a, b with
  | VInt x, VInt y => Ok (VInt (x + y))
  | VDecls x, VDecls y => Ok (VDecls (x ++ y))
  | VList x, VList y => Ok (VList (x ++ y))
  | VStr x, VStr y => Ok (VStr (x +:+ y))
  | _, _ => Raise TypeError
  end.

Definition up_module_entry (up_module group_name group_index : pyval)
  : pydict :=
  <["name" := up_module]>
    (<["group_name" := group_name]>
      (<["group_index" := group_index]> ∅)).

(** The first loop of [_build_up_matrix]: the new module list and the
    index remapping [modules_indexes], an entry [(index, name)] per old
    index. [up_module] is the list [m['name'].split('.')[:down_level]]. *)
Fixpoint fold_modules (down_level : nat) (ms : list loc) (h : heap)
    (up_modules : list loc) (seen_module : list (pyval * loc))
    (modules_indexes : gmap Z (Z * pyval)) (index_old index_new : Z)
  : result (heap * list loc * gmap Z (Z * pyval)) :=
  match ms with
  | [] => Ok (h, up_modules, modules_indexes)
  | m :: rest =>
      name ← getitem h m "name";
      parts ← py_split name;
      let up_module := VList (take down_level parts) in
      seen ← dict_get seen_module up_module;
      match seen with
      | Some _ =>
          fold_modules down_level rest h up_modules seen_module
            (<[index_old := (index_new, up_module)]> modules_indexes)
            (index_old + 1) index_new
      | None =>
          group_name ← getitem h m "group_name";
          group_index ← getitem h m "group_index";
          let '(h, l) :=
            alloc h (up_module_entry up_module group_name group_index) in
          seen_module ← dict_set seen_module up_module l;
          let index_new := index_new + 1 in
          fold_modules down_level rest h (up_modules ++ [l]) seen_module
            (<[index_old := (index_new, up_module)]> modules_indexes)
            (index_old + 1) index_new
      end
  end.

Definition up_import_entry (cardinal imports_ : pyval)
    (source_name : pyval) (source_index : Z)
    (target_name : pyval) (target_index : Z) : pydict :=
  <["cardinal" := cardinal]>
    (<["imports" := imports_]>
      (<["source_name" := source_name]>
        (<["source_index" := VInt source_index]>
          (<["target_name" := target_name]>
            (<["target_index" := VInt target_index]> ∅))))).

(** The second loop of [_build_up_matrix]: edges with the same remapped
    pair are merged into the first one seen. The lists under ['imports']
    are values here: that [+=] extends in place the list object the new
    edge shares with the first edge merged into it is not tracked. *)
Fixpoint fold_imports (modules_indexes : gmap Z (Z * pyval))
    (todo : list loc) (h : heap) (up_imports : list loc)
    (seen_import : gmap (Z * Z) loc) : result (heap * list loc) :=
  match todo with
  | [] => Ok (h, up_imports)
  | i :: rest =>
      si ← getitem h i "source_index";
      '(new_source_index, new_source_name) ← index_lookup modules_indexes si;
      ti ← getitem h i "target_index";
      '(new_target_index, new_target_name) ← index_lookup modules_indexes ti;
      let seen_id := (new_source_index, new_target_index) in
      match seen_import !! seen_id with
      | Some e =>
          c0 ← getitem h e "cardinal";
          c ← getitem h i "cardinal";
          c' ← py_add c0 c;
          let h := setitem h e "cardinal" c' in
          l0 ← getitem h e "imports";
          l ← getitem h i "imports";
          l' ← py_add l0 l;
          let h := setitem h e "imports" l' in
          fold_imports modules_indexes rest h up_imports seen_import
      | None =>
          c ← getitem h i "cardinal";
          l ← getitem h i "imports";
          let '(h, e) :=
            alloc h (up_import_entry c l new_source_name new_source_index
                       new_target_name new_target_index) in
          fold_imports modules_indexes rest h (up_imports ++ [e])
            (<[seen_id := e]> seen_import)
      end
  end.

(** [_build_up_matrix(down_level)]: the matrix above the one stored at
    index [down_level]. *)
Definition _build_up_matrix (ms : list (option matrix)) (h : heap)
    (down_level : nat) : result (matrix * heap) :=
  below ← py_index ms (Z.of_nat down_level);
  match below with
  | None => Raise TypeError
  | Some below =>
      '(h, up_modules, modules_indexes) ←
        fold_modules down_level (m_modules below) h [] [] ∅ 0 (-1);
      '(h, up_imports) ←
        fold_imports modules_indexes (m_imports below) h [] ∅;
      Ok ({| m_modules := up_modules; m_imports := up_imports |}, h)
  end.

(** The loop [while md > 0] of [build_matrices]. *)
Fixpoint build_up (md : nat) (ms : list (option matrix)) (h : heap)
  : result (list (option matrix) * heap) :=
  match md with
  | O => Ok (ms, h)
  | S md' =>
      '(up, h) ← _build_up_matrix ms h md;
      ms ← py_setindex ms (Z.of_nat md - 1) (Some up);
      build_up md' ms h
  end.

Definition build_matrices (self : DependencyMatrix) : result DependencyMatrix :=
  if negb (_imports_are_built self) || _matrices_are_built self then Ok self
  else
    let md := max_depth self in
    let ms := replicate (Z.to_nat md) None in
    ms ← py_setindex ms (md - 1)
           (Some {| m_modules := modules self; m_imports := imports self |});
    let md := md - 1 in
    '(ms, h) ← build_up (Z.to_nat md) ms (objects self);
    Ok {| packages := packages self; groups := groups self;
          modules := modules self; imports := imports self;
          max_depth := max_depth self; matrices := ms;
          _inside := _inside self;
          _modules_are_built := _modules_are_built self;
          _imports_are_built := _imports_are_built self;
          _matrices_are_built := true;
          objects := h |}.

(** ** Matrix access and projection *)

(** [get_matrix(matrix)]: [dict(self.matrices[m])], a new top-level
    dictionary over the same two lists. *)
Definition get_matrix (self : DependencyMatrix) (depth : Z) : result matrix :=
  let m :=
    if bool_decide (depth = 0) || bool_decide (depth > max_depth self)
    then max_depth self - 1
    else if bool_decide (depth < 0) then 0
    else depth - 1 in
  stored ← py_index (matrices self) m;
  match stored with
  | None => Raise TypeError
  | Some mat => Ok mat
  end.

(** The options dictionary of [_option_filter]. *)
Record options := {
  o_group_name : bool;
  o_group_index : bool;
  o_source_name : bool;
  o_source_index : bool;
  o_target_name : bool;
  o_target_index : bool;
  o_imports : bool;
  o_cardinal : bool
}.

Definition DEFAULT_OPTIONS : options :=
  {| o_group_name := true; o_group_index := true;
     o_source_name := true; o_source_index := true;
     o_target_name := true; o_target_index := true;
     o_imports := true; o_cardinal := true |}.

(** [for item in items: del item[k]] *)
Fixpoint del_each (k : string) (items : list loc) (h : heap) : result heap :=
  match items with
  | [] => Ok h
  | item :: rest => h ← delitem h item k; del_each k rest h
  end.

(** [if not options[k]: for item in items: del item[k]] *)
Definition del_unless (keep : bool) (k : string) (items : list loc) (h : heap)
  : result heap :=
  if keep then Ok h else del_each k items h.

(** [_option_filter(matrix, options)]: the deletions act on the
    dictionaries the lists of [matrix] refer to. *)
Definition _option_filter (mat : matrix) (o : options) (h : heap)
  : result (matrix * heap) :=
  h ← del_unless (o_group_name o) "group_name" (m_modules mat) h;
  h ← del_unless (o_group_index o) "group_index" (m_modules mat) h;
  h ← del_unless (o_source_name o) "source_name" (m_imports mat) h;
  h ← del_unless (o_source_index o) "source_index" (m_imports mat) h;
  h ← del_unless (o_target_name o) "target_name" (m_imports mat) h;
  h ← del_unless (o_target_index o) "target_index" (m_imports mat) h;
  h ← del_unless (o_imports o) "imports" (m_imports mat) h;
  h ← del_unless (o_cardinal o) "cardinal" (m_imports mat) h;
  Ok (mat, h).

(** What [json.dumps] writes for a matrix: the entries its lists refer to,
    read from the store. *)
Record document := {
  doc_modules : list pydict;
  doc_imports : list pydict
}.

Definition entries (h : heap) (ls : list loc) : list pydict :=
  (λ l, default ∅ (h !! l)) <$> ls.

Definition dump (h : heap) (mat : matrix) : document :=
  {| doc_modules := entries h (m_modules mat);
     doc_imports := entries h (m_imports mat) |}.

Definition with_objects (self : DependencyMatrix) (h : heap)
  : DependencyMatrix :=
  {| packages := packages self; groups := groups self;
     modules := modules self; imports := imports self;
     max_depth := max_depth self; matrices := matrices self;
     _inside := _inside self;
     _modules_are_built := _modules_are_built self;
     _imports_are_built := _imports_are_built self;
     _matrices_are_built := _matrices_are_built self;
     objects := h |}.

(** [matrix_to_json(matrix, options)]: the document written, and the
    instance after the call. *)
Definition matrix_to_json (self : DependencyMatrix) (depth : Z) (o : options)
  : result (document * DependencyMatrix) :=
  mat ← get_matrix self depth;
  '(mat, h) ← _option_filter mat o (objects self);
  Ok (dump h mat, with_objects self h).

(** [build()] *)
Definition build (path_resolver : string → option string)
    (listing : string → option (list fsnode))
    (extract : string → result (list import_from))
    (self : DependencyMatrix) : result DependencyMatrix :=
  self ← build_modules path_resolver listing self;
  self ← build_imports extract self;
  build_matrices self.

(** ** Statements about the analysis *)

(** *** The accessor *)

(** An analysis whose matrices are built: one stored matrix per depth
    from 1 to [max_depth]. *)
Definition built (self : DependencyMatrix) : Prop :=
  _matrices_are_built self = true
  ∧ 1 ≤ max_depth self
  ∧ length (matrices self) = Z.to_nat (max_depth self)
  ∧ Forall is_Some (matrices self).

(** The matrix built for depth [k]: [build_matrices] stores it at index
    [k - 1]. *)
Definition matrix_at (self : DependencyMatrix) (k : Z) : option matrix :=
  mjoin (matrices self !! Z.to_nat (k - 1)).

(** What a caller reads from [get_matrix(depth)]: the entries the two
    lists of the returned matrix refer to. *)
Definition read_matrix (self : DependencyMatrix) (depth : Z)
  : result document :=
  mat ← get_matrix self depth;
  Ok (dump (objects self) mat).

(** *** Dotted names *)

(** Does the character [c] occur in [s]? *)
Fixpoint occurs (c : ascii) (s : string) : bool :=
  match s with
  | EmptyString => false
  | String d r => Ascii.eqb d c || occurs c r
  end.

(** A segment of a dotted name: no dot and no slash inside. *)
Definition segment (s : string) : Prop :=
  occurs Str.dot s = false ∧ occurs Str.slash s = false.

(** A dotted name in segments: the first one is not empty. *)
Definition dotted (segs : list string) : Prop :=
  Forall segment segs ∧ head segs ≠ Some EmptyString.

(** The target of a relative declaration in the words of the
    specification: one trailing segment of the importing name goes per
    level, whatever the level, and the suffix is appended. *)
Definition spec_relative_target (segs : list string) (level : nat)
    (suffix : string) : string :=
  Str.join "." (take (length segs - level) segs) +:+ "." +:+ suffix.

(** *** The tiers of [module_index] *)

(** The names of the modules [ms] in the store, each one a string. *)
Definition module_names (h : heap) (ms : list loc) (names : list string)
  : Prop :=
  Forall2 (λ m n, getitem h m "name" = Ok (VStr n)) ms names.

(** Index [i] is the first one in inventory order whose name satisfies
    [P]; no name satisfies [P]. *)
Definition first_match (P : string → Prop) (names : list string) (i : Z)
  : Prop :=
  0 ≤ i
  ∧ (∃ n, names !! Z.to_nat i = Some n ∧ P n)
  ∧ ∀ (j : nat) n, (j < Z.to_nat i)%nat → names !! j = Some n → ¬ P n.

Definition no_match (P : string → Prop) (names : list string) : Prop :=
  Forall (λ n, ¬ P n) names.

(** Tier 1: the module's name is the target. *)
Definition exact (target n : string) : Prop := n = target.

(** Tier 2: the module's name is [<target>.__init__]. *)
Definition init_of (target n : string) : Prop := n = target +:+ ".__init__".

(** Tier 3 as the code has it: the target starts with the module's name
    and a dot (the target is below the module). *)
Definition below_module (target n : string) : Prop :=
  ∃ rest, target = (n +:+ ".") +:+ rest.

(** Tier 3 in the words of the specification: the target is a dotted
    prefix of the module's name (the module is below the target). *)
Definition spec_dotted_prefix (target n : string) : Prop :=
  ∃ rest, n = (target +:+ ".") +:+ rest.

(** The three tiers in order, the first match of the first tier that has
    one, for a third tier [T3]; [None] when no tier matches. *)
Definition tiered (T3 : string → string → Prop) (names : list string)
    (target : string) (r : option Z) : Prop :=
  match r with
  | Some i =>
      first_match (exact target) names i
      ∨ (no_match (exact target) names
         ∧ first_match (init_of target) names i)
      ∨ (no_match (exact target) names
         ∧ no_match (init_of target) names
         ∧ first_match (T3 target) names i)
  | None =>
      no_match (exact target) names
      ∧ no_match (init_of target) names
      ∧ no_match (T3 target) names
  end.

(** *** Entries and projection *)

(** An entry as [_walk] makes it: the name is the package name, a dot and
    the path of the file. An entry as [build_imports] makes it. *)
Definition is_module_entry (d : pydict) : Prop :=
  ∃ name rest path group gname,
    d = module_entry (name +:+ "." +:+ rest) path group gname.

Definition is_edge_entry (d : pydict) : Prop :=
  ∃ source_name source_index target_index target_name decl,
    d = edge_entry source_name source_index target_index target_name decl.

(** An entry whose name is a string with a dot in it. *)
Definition dotted_entry (d : pydict) : Prop :=
  ∃ n, d !! "name" = Some (VStr n) ∧ occurs Str.dot n = true.

(** An inventory as [build_modules] leaves it: a first module with a
    string for a name, and a maximum depth of two or more. *)
Definition inventory (self : DependencyMatrix) : Prop :=
  2 ≤ max_depth self
  ∧ ∃ m rest n, modules self = m :: rest
                ∧ getitem (objects self) m "name" = Ok (VStr n).

(** Every recognized option disabled; the defaults with [group_name]
    disabled. *)
Definition ALL_DISABLED : options :=
  {| o_group_name := false; o_group_index := false;
     o_source_name := false; o_source_index := false;
     o_target_name := false; o_target_index := false;
     o_imports := false; o_cardinal := false |}.

Definition NO_GROUP_NAME : options :=
  {| o_group_name := false; o_group_index := true;
     o_source_name := true; o_source_index := true;
     o_target_name := true; o_target_index := true;
     o_imports := true; o_cardinal := true |}.

Definition module_options : list string := ["group_name"; "group_index"].

Definition edge_options : list string :=
  ["source_name"; "source_index"; "target_name"; "target_index";
   "imports"; "cardinal"].

(** The entries of a matrix as the builders make them: the references are
    distinct, a module entry has the two module options among its keys,
    an edge entry has the six edge options as its keys. *)
Definition well_formed (h : heap) (mat : matrix) : Prop :=
  NoDup (m_modules mat ++ m_imports mat)
  ∧ (∀ l, l ∈ m_modules mat →
       ∃ d, h !! l = Some d ∧ ∀ k, k ∈ module_options → is_Some (d !! k))
  ∧ (∀ l, l ∈ m_imports mat →
       ∃ d, h !! l = Some d ∧ dom d = list_to_set edge_options).

(** The deletions of [_option_filter] for the keys [ks], one loop over
    the items per key. *)
Fixpoint del_keys (ks : list string) (items : list loc) (h : heap)
  : result heap :=
  match ks with
  | [] => Ok h
  | k :: rest => h ← del_each k items h; del_keys rest items h
  end.

(** A dictionary without the keys [ks]. *)
Definition without (ks : list string) (d : pydict) : pydict :=
  foldl (λ d k, delete k d) d ks.

(** *** Cardinals *)

(** The integer a value stands for in a sum of cardinals. *)
Definition int_of (v : pyval) : Z :=
  match v with
  | VInt z => z
  | _ => 0
  end.

(** The ['cardinal'] of the edge at [l], and the total over the edges
    [ls]. *)
Definition cardinal_of (h : heap) (l : loc) : Z :=
  match getitem h l "cardinal" with
  | Ok v => int_of v
  | Raise _ => 0
  end.

Definition total_cardinal (h : heap) (ls : list loc) : Z :=
  foldr (λ l acc, cardinal_of h l + acc) 0 ls.

(** ** Scenarios *)

(** The scenario of the specification: the package [app] with the files
    [__init__.py], [core.py] and [util.py], where [core.py] holds
    [from app.util import helper]. *)
Definition app_resolver (package : string) : option string :=
  if bool_decide (package = "app") then Some "/srv/app/__init__.py" else None.

Definition app_listing (path : string) : option (list fsnode) :=
  if bool_decide (path = "/srv/app")
  then Some [FFile "__init__.py"; FFile "core.py"; FFile "util.py"]
  else None.

Definition app_extract (path : string) : result (list import_from) :=
  if bool_decide (path = "/srv/app/core.py")
  then Ok [{| node_module := Some "app.util"; node_level := 0;
              node_names := ["helper"] |}]
  else Ok [].

Definition helper_decl : import_decl :=
  {| d_by := "app.core"; d_from := "app.util"; d_import := ["helper"] |}.

(** The instance after [build_modules] and [build_imports] on the
    scenario: three modules and one edge of cardinal 1. *)
Definition app_resolved : DependencyMatrix :=
  {| packages := [["app"]]; groups := GList [""];
     modules := [0; 1; 2]%nat; imports := [3%nat];
     max_depth := 2; matrices := [];
     _inside := {["app.util" := true]};
     _modules_are_built := true; _imports_are_built := true;
     _matrices_are_built := false;
     objects :=
       [module_entry "app.__init__" "/srv/app/__init__.py" 0 "";
        module_entry "app.core" "/srv/app/core.py" 0 "";
        module_entry "app.util" "/srv/app/util.py" 0 "";
        edge_entry (VStr "app.core") 1 2 (VStr "app.util") helper_decl] |}.

(** The scenario in the words of the specification: the modules [app],
    [app.core] and [app.util] and one edge from [app.core] to [app.util]
    of cardinal 1, with the imports built. *)
Definition app_as_specified : DependencyMatrix :=
  {| packages := [["app"]]; groups := GList [""];
     modules := [0; 1; 2]%nat; imports := [3%nat];
     max_depth := 2; matrices := [];
     _inside := {["app.util" := true]};
     _modules_are_built := true; _imports_are_built := true;
     _matrices_are_built := false;
     objects :=
       [module_entry "app" "/srv/app/__init__.py" 0 "";
        module_entry "app.core" "/srv/app/core.py" 0 "";
        module_entry "app.util" "/srv/app/util.py" 0 "";
        edge_entry (VStr "app.core") 1 2 (VStr "app.util") helper_decl] |}.

(** The finest matrix of the scenario. *)
Definition app_finest : matrix :=
  {| m_modules := [0; 1; 2]%nat; m_imports := [3%nat] |}.

(** The index remapping a fold of the scenario to depth 1 needs: every
    module goes to the one group [app]. *)
Definition app_remapping : gmap Z (Z * pyval) :=
  {[ 0 := (0, VList ["app"]); 1 := (0, VList ["app"]);
     2 := (0, VList ["app"]) ]}.

(** The scenario with a matrix stored for each depth, as a fold that
    completes would leave it: at depth 2 the inventory and its edge, at
    depth 1 the one group [app] and the edge folded onto it. *)
Definition app_built : DependencyMatrix :=
  {| packages := [["app"]]; groups := GList [""];
     modules := [0; 1; 2]%nat; imports := [3%nat];
     max_depth := 2;
     matrices :=
       [Some {| m_modules := [4%nat]; m_imports := [5%nat] |};
        Some app_finest];
     _inside := {["app.util" := true]};
     _modules_are_built := true; _imports_are_built := true;
     _matrices_are_built := true;
     objects :=
       objects app_resolved
       ++ [up_module_entry (VList ["app"]) (VStr "") (VInt 0);
           up_import_entry (VInt 1) (VDecls [helper_decl])
             (VList ["app"]) 0 (VList ["app"]) 0] |}.

(** A package [app] with [app/__init__.py] and a directory [app/core]
    that holds only [x.py]. *)
Definition namespace_store : heap :=
  [module_entry "app.__init__" "/srv/app/__init__.py" 0 "";
   module_entry "app.core.x" "/srv/app/core/x.py" 0 ""].

(** ** Further statements *)

(** *** Module discovery *)

(** The number of Python files below a listing entry. *)
Fixpoint count_py (node : fsnode) : nat :=
  match node with
  | FFile item => if Str.endswith item ".py" then 1%nat else 0%nat
  | FDir _ children => sum_list (count_py <$> children)
  | FNoList _ => 0%nat
  end.

(** Does [os.listdir] answer for every directory below the entry? *)
Fixpoint lists (node : fsnode) : bool :=
  match node with
  | FFile _ => true
  | FDir _ children => forallb lists children
  | FNoList _ => false
  end.

(** An entry of the group [group] for the package [name]: the four keys,
    the name below the package name, the index and the label of the
    group. *)
Definition tagged_entry (gs : groups_obj) (name : string) (group : nat)
    (d : pydict) : Prop :=
  ∃ rest path gname,
    group_label gs group = Ok gname
    ∧ d = module_entry (name +:+ "." +:+ rest) path group gname.

(** The number of dot-separated segments of the name of the module at
    [m]. *)
Definition depth_of (h : heap) (m : loc) (depth : Z) : Prop :=
  ∃ n, getitem h m "name" = Ok (VStr n)
       ∧ depth = Z.of_nat (length (Str.split Str.dot n)).

(** Does the resolver find the package? [build_modules] skips [None] and
    the empty string. *)
Definition resolves (path_resolver : string → option string)
    (package : string) : bool :=
  match path_resolver package with
  | None | Some EmptyString => false
  | Some _ => true
  end.

(** The instance after [build_modules] on the scenario. *)
Definition app_discovered : DependencyMatrix :=
  {| packages := [["app"]]; groups := GList [""];
     modules := [0; 1; 2]%nat; imports := [];
     max_depth := 2; matrices := []; _inside := ∅;
     _modules_are_built := true; _imports_are_built := false;
     _matrices_are_built := false;
     objects :=
       [module_entry "app.__init__" "/srv/app/__init__.py" 0 "";
        module_entry "app.core" "/srv/app/core.py" 0 "";
        module_entry "app.util" "/srv/app/util.py" 0 ""] |}.

(** *** The default path resolver *)

Section PathResolver.

(** [sys.path], [os.path.isdir] and [os.path.exists]. *)
Variable sys_path : list string.
Variable isdir : string → bool.
Variable path_exists : string → bool.

(** The loop of [resolve_path] over the entries of [sys.path]. *)
Fixpoint resolve_in (paths : list string) (module : string) : option string :=
  match paths with
  | [] => None
  | path :: rest =>
      let module_path :=
        Str.path_join path (Str.replace Str.dot Str.slash module) in
      if isdir module_path then
        let module_path := module_path +:+ "/__init__.py" in
        if path_exists module_path then Some module_path else None
      else if path_exists (module_path +:+ ".py")
      then Some (module_path +:+ ".py")
      else resolve_in rest module
  end.

(** [resolve_path(module)] *)
Definition resolve_path (module : string) : option string :=
  resolve_in sys_path module.

End PathResolver.

(** Where [resolve_path] looks for [module] under the entry [path]. *)
Definition candidate (path module : string) : string :=
  Str.path_join path (Str.replace Str.dot Str.slash module).

(** *** Containment *)

(** Is [module] a configured package or below one? The test of
    [contains] on a cache miss. *)
Definition contained (pkgs : list (list string)) (module : string) : bool :=
  existsb
    (existsb (λ package,
       bool_decide (module = package)
       || Str.startswith module (package +:+ ".")))
    pkgs.

(** Every cached answer is the answer the test gives. *)
Definition cache_sound (pkgs : list (list string))
    (inside : gmap string bool) : Prop :=
  ∀ module b, inside !! module = Some b → b = contained pkgs module.

(** A file system for the resolver: a package directory [/lib/app],
    with or without its [__init__.py], and a module file [/opt/app.py]. *)
Definition lib_isdir (p : string) : bool := bool_decide (p = "/lib/app").

Definition lib_exists (p : string) : bool :=
  bool_decide (p = "/lib/app/__init__.py").

Definition opt_exists (p : string) : bool := bool_decide (p = "/opt/app.py").

(** *** Declarations *)

(** What [parse_imports] keeps of a node: the resolved target and the
    names. Nothing for a node without a module, and nothing, unless
    forced, for a target outside the packages. *)
Definition kept (pkgs : list (list string)) (name : string) (force : bool)
    (node : import_from) : option (string * list string) :=
  match node_module node with
  | None | Some EmptyString => None
  | Some node_mod =>
      let target := resolve_import name (node_level node) node_mod in
      if contained pkgs target || force
      then Some (target, node_names node)
      else None
  end.

(** [sum_from.get(k)] on the ordered dictionary. *)
Fixpoint sum_lookup (sum_from : list (string * import_decl)) (k : string)
  : option import_decl :=
  match sum_from with
  | [] => None
  | (k', d) :: rest => if decide (k' = k) then Some d else sum_lookup rest k
  end.

(** The names imported from the target [k], in the order of the
    declarations. *)
Definition names_for (k : string) (ks : list (string * list string))
  : list string :=
  concat (snd <$> filter (λ e, e.1 = k) ks).

(** The ordered dictionary after the declarations [ks]: distinct keys,
    and under each target of [ks] the record of its merged names. *)
Definition recorded (name : string) (ks : list (string * list string))
    (sf : list (string * import_decl)) : Prop :=
  NoDup sf.*1
  ∧ ∀ k, sum_lookup sf k
         = if decide (k ∈ ks.*1)
           then Some {| d_by := name; d_from := k;
                        d_import := names_for k ks |}
           else None.

(** The declarations a file keeps, in order. *)
Definition kept_of (pkgs : list (list string)) (name : string) (force : bool)
    (nodes : list import_from) : list (string * list string) :=
  omap (kept pkgs name force) nodes.

(** A module [a.b.c] of the package [a] whose file holds two relative
    declarations and one import from outside the package. *)
Definition abc_store : heap := [module_entry "a.b.c" "/srv/a/b/c.py" 0 ""].

Definition abc_nodes : list import_from :=
  [{| node_module := Some "d"; node_level := 1; node_names := ["x"] |};
   {| node_module := Some "os.path"; node_level := 0;
      node_names := ["join"] |};
   {| node_module := None; node_level := 1; node_names := ["sibling"] |};
   {| node_module := Some "d"; node_level := 1; node_names := ["y"; "z"] |}].

Definition abc_extract (path : string) : result (list import_from) :=
  if bool_decide (path = "/srv/a/b/c.py") then Ok abc_nodes
  else Raise OSError.

(** *** Edges *)

(** An edge whose two ends are modules of the inventory [ms]: the indices
    are positions in [ms] and the names are the names of the modules
    there. *)
Definition sound_edge (h : heap) (ms : list loc) (d : pydict) : Prop :=
  ∃ source_index target_index source target source_name target_name decl,
    d = edge_entry source_name source_index target_index target_name decl
    ∧ 0 ≤ source_index ∧ ms !! Z.to_nat source_index = Some source
    ∧ 0 ≤ target_index ∧ ms !! Z.to_nat target_index = Some target
    ∧ getitem h source "name" = Ok source_name
    ∧ getitem h target "name" = Ok target_name.

(** *** Matrices *)

(** The scenario with [max_depth] set to 1 by hand after the first two
    stages: [build_matrices] has no fold to do. *)
Definition app_flat : DependencyMatrix :=
  {| packages := [["app"]]; groups := GList [""];
     modules := [0; 1; 2]%nat; imports := [3%nat];
     max_depth := 1; matrices := [];
     _inside := {["app.util" := true]};
     _modules_are_built := true; _imports_are_built := true;
     _matrices_are_built := false;
     objects := objects app_resolved |}.

(** The entries of [h'] are entries of [h] that have lost keys among
    [keys] and nothing else. *)
Definition trimmed (keys : list string) (h h' : heap) : Prop :=
  length h' = length h
  ∧ ∀ l d', h' !! l = Some d' →
      ∃ d, h !! l = Some d ∧ d' ⊆ d ∧ ∀ k, k ∉ keys → d' !! k = d !! k.

(** *** Import targets that no module answers for *)

(** The modules [ms] with, for each one, its name and the declarations of
    its file: every file reads and parses. *)
Definition module_sources (extract : string → result (list import_from))
    (h : heap) (ms : list loc) (srcs : list (string * list import_from))
  : Prop :=
  Forall2 (λ m s, ∃ path, getitem h m "name" = Ok (VStr s.1)
                          ∧ getitem h m "path" = Ok (VStr path)
                          ∧ extract path = Ok s.2) ms srcs.

(** Some module keeps a declaration whose target matches no module of
    the inventory in any tier of [module_index]. *)
Definition dangling (pkgs : list (list string)) (names : list string)
    (srcs : list (string * list import_from)) : Prop :=
  ∃ s target,
    s ∈ srcs
    ∧ target ∈ (kept_of pkgs s.1 false s.2).*1
    ∧ tiered below_module names target None.

(** The scenario with an import from a part of the package that has no
    file. *)
Definition ghost_node : import_from :=
  {| node_module := Some "app.plugins"; node_level := 0;
     node_names := ["load"] |}.

Definition ghost_extract (path : string) : result (list import_from) :=
  if bool_decide (path = "/srv/app/core.py") then Ok [ghost_node] else Ok [].

Definition ghost_sources : list (string * list import_from) :=
  [("app.__init__", []); ("app.core", [ghost_node]); ("app.util", [])].

(** *** The names [_walk] gives *)

(** The Python files below a listing entry, in the order [_walk] meets
    them: the chain of directories from the listing, and the file name. *)
Fixpoint python_files (node : fsnode) : list (list string * string) :=
  match node with
  | FFile item => if Str.endswith item ".py" then [([], item)] else []
  | FDir item children =>
      (λ f, (item :: f.1, f.2)) <$> concat (python_files <$> children)
  | FNoList _ => []
  end.

(** A file name without its last three characters. *)
Definition stem (item : string) : string :=
  Str.take (String.length item - 3) item.

(** Names as [os.listdir] gives them: no slash inside, and a Python file
    has a character other than a dot ahead of [.py]. *)
Fixpoint plain (node : fsnode) : bool :=
  match node with
  | FFile item =>
      negb (occurs Str.slash item)
      && (negb (Str.endswith item ".py")
          || Str.has_other Str.dot (stem item))
  | FDir item children =>
      negb (occurs Str.slash item) && forallb plain children
  | FNoList item => negb (occurs Str.slash item)
  end.

(** The prefix [_walk] has built below the directories [dirs]. *)
Fixpoint dir_prefix (dirs : list string) : string :=
  match dirs with
  | [] => EmptyString
  | d :: rest => d +:+ "/" +:+ dir_prefix rest
  end.

(** The entry of the file [f] met below the directories [above] of the
    package, in a walk that is at [path]: the name is the package name
    and the chain of directories and the stem joined by dots, the path
    is the chain joined to [path]. *)
Definition file_entry (name path : string) (group : nat) (gname : string)
    (above : list string) (f : list string * string) : pydict :=
  module_entry (name +:+ "." +:+ Str.join "." (above ++ f.1 ++ [stem f.2]))
    (foldl Str.path_join path (f.1 ++ [f.2])) group gname.

(** ** Results *)

(** *** Strings and lists *)

Ltac run := cbv beta iota delta [mbind result_bind].

Example split_ex : Str.split Str.dot "app.core" = ["app"; "core"].
Proof. reflexivity. Qed.
Example split_empty_ex : Str.split Str.dot "" = [""].
Proof. reflexivity. Qed.
Example splitext_ex1 : Str.splitext "a.b.c" = ("a.b", ".c").
Proof. reflexivity. Qed.
Example splitext_ex2 : Str.splitext "a" = ("a", "").
Proof. reflexivity. Qed.
Example splitext_ex3 : Str.splitext ".c" = (".c", "").
Proof. reflexivity. Qed.
Example splitext_ex4 : Str.splitext "pkg/core.py" = ("pkg/core", ".py").
Proof. reflexivity. Qed.
Example splitext_ex5 : Str.splitext "a.b/c" = ("a.b/c", "").
Proof. reflexivity. Qed.
Example dirname_ex : Str.dirname "/srv/app/__init__.py" = "/srv/app".
Proof. reflexivity. Qed.
Example path_join_ex : Str.path_join "/srv/app" "core.py" = "/srv/app/core.py".
Proof. reflexivity. Qed.
Example endswith_ex : Str.endswith "core.py" ".py" = true.
Proof. reflexivity. Qed.

Lemma app_cons (c : ascii) (s t : string) :
  String c s +:+ t = String c (s +:+ t).
Proof. reflexivity. Qed.

Lemma app_nil_l (s : string) : EmptyString +:+ s = s.
Proof. reflexivity. Qed.

Lemma app_assoc_str (s t u : string) : (s +:+ t) +:+ u = s +:+ t +:+ u.
Proof. induction s as [|c s IH]; [done|]. rewrite !app_cons. by f_equal. Qed.

Lemma occurs_app (c : ascii) (s t : string) :
  occurs c (s +:+ t) = occurs c s || occurs c t.
Proof.
  induction s as [|d s IH]; [done|].
  rewrite app_cons. simpl. rewrite IH. by rewrite orb_assoc.
Qed.

Lemma startswith_spec (s p : string) :
  Str.startswith s p = true ↔ ∃ rest, s = p +:+ rest.
Proof.
  revert s. induction p as [|c p IH]; intros s.
  - split; [intros _; by exists s|intros _; by destruct s].
  - destruct s as [|d s]; simpl.
    + split; [done|]. intros [rest Hr]. by rewrite app_cons in Hr.
    + rewrite andb_true_iff, IH, Ascii.eqb_eq. split.
      * intros [-> [rest ->]]. by exists rest.
      * intros [rest Hr]. rewrite app_cons in Hr.
        injection Hr as -> ->. split; [done|by exists rest].
Qed.

Lemma split_length_pos (c : ascii) (s : string) :
  (1 ≤ length (Str.split c s))%nat.
Proof.
  induction s as [|d s IH]; simpl; [lia|].
  destruct (Ascii.eqb d c); simpl; [lia|].
  destruct (Str.split c s); simpl in *; lia.
Qed.

Lemma split_length_occurs (c : ascii) (s : string) :
  occurs c s = true → (2 ≤ length (Str.split c s))%nat.
Proof.
  induction s as [|d s IH]; simpl; [done|].
  destruct (Ascii.eqb d c); simpl.
  - intros _. pose proof (split_length_pos c s). lia.
  - intros Hs. specialize (IH Hs).
    destruct (Str.split c s); simpl in *; lia.
Qed.

Lemma py_index_nil {A} (i : Z) : py_index (@nil A) i = Raise IndexError.
Proof.
  unfold py_index. simpl.
  case_bool_decide; [|done].
  case_bool_decide; lia.
Qed.

Lemma py_index_lookup {A} (l : list A) (i : Z) :
  0 ≤ i < Z.of_nat (length l) →
  ∃ x, l !! Z.to_nat i = Some x ∧ py_index l i = Ok x.
Proof.
  intros Hi. unfold py_index.
  rewrite (bool_decide_eq_false_2 (i < 0)) by lia.
  rewrite bool_decide_eq_true_2 by lia.
  destruct (lookup_lt_is_Some_2 l (Z.to_nat i)) as [x Hx]; [lia|].
  exists x. by rewrite Hx.
Qed.

Lemma py_setindex_length {A} (l l' : list A) (i : Z) (x : A) :
  py_setindex l i x = Ok l' → length l' = length l.
Proof.
  unfold py_setindex. case_bool_decide; [|done].
  intros [= <-]. by rewrite length_insert.
Qed.

Lemma py_setindex_in_range {A} (l : list A) (i : Z) (x : A) :
  0 ≤ i < Z.of_nat (length l) →
  py_setindex l i x = Ok (<[Z.to_nat i := x]> l).
Proof.
  intros Hi. unfold py_setindex.
  rewrite (bool_decide_eq_false_2 (i < 0)) by lia.
  by rewrite bool_decide_eq_true_2 by lia.
Qed.

Lemma py_setindex_Ok {A} (l l' : list A) (i : Z) (x : A) :
  py_setindex l i x = Ok l' →
  -Z.of_nat (length l) ≤ i < Z.of_nat (length l).
Proof.
  unfold py_setindex. case_bool_decide; [|done]. intros _.
  case_bool_decide; lia.
Qed.

Lemma py_max_lower (l : list Z) (md b : Z) :
  Forall (λ z, b ≤ z) l → py_max l = Ok md → b ≤ md.
Proof.
  destruct l as [|x r]; [done|]. simpl.
  intros [Hx _]%Forall_cons [= <-].
  revert x Hx. induction r as [|y r IH]; intros x Hx; simpl; [done|].
  apply IH. lia.
Qed.

(** *** Stage guards *)

(** C9: a stage called ahead of the one it depends on returns the instance
    as it is: [build_imports] before the modules are built, and
    [build_matrices] before the imports are built, change no attribute and
    no stored dictionary. *)
Theorem out_of_order_stage_is_noop
    (extract : string → result (list import_from)) (self : DependencyMatrix) :
  (_modules_are_built self = false → build_imports extract self = Ok self)
  ∧ (_imports_are_built self = false → build_matrices self = Ok self).
Proof.
  split; intros Hflag.
  - unfold build_imports. by rewrite Hflag.
  - unfold build_matrices. by rewrite Hflag.
Qed.

Lemma out_of_order_stage_is_noop_witness :
  build_imports (λ _, Raise OSError) (__init__ (PStr "app")) = Ok (__init__ (PStr "app"))
  ∧ build_matrices (__init__ (PStr "app")) = Ok (__init__ (PStr "app")).
Proof.
  destruct (out_of_order_stage_is_noop (λ _, Raise OSError) (__init__ (PStr "app")))
    as [H1 H2].
  split; [apply H1 | apply H2]; reflexivity.
Defined.

(** *** Module discovery *)

(** A package the resolver does not find adds nothing to its group. *)
Lemma walk_packages_unresolved (path_resolver : string → option string)
    (listing : string → option (list fsnode)) (gs : groups_obj)
    (group : nat) (package : string) (rest : list string) :
  path_resolver package = None →
  walk_packages path_resolver listing gs group (package :: rest)
  = walk_packages path_resolver listing gs group rest.
Proof. intros H. simpl. by rewrite H. Qed.

Lemma walk_packages_none_resolved (path_resolver : string → option string)
    (listing : string → option (list fsnode)) (gs : groups_obj)
    (group : nat) (pkgs : list string) :
  (∀ p, p ∈ pkgs → path_resolver p = None) →
  walk_packages path_resolver listing gs group pkgs = Ok [].
Proof.
  induction pkgs as [|p pkgs IH]; intros Hnone; [done|].
  rewrite walk_packages_unresolved by (apply Hnone; by left).
  apply IH. intros q Hq. apply Hnone. by right.
Qed.

Lemma walk_groups_none_resolved (path_resolver : string → option string)
    (listing : string → option (list fsnode)) (gs : groups_obj)
    (group : nat) (pgs : list (list string)) :
  (∀ pg p, pg ∈ pgs → p ∈ pg → path_resolver p = None) →
  walk_groups path_resolver listing gs group pgs = Ok [].
Proof.
  revert group. induction pgs as [|pg pgs IH]; intros group Hnone; [done|].
  simpl. rewrite walk_packages_none_resolved
    by (intros p Hp; apply (Hnone pg); [by left|done]).
  run. rewrite IH; [done|].
  intros pg' p Hpg. apply Hnone. by right.
Qed.

Lemma init_fresh (arg : packages_arg) :
  modules (__init__ arg) = [] ∧ objects (__init__ arg) = []
  ∧ imports (__init__ arg) = [] ∧ _inside (__init__ arg) = ∅
  ∧ _modules_are_built (__init__ arg) = false
  ∧ _imports_are_built (__init__ arg) = false
  ∧ _matrices_are_built (__init__ arg) = false.
Proof. by destruct arg. Qed.

(** C8 fails on the code: when no configured package resolves to a path,
    [build_modules] on a new instance does not complete; the maximum over
    the empty inventory raises [ValueError]. *)
Theorem build_modules_nothing_resolved
    (path_resolver : string → option string)
    (listing : string → option (list fsnode)) (arg : packages_arg) :
  (∀ pg p, pg ∈ packages (__init__ arg) → p ∈ pg → path_resolver p = None) →
  build_modules path_resolver listing (__init__ arg) = Raise ValueError.
Proof.
  intros Hnone. unfold build_modules.
  destruct (init_fresh arg) as (Hm & Ho & _ & _ & -> & _).
  rewrite walk_groups_none_resolved by done. run.
  by rewrite Ho, Hm.
Qed.

Lemma build_modules_nothing_resolved_witness :
  build_modules (λ _, None) (λ _, None) (__init__ (PList ["nope"; "neither"]))
  = Raise ValueError.
Proof. apply build_modules_nothing_resolved. reflexivity. Defined.

Lemma fsnode_induction (P : fsnode → Prop) :
  (∀ item, P (FFile item)) →
  (∀ item children, Forall P children → P (FDir item children)) →
  (∀ item, P (FNoList item)) →
  ∀ node, P node.
Proof.
  intros Hfile Hdir Hnolist. fix IH 1.
  intros [item|item children|item]; [apply Hfile| |apply Hnolist].
  apply Hdir. induction children as [|c cs IHcs]; constructor;
    [apply IH|apply IHcs].
Qed.

Lemma for_each_Forall {A B} (f : A → result (list B)) (Q : B → Prop)
    (l : list A) (ys : list B) :
  Forall (λ x, ∀ zs, f x = Ok zs → Forall Q zs) l →
  for_each f l = Ok ys → Forall Q ys.
Proof.
  intros Hl. revert ys. induction Hl as [|x l Hx _ IH]; intros ys.
  { by intros [= <-]. }
  simpl. destruct (f x) as [a|e] eqn:Hfx; [|done]. run.
  destruct (for_each f l) as [b|e] eqn:Hfl; [|done]. run.
  intros [= <-]. apply Forall_app. split; [by apply Hx|by apply IH].
Qed.

Lemma module_entry_dotted (d : pydict) : is_module_entry d → dotted_entry d.
Proof.
  intros (name & rest & path & group & gname & ->).
  exists (name +:+ "." +:+ rest). split.
  - unfold module_entry. by rewrite lookup_insert_eq.
  - rewrite !occurs_app. simpl. by rewrite orb_true_r.
Qed.

(** Every entry [_walk] makes is a module entry. *)
Lemma walk_item_entries (node : fsnode) :
  ∀ gs name path group prefix ds,
    _walk_item gs name path group prefix node = Ok ds →
    Forall is_module_entry ds.
Proof.
  induction node as [item|item children IH|item] using fsnode_induction;
    intros gs name path group prefix ds; simpl.
  - destruct (Str.endswith item ".py"); [|by intros [= <-]].
    destruct (group_label gs group) as [gname|e]; [|done]. run.
    intros [= <-]. apply Forall_singleton. by eexists _, _, _, _, _.
  - apply for_each_Forall.
    eapply Forall_impl; [apply IH|]. intros c Hc zs. apply Hc.
  - done.
Qed.

Lemma walk_packages_entries (path_resolver : string → option string)
    (listing : string → option (list fsnode)) (gs : groups_obj)
    (group : nat) (pkgs : list string) (ds : list pydict) :
  walk_packages path_resolver listing gs group pkgs = Ok ds →
  Forall is_module_entry ds.
Proof.
  revert ds. induction pkgs as [|p pkgs IH]; intros ds; simpl.
  { by intros [= <-]. }
  destruct (path_resolver p) as [[|c module_path]|]; [by apply IH| |by apply IH].
  destruct (listing _) as [entries_|]; [|done].
  destruct (_walk _ _ _ _ _ _) as [found|e] eqn:Hw; [|done]. run.
  destruct (walk_packages _ _ _ _ _) as [more|e]; [|done]. run.
  intros [= <-]. apply Forall_app. split; [|by apply IH].
  unfold _walk in Hw. eapply for_each_Forall; [|exact Hw].
  apply Forall_forall. intros node _ zs. apply walk_item_entries.
Qed.

Lemma walk_groups_entries (path_resolver : string → option string)
    (listing : string → option (list fsnode)) (gs : groups_obj)
    (group : nat) (pgs : list (list string)) (ds : list pydict) :
  walk_groups path_resolver listing gs group pgs = Ok ds →
  Forall is_module_entry ds.
Proof.
  revert group ds. induction pgs as [|pg pgs IH]; intros group ds; simpl.
  { by intros [= <-]. }
  destruct (walk_packages _ _ _ _ _) as [found|e] eqn:Hw; [|done]. run.
  destruct (walk_groups _ _ _ _ _) as [more|e] eqn:Hg; [|done]. run.
  intros [= <-]. apply Forall_app. split.
  - by eapply walk_packages_entries.
  - by eapply IH.
Qed.

Lemma alloc_all_spec (h : heap) (ds : list pydict) :
  alloc_all h ds = (h ++ ds, seq (length h) (length ds)).
Proof.
  revert h. induction ds as [|d ds IH]; intros h; simpl.
  { by rewrite app_nil_r. }
  unfold alloc. rewrite IH. rewrite length_app. simpl.
  rewrite <- app_assoc. simpl. by rewrite Nat.add_1_r.
Qed.

Lemma name_depths_dotted (h : heap) (ms : list loc) (depths : list Z) :
  (∀ m, m ∈ ms → ∃ d, h !! m = Some d ∧ dotted_entry d) →
  name_depths h ms = Ok depths →
  length depths = length ms ∧ Forall (λ z, 2 ≤ z) depths.
Proof.
  revert depths. induction ms as [|m ms IH]; intros depths Hms; simpl.
  { by intros [= <-]. }
  destruct (Hms m) as (d & Hd & n & Hn & Hdot); [by left|].
  unfold getitem. rewrite Hd, Hn. run. simpl py_split. run.
  destruct (name_depths h ms) as [more|e]; [|done]. run.
  intros [= <-].
  destruct (IH more) as [Hlen Hall]; [|done|].
  { intros m' Hm'. apply Hms. by right. }
  split; [simpl; by rewrite Hlen|].
  apply Forall_cons_2; [|done].
  pose proof (split_length_occurs _ _ Hdot). lia.
Qed.

(** What [build_modules] leaves on a new instance when it completes. *)
Lemma build_modules_inventory (path_resolver : string → option string)
    (listing : string → option (list fsnode)) (arg : packages_arg)
    (self : DependencyMatrix) :
  build_modules path_resolver listing (__init__ arg) = Ok self →
  inventory self
  ∧ _modules_are_built self = true
  ∧ _imports_are_built self = false
  ∧ _matrices_are_built self = false.
Proof.
  unfold build_modules.
  destruct (init_fresh arg) as (Hm & Ho & _ & _ & -> & Hi & Hx).
  destruct (walk_groups _ _ _ _ _) as [found|e] eqn:Hw; [|done]. run.
  apply walk_groups_entries in Hw.
  rewrite alloc_all_spec, Ho, Hm. simpl app. simpl length.
  destruct (name_depths _ _) as [depths|e] eqn:Hd; [|done]. run.
  destruct (py_max depths) as [md|e] eqn:Hmax; [|done]. run.
  intros [= <-]. simpl. split; [|done].
  assert (∀ m, m ∈ seq 0 (length found) →
            ∃ d, found !! m = Some d ∧ dotted_entry d) as Hfound.
  { intros m Hin. apply elem_of_seq in Hin.
    destruct (lookup_lt_is_Some_2 found m) as [d Hd']; [lia|].
    exists d. split; [done|]. apply module_entry_dotted.
    rewrite Forall_lookup in Hw. by eapply Hw. }
  destruct (name_depths_dotted _ _ _ Hfound Hd) as [Hlen Hall].
  split; [by eapply py_max_lower|].
  destruct found as [|d found].
  { simpl in Hd. injection Hd as <-. done. }
  destruct (Hfound 0%nat) as (d' & [= <-] & n & Hn & _).
  { apply elem_of_seq. simpl. lia. }
  exists 0%nat, (seq 1 (length found)), n.
  split; [done|]. unfold getitem. simpl. by rewrite Hn.
Qed.

Lemma build_modules_shape (path_resolver : string → option string)
    (listing : string → option (list fsnode)) (arg : packages_arg)
    (self : DependencyMatrix) :
  build_modules path_resolver listing (__init__ arg) = Ok self →
  Forall is_module_entry (objects self)
  ∧ modules self = seq 0 (length (objects self))
  ∧ imports self = [].
Proof.
  unfold build_modules.
  destruct (init_fresh arg) as (Hm & Ho & Hi & _ & -> & _).
  destruct (walk_groups _ _ _ _ _) as [found|e] eqn:Hw; [|done]. run.
  apply walk_groups_entries in Hw.
  rewrite alloc_all_spec, Ho, Hm. simpl app. simpl length.
  destruct (name_depths _ _) as [depths|e]; [|done]. run.
  destruct (py_max depths) as [md|e]; [|done]. run.
  by intros [= <-].
Qed.

(** *** Relative imports *)

Lemma rfind_from_absent (c : ascii) (s : string) (i acc : Z) :
  occurs c s = false → Str.rfind_from c s i acc = acc.
Proof.
  revert i acc. induction s as [|d s IH]; intros i acc Hs; [done|].
  simpl in *. apply orb_false_iff in Hs as [Hd Hs].
  rewrite Hd. by apply IH.
Qed.

Lemma rfind_from_app (c : ascii) (s t : string) (i acc : Z) :
  Str.rfind_from c (s +:+ t) i acc
  = Str.rfind_from c t (i + Z.of_nat (String.length s))
      (Str.rfind_from c s i acc).
Proof.
  revert i acc. induction s as [|d s IH]; intros i acc.
  - rewrite app_nil_l. simpl. by rewrite Z.add_0_r.
  - rewrite app_cons. simpl Str.rfind_from. rewrite IH.
    f_equal. simpl String.length. lia.
Qed.

Lemma take_length_app (s t : string) : Str.take (String.length s) (s +:+ t) = s.
Proof.
  induction s as [|c s IH]; [by destruct t|].
  rewrite app_cons. simpl. by rewrite IH.
Qed.

Lemma drop_length_app (s t : string) : Str.drop (String.length s) (s +:+ t) = t.
Proof. induction s as [|c s IH]; [done|]. by rewrite app_cons. Qed.

(** The extension of [pre.x] is [.x] when [x] is a segment and [pre] has
    no slash and starts with something else than a dot. *)
Lemma splitext_last_segment (pre x : string) :
  occurs Str.slash pre = false → Str.has_other Str.dot pre = true →
  segment x →
  Str.splitext (pre +:+ "." +:+ x) = (pre, "." +:+ x).
Proof.
  intros Hslash Hother [Hxdot Hxslash].
  unfold Str.splitext.
  assert (Hsep : Str.rfind Str.slash (pre +:+ "." +:+ x) = -1).
  { unfold Str.rfind. apply rfind_from_absent.
    rewrite !occurs_app, Hslash, Hxslash. done. }
  assert (Hdot : Str.rfind Str.dot (pre +:+ "." +:+ x)
                 = Z.of_nat (String.length pre)).
  { unfold Str.rfind. rewrite rfind_from_app.
    change ("." +:+ x) with (String Str.dot x).
    simpl Str.rfind_from.
    rewrite rfind_from_absent by done. lia. }
  rewrite Hsep, Hdot.
  rewrite bool_decide_eq_true_2 by lia.
  replace (Z.to_nat (Z.of_nat (String.length pre) - (-1 + 1)))
    with (String.length pre) by lia.
  change (Z.to_nat (-1 + 1)) with O.
  rewrite Nat2Z.id. simpl Str.drop.
  rewrite take_length_app, Hother, drop_length_app. done.
Qed.

Lemma join_snoc (segs : list string) (x : string) :
  segs ≠ [] →
  Str.join "." (segs ++ [x]) = Str.join "." segs +:+ "." +:+ x.
Proof.
  induction segs as [|s segs IH]; [done|]. intros _.
  destruct segs as [|s' segs]; [done|].
  change (Str.join "." ((s :: s' :: segs) ++ [x]))
    with (s +:+ "." +:+ Str.join "." ((s' :: segs) ++ [x])).
  rewrite IH by done.
  change (Str.join "." (s :: s' :: segs))
    with (s +:+ "." +:+ Str.join "." (s' :: segs)).
  by rewrite !app_assoc_str.
Qed.

Lemma join_no_slash (segs : list string) :
  Forall segment segs → occurs Str.slash (Str.join "." segs) = false.
Proof.
  induction 1 as [|s segs [_ Hs] _ IH]; [done|].
  destruct segs as [|s' segs]; [done|].
  change (Str.join "." (s :: s' :: segs))
    with (s +:+ "." +:+ Str.join "." (s' :: segs)).
  rewrite !occurs_app, Hs, IH. done.
Qed.

Lemma has_other_app_l (c : ascii) (s t : string) :
  Str.has_other c s = true → Str.has_other c (s +:+ t) = true.
Proof.
  induction s as [|d s IH]; [done|].
  rewrite app_cons. simpl. intros [H|H]%orb_true_iff.
  - by rewrite H.
  - rewrite IH by done. by rewrite orb_true_r.
Qed.

Lemma segment_has_other (s : string) :
  segment s → s ≠ EmptyString → Str.has_other Str.dot s = true.
Proof.
  intros [Hdot _] Hne. destruct s as [|c s]; [done|].
  simpl in *. apply orb_false_iff in Hdot as [-> _]. done.
Qed.

Lemma join_has_other (segs : list string) :
  dotted segs → segs ≠ [] → Str.has_other Str.dot (Str.join "." segs) = true.
Proof.
  intros [Hall Hhead] Hne. destruct segs as [|s segs]; [done|].
  apply Forall_cons in Hall as [Hs _].
  assert (Str.has_other Str.dot s = true) as Hs'.
  { apply segment_has_other; [done|]. intros ->. by apply Hhead. }
  destruct segs as [|s' segs]; [done|].
  change (Str.join "." (s :: s' :: segs))
    with (s +:+ "." +:+ Str.join "." (s' :: segs)).
  by apply has_other_app_l.
Qed.

Lemma dotted_snoc_inv (segs : list string) (x : string) :
  segs ≠ [] → dotted (segs ++ [x]) → dotted segs ∧ segment x.
Proof.
  intros Hne [Hall Hhead].
  apply Forall_app in Hall as [Hall Hx].
  rewrite Forall_singleton in Hx.
  split; [|done]. split; [done|].
  destruct segs; [done|]. done.
Qed.

(** One [splitext] removes the last segment of a dotted name that has at
    least two. *)
Lemma splitext_join_snoc (segs : list string) (x : string) :
  segs ≠ [] → dotted (segs ++ [x]) →
  (Str.splitext (Str.join "." (segs ++ [x]))).1 = Str.join "." segs.
Proof.
  intros Hne Hd. destruct (dotted_snoc_inv _ _ Hne Hd) as [Hsegs Hx].
  rewrite join_snoc by done.
  rewrite splitext_last_segment; [done| | |done].
  - apply join_no_slash, Hsegs.
  - by apply join_has_other.
Qed.

Lemma strip_levels_join (level : nat) (segs : list string) :
  dotted segs → (level < length segs)%nat →
  strip_levels level (Str.join "." segs)
  = Str.join "." (take (length segs - level) segs).
Proof.
  revert segs. induction level as [|level IH]; intros segs Hd Hlen.
  - simpl. by rewrite Nat.sub_0_r, firstn_all.
  - destruct (decide (segs = [])) as [->|Hne]; [simpl in Hlen; lia|].
    destruct (exists_last Hne) as (front & x & ->).
    rewrite length_app in *. simpl in Hlen.
    assert (front ≠ []) by (intros ->; simpl in Hlen; lia).
    simpl strip_levels. rewrite splitext_join_snoc by done.
    rewrite IH; [|by eapply dotted_snoc_inv|lia].
    simpl length.
    replace (length front + 1 - S level)%nat
      with (length front - level)%nat by lia.
    rewrite take_app_le by lia. done.
Qed.

(** A relative declaration below the number of segments drops one
    trailing segment per level. *)
Lemma resolve_import_dotted (segs : list string) (level : nat)
    (suffix : string) :
  dotted segs → (1 ≤ level < length segs)%nat →
  resolve_import (Str.join "." segs) level suffix
  = Str.join "." (take (length segs - level) segs) +:+ "." +:+ suffix.
Proof.
  intros Hd [Hl Hlen]. destruct level as [|level]; [lia|].
  unfold resolve_import.
  change (strip_levels level (Str.splitext (Str.join "." segs)).1)
    with (strip_levels (S level) (Str.join "." segs)).
  by rewrite strip_levels_join.
Qed.

Lemma splitext_segment (x : string) :
  segment x → Str.splitext x = (x, EmptyString).
Proof.
  intros [Hdot Hslash]. unfold Str.splitext, Str.rfind.
  rewrite !rfind_from_absent by done.
  by rewrite bool_decide_eq_false_2 by lia.
Qed.

Lemma strip_levels_fixed (level : nat) (x : string) :
  segment x → strip_levels level x = x.
Proof.
  intros Hx. induction level as [|level IH]; [done|].
  simpl. by rewrite splitext_segment.
Qed.

Lemma strip_levels_add (a b : nat) (s : string) :
  strip_levels (a + b) s = strip_levels b (strip_levels a s).
Proof.
  revert s. induction a as [|a IH]; intros s; [done|]. simpl. apply IH.
Qed.

(** Past the first segment nothing is left to strip. *)
Lemma strip_levels_saturates (level : nat) (segs : list string) :
  dotted segs →
  strip_levels level (Str.join "." segs)
  = Str.join "." (take (Nat.max 1 (length segs - level)) segs).
Proof.
  intros Hd. destruct (decide (level < length segs)%nat) as [Hlt|Hge].
  { rewrite strip_levels_join by done. f_equal. f_equal. lia. }
  replace (Nat.max 1 (length segs - level)) with 1%nat by lia.
  destruct segs as [|x segs].
  { simpl. apply strip_levels_fixed. by split. }
  replace level with (length segs + (level - length segs))%nat
    by (simpl in Hge; lia).
  rewrite strip_levels_add, strip_levels_join by (simpl; done || lia).
  replace (length (x :: segs) - length segs)%nat with 1%nat by (simpl; lia).
  simpl. apply strip_levels_fixed.
  destruct Hd as [Hall _]. by apply Forall_cons in Hall as [Hx _].
Qed.

(** C7, amended: for an importing module whose name has the segments
    [segs], a declaration of relative level [level] and module suffix
    [suffix] resolves to the name without its last [level] segments,
    followed by a dot and [suffix], as long as [level] is below the
    number of segments: one trailing segment goes per level. From there
    on the first segment stays: the target is the first segment, a dot
    and [suffix]. For [a.b.c] level 1 gives [a.b.d] and level 2 gives
    [a.d]. *)
Theorem relative_import_strips_one_segment_per_level
    (segs : list string) (level : nat) (suffix : string) :
  dotted segs → (1 ≤ level)%nat →
  resolve_import (Str.join "." segs) level suffix
  = Str.join "." (take (Nat.max 1 (length segs - level)) segs)
    +:+ "." +:+ suffix.
Proof.
  intros Hd Hl. destruct level as [|level]; [lia|].
  unfold resolve_import.
  change (strip_levels level (Str.splitext (Str.join "." segs)).1)
    with (strip_levels (S level) (Str.join "." segs)).
  by rewrite strip_levels_saturates.
Qed.

Lemma relative_import_strips_one_segment_per_level_witness :
  resolve_import "a.b.c" 1 "d" = "a.b.d"
  ∧ resolve_import "a.b.c" 2 "d" = "a.d".
Proof.
  split.
  - apply (relative_import_strips_one_segment_per_level ["a"; "b"; "c"] 1 "d").
    + split; [|done]. repeat constructor.
    + lia.
  - apply (relative_import_strips_one_segment_per_level ["a"; "b"; "c"] 2 "d").
    + split; [|done]. repeat constructor.
    + lia.
Defined.

(** C7 as stated fails: at level 3 the name [a.b.c] has lost three
    segments in the words of the claim, and the target would be [.d];
    [parse_imports] keeps the first segment and files the declaration
    under [a.d]. *)
Lemma relative_import_level_counterexample :
  resolve_import (Str.join "." ["a"; "b"; "c"]) 3 "d" = "a.d"
  ∧ spec_relative_target ["a"; "b"; "c"] 3 "d" = ".d"
  ∧ resolve_import (Str.join "." ["a"; "b"; "c"]) 3 "d"
    ≠ spec_relative_target ["a"; "b"; "c"] 3 "d".
Proof. split_and!; done. Qed.

(** The two cases of the claim for arbitrary segments [a], [b], [c]. *)
Corollary relative_import_abc (a b c d : string) :
  segment a → a ≠ EmptyString → segment b → segment c →
  resolve_import (a +:+ "." +:+ b +:+ "." +:+ c) 1 d
    = a +:+ "." +:+ b +:+ "." +:+ d
  ∧ resolve_import (a +:+ "." +:+ b +:+ "." +:+ c) 2 d = a +:+ "." +:+ d.
Proof.
  intros Ha Hne Hb Hc.
  assert (dotted [a; b; c]) as Hd.
  { split; [|simpl; congruence].
    repeat (apply Forall_cons_2; [done|]). apply Forall_nil_2. }
  split.
  - rewrite <- (app_assoc_str a "." (b +:+ "." +:+ d)).
    rewrite <- (app_assoc_str (a +:+ ".") b ("." +:+ d)).
    rewrite (app_assoc_str a "." b).
    apply (resolve_import_dotted [a; b; c] 1 d Hd).
    simpl. lia.
  - apply (resolve_import_dotted [a; b; c] 2 d Hd).
    simpl. lia.
Qed.

(** Past the first segment nothing is left to strip: a level that
    reaches the number of segments keeps the first one. *)
Example relative_import_saturates : resolve_import "a.b.c" 3 "d" = "a.d".
Proof. reflexivity. Qed.

(** [parse_imports] files a declaration under the name [resolve_import]
    gives it. *)
Lemma parse_nodes_key (pkgs : list (list string)) (name node_mod : string)
    (level : nat) (names : list string) (inside : gmap string bool) :
  node_mod ≠ EmptyString →
  (parse_nodes pkgs name true
     [{| node_module := Some node_mod; node_level := level;
         node_names := names |}] [] inside).1
  = [(resolve_import name level node_mod,
      {| d_by := name; d_from := resolve_import name level node_mod;
         d_import := names |})].
Proof.
  intros Hne. destruct node_mod as [|c node_mod]; [done|].
  simpl. by destruct (contains _ _ _) as [[] ?].
Qed.

Example parse_imports_relative :
  parse_imports
    (λ _, Ok [{| node_module := Some "d"; node_level := 1;
                 node_names := ["x"] |};
              {| node_module := Some "d"; node_level := 2;
                 node_names := ["y"] |}])
    [module_entry "a.b.c" "/srv/a/b/c.py" 0 ""] [["a"]] ∅ 0%nat false
  = Ok ([("a.b.d", {| d_by := "a.b.c"; d_from := "a.b.d"; d_import := ["x"] |});
         ("a.d", {| d_by := "a.b.c"; d_from := "a.d"; d_import := ["y"] |})],
        {[ "a.b.d" := true; "a.d" := true ]}).
Proof. by vm_compute. Qed.

(** *** The index of an import target *)

Lemma first_match_here (P : string → Prop) (n : string) (names : list string) :
  P n → first_match P (n :: names) 0.
Proof.
  intros HP. split; [lia|]. split; [by exists n|].
  intros j m Hj. simpl in Hj. lia.
Qed.

Lemma first_match_later (P : string → Prop) (n : string) (names : list string)
    (i : Z) :
  ¬ P n → first_match P names i → first_match P (n :: names) (i + 1).
Proof.
  intros Hn (Hi & (m & Hm & HP) & Hbefore).
  assert (Z.to_nat (i + 1) = S (Z.to_nat i)) as Hs by lia.
  split; [lia|]. rewrite Hs. split; [by exists m|].
  intros [|j] m' Hj; simpl; [by intros [= <-]|].
  apply Hbefore. lia.
Qed.

(** One loop of [module_index]: it answers the first index, counted from
    [idx], whose name passes the test. *)
Lemma index_where_spec (h : heap) (test : pyval → result bool)
    (P : string → Prop) (ms : list loc) (names : list string) (idx : Z) :
  module_names h ms names →
  (∀ n, ∃ b : bool, test (VStr n) = Ok b ∧ (b = true ↔ P n)) →
  ∃ r, index_where h test ms idx = Ok r
       ∧ match r with
         | Some i => first_match P names (i - idx)
         | None => no_match P names
         end.
Proof.
  intros Hnames Htest. revert idx.
  induction Hnames as [|m n ms names Hm _ IH]; intros idx.
  - exists None. split; [done|]. apply Forall_nil_2.
  - simpl. rewrite Hm. simpl.
    destruct (Htest n) as (b & -> & Hb). simpl.
    destruct b.
    + exists (Some idx). split; [done|].
      rewrite Z.sub_diag. apply first_match_here. by apply Hb.
    + assert (¬ P n) as Hn by (intros HP; by apply Hb in HP).
      destruct (IH (idx + 1)) as (r & -> & Hr).
      exists r. split; [done|]. destruct r as [i|].
      * replace (i - idx) with (i - (idx + 1) + 1) by lia.
        by apply first_match_later.
      * by apply Forall_cons_2.
Qed.

(** C4, amended: [module_index] tries three tiers in order: a module whose
    name is the target; a module named [<target>.__init__]; a module whose
    name followed by a dot is a prefix of the target. The first tier with
    a match answers its first match in inventory order, and the answer is
    [None] when no tier matches. *)
Theorem module_index_tiers (h : heap) (ms : list loc) (names : list string)
    (target : string) :
  module_names h ms names →
  ∃ r, module_index h ms target = Ok r ∧ tiered below_module names target r.
Proof.
  intros Hnames. unfold module_index.
  destruct (index_where_spec h
              (λ name, Ok (bool_decide (VStr target = name)))
              (exact target) ms names 0 Hnames) as (r1 & -> & H1).
  { intros n. eexists. split; [done|].
    rewrite bool_decide_eq_true. unfold exact.
    split; [by intros [= ->]|by intros ->]. }
  simpl. destruct r1 as [i|].
  { exists (Some i). split; [done|]. left. by rewrite Z.sub_0_r in H1. }
  destruct (index_where_spec h
              (λ name, Ok (bool_decide (name = VStr (target +:+ ".__init__"))))
              (init_of target) ms names 0 Hnames) as (r2 & -> & H2).
  { intros n. eexists. split; [done|].
    rewrite bool_decide_eq_true. unfold init_of.
    split; [by intros [= ->]|by intros ->]. }
  simpl. destruct r2 as [i|].
  { exists (Some i). split; [done|]. right. left.
    by rewrite Z.sub_0_r in H2. }
  destruct (index_where_spec h
              (λ name, match name with
                       | VStr n => Ok (Str.startswith target (n +:+ "."))
                       | _ => Raise TypeError
                       end)
              (below_module target) ms names 0 Hnames) as (r3 & -> & H3).
  { intros n. eexists. split; [done|]. apply startswith_spec. }
  exists r3. split; [done|]. destruct r3 as [i|].
  - right. right. by rewrite Z.sub_0_r in H3.
  - done.
Qed.

Lemma module_index_tiers_witness :
  ∃ r, module_index namespace_store [0%nat; 1%nat] "app.core.x.helper" = Ok r
       ∧ tiered below_module ["app.__init__"; "app.core.x"]
           "app.core.x.helper" r.
Proof.
  apply module_index_tiers.
  repeat constructor.
Defined.

Example module_index_below_module :
  module_index namespace_store [0%nat; 1%nat] "app.core.x.helper"
  = Ok (Some 1).
Proof. reflexivity. Qed.

(** C4 as stated fails: with the modules [app.__init__] and [app.core.x]
    the target [app.core] is a dotted prefix of the second module's name,
    yet [module_index] finds no index for it. *)
Lemma module_index_prefix_counterexample :
  ∃ r, module_index namespace_store [0%nat; 1%nat] "app.core" = Ok r
       ∧ ¬ tiered spec_dotted_prefix ["app.__init__"; "app.core.x"]
             "app.core" r.
Proof.
  exists None. split; [reflexivity|].
  intros (_ & _ & H3).
  apply Forall_cons in H3 as [_ H3].
  apply Forall_cons in H3 as [H3 _].
  apply H3. by exists "x".
Qed.

(** *** The edges of the inventory *)

Example app_scenario_resolved :
  build_modules app_resolver app_listing (__init__ (PStr "app"))
    ≫= build_imports app_extract
  = Ok app_resolved.
Proof. vm_compute. reflexivity. Qed.



Lemma getitem_extends (h more : heap) (l : loc) (k : string) (v : pyval) :
  getitem h l k = Ok v → getitem (h ++ more) l k = Ok v.
Proof.
  unfold getitem. destruct (h !! l) as [d|] eqn:Hl; [|done].
  by rewrite (lookup_app_l_Some _ _ _ _ Hl).
Qed.


Lemma add_edges_shape (ms : list loc) (source : loc) (source_index : Z)
    (imports_dicts : list (string * import_decl)) (h h' : heap)
    (edges edges' : list loc) :
  add_edges ms source source_index imports_dicts h edges = Ok (h', edges') →
  ∃ more, h' = h ++ more
          ∧ edges' = edges ++ seq (length h) (length more)
          ∧ Forall is_edge_entry more.
Proof.
  revert h edges. induction imports_dicts as [|[key decl] rest IH];
    intros h edges; simpl.
  { intros [= <- <-]. exists []. by rewrite !app_nil_r. }
  destruct (module_index h ms key) as [target_index|e]; [|done]. run.
  destruct (getitem h source "name") as [source_name|e]; [|done]. run.
  destruct target_index as [target_index|]; [|done].
  destruct (py_index ms target_index) as [target|e]; [|done]. run.
  destruct (getitem h target "name") as [target_name|e]; [|done]. run.
  intros (more & -> & -> & Hmore)%IH.
  eexists (_ :: more). split_and!.
  - by rewrite <- app_assoc.
  - rewrite <- app_assoc. f_equal. rewrite length_app. simpl.
    by rewrite Nat.add_1_r.
  - apply Forall_cons_2; [|done]. by eexists _, _, _, _, _.
Qed.

Lemma scan_modules_shape (extract : string → result (list import_from))
    (pkgs : list (list string)) (ms todo : list loc) (source_index : Z)
    (h h' : heap) (edges edges' : list loc) (inside inside' : gmap string bool) :
  scan_modules extract pkgs ms todo source_index h edges inside
  = Ok (h', edges', inside') →
  ∃ more, h' = h ++ more
          ∧ edges' = edges ++ seq (length h) (length more)
          ∧ Forall is_edge_entry more.
Proof.
  revert source_index h edges inside.
  induction todo as [|module rest IH]; intros source_index h edges inside;
    simpl.
  { intros [= <- <- _]. exists []. by rewrite !app_nil_r. }
  destruct (parse_imports extract h pkgs inside module false)
    as [[imports_dicts inside1]|e]; [|done]. run.
  destruct (add_edges ms module source_index imports_dicts h edges)
    as [[h1 edges1]|e] eqn:Hadd; [|done]. run.
  apply add_edges_shape in Hadd as (more1 & -> & -> & Hmore1).
  intros (more & -> & -> & Hmore)%IH.
  exists (more1 ++ more). split_and!.
  - by rewrite <- app_assoc.
  - rewrite <- !app_assoc. f_equal. rewrite !length_app.
    by rewrite seq_app.
  - by apply Forall_app.
Qed.

Lemma module_entry_options (d : pydict) (k : string) :
  is_module_entry d → k ∈ module_options → is_Some (d !! k).
Proof.
  intros (name & rest & path & group & gname & ->) Hk.
  unfold module_options in Hk.
  repeat (apply elem_of_cons in Hk as [->|Hk]);
    [by eexists..|by apply elem_of_nil in Hk].
Qed.

Lemma edge_entry_options (d : pydict) :
  is_edge_entry d → dom d = list_to_set edge_options.
Proof.
  intros (sn & si & ti & tn & decl & ->).
  unfold edge_entry, edge_options. apply set_eq. intros k.
  rewrite !dom_insert_L, dom_empty_L, elem_of_list_to_set.
  rewrite !elem_of_union, !elem_of_singleton, elem_of_empty.
  rewrite !elem_of_cons, elem_of_nil. tauto.
Qed.

Lemma module_entries_names (found more : heap) :
  Forall is_module_entry found →
  ∃ names, module_names (found ++ more) (seq 0 (length found)) names.
Proof.
  intros Hfound.
  assert (∀ base, ∃ names,
            Forall2 (λ m n, getitem (base ++ found ++ more) m "name"
                            = Ok (VStr n))
              (seq (length base) (length found)) names) as H.
  { induction Hfound as [|d found Hd _ IH]; intros base.
    { exists []. constructor. }
    destruct Hd as (name & rest & path & group & gname & ->).
    destruct (IH (base ++ [module_entry (name +:+ "." +:+ rest) path
                             group gname])) as [names Hnames].
    exists ((name +:+ "." +:+ rest) :: names). simpl. constructor.
    - unfold getitem. rewrite lookup_app_r by lia.
      by rewrite Nat.sub_diag.
    - rewrite length_app, Nat.add_1_r in Hnames.
      by rewrite <- app_assoc in Hnames. }
  apply (H []).
Qed.

(** After the first two stages on a new instance the inventory and the
    edges form a well-formed matrix, and every module has a string for a
    name: the hypotheses of the statements on [_option_filter] and
    [module_index] hold of what the builders make. *)
Lemma resolved_well_formed (path_resolver : string → option string)
    (listing : string → option (list fsnode))
    (extract : string → result (list import_from)) (arg : packages_arg)
    (s1 s2 : DependencyMatrix) :
  build_modules path_resolver listing (__init__ arg) = Ok s1 →
  build_imports extract s1 = Ok s2 →
  well_formed (objects s2)
    {| m_modules := modules s2; m_imports := imports s2 |}
  ∧ ∃ names, module_names (objects s2) (modules s2) names.
Proof.
  intros H1 H2.
  pose proof (build_modules_inventory _ _ _ _ H1) as (_ & Hm & Hi & _).
  apply build_modules_shape in H1 as (Hfound & Hmods & Himps).
  revert H2. unfold build_imports.
  rewrite Hm, Hi. simpl negb. simpl orb. cbv iota.
  destruct (scan_modules _ _ _ _ _ _ _ _) as [[[h edges] inside]|e] eqn:Hscan;
    [|done]. run.
  intros [= <-]. simpl.
  apply scan_modules_shape in Hscan as (more & -> & -> & Hmore).
  rewrite Himps, Hmods. simpl app.
  split; [|by apply module_entries_names].
  split_and!; simpl.
  - rewrite <- seq_app. apply NoDup_seq.
  - intros l Hl%elem_of_seq.
    destruct (lookup_lt_is_Some_2 (objects s1) l) as [d Hd]; [lia|].
    exists d. split; [by apply lookup_app_l_Some|].
    intros k. apply module_entry_options.
    rewrite Forall_lookup in Hfound. by eapply Hfound.
  - intros l Hl%elem_of_seq.
    destruct (lookup_lt_is_Some_2 more (l - length (objects s1))) as [d Hd];
      [lia|].
    exists d. split.
    + rewrite lookup_app_r by lia. done.
    + apply edge_entry_options.
      rewrite Forall_lookup in Hmore. by eapply Hmore.
Qed.

(** *** Folding *)

(** The first loop of [_build_up_matrix] stops at its first module: the
    collapsed name is a list, and looking a list up in [seen_module]
    raises [TypeError]. *)
Lemma fold_modules_raises (down_level : nat) (m : loc) (rest : list loc)
    (h : heap) (n : string) (up_modules : list loc)
    (seen_module : list (pyval * loc)) (modules_indexes : gmap Z (Z * pyval))
    (index_old index_new : Z) :
  getitem h m "name" = Ok (VStr n) →
  fold_modules down_level (m :: rest) h up_modules seen_module
    modules_indexes index_old index_new
  = Raise TypeError.
Proof. intros Hn. simpl. by rewrite Hn. Qed.

(** Whatever the entries hold, the loop completes on no module at all. *)
Lemma fold_modules_never_completes (down_level : nat) (m : loc)
    (rest : list loc) (h : heap) (up_modules : list loc)
    (seen_module : list (pyval * loc)) (modules_indexes : gmap Z (Z * pyval))
    (index_old index_new : Z) :
  ∃ e, fold_modules down_level (m :: rest) h up_modules seen_module
         modules_indexes index_old index_new
       = Raise e.
Proof.
  simpl. destruct (getitem h m "name") as [v|e]; [|by exists e].
  run. destruct (py_split v) as [parts|e]; [|by exists e].
  by exists TypeError.
Qed.

(** The first fold of [build_matrices] raises as soon as there is a
    module to fold. *)
Lemma first_fold_raises (self : DependencyMatrix) (m : loc)
    (rest : list loc) (n : string) :
  _imports_are_built self = true → _matrices_are_built self = false →
  2 ≤ max_depth self →
  modules self = m :: rest →
  getitem (objects self) m "name" = Ok (VStr n) →
  build_matrices self = Raise TypeError.
Proof.
  intros Hi Hm Hmd Hmods Hname. unfold build_matrices.
  rewrite Hi, Hm. simpl negb. simpl orb. cbv iota.
  set (finest := {| m_modules := modules self; m_imports := imports self |}).
  rewrite py_setindex_in_range by (rewrite length_replicate; lia). run.
  destruct (Z.to_nat (max_depth self - 1)) as [|k] eqn:Hk; [lia|].
  simpl build_up. unfold _build_up_matrix.
  assert (S k < Z.to_nat (max_depth self))%nat as Hlt by lia.
  destruct (py_index_lookup
              (<[S k := Some finest]>
                 (replicate (Z.to_nat (max_depth self)) None))
              (Z.of_nat (S k))) as (x & Hx & ->).
  { rewrite length_insert, length_replicate. lia. }
  rewrite Nat2Z.id in Hx.
  rewrite list_lookup_insert_eq in Hx by (by rewrite length_replicate).
  injection Hx as <-. run. unfold finest. simpl m_modules. rewrite Hmods.
  by rewrite (fold_modules_raises _ _ _ _ n).
Qed.

Example first_fold_raises_on_scenario :
  build_matrices app_resolved = Raise TypeError.
Proof.
  apply (first_fold_raises app_resolved 0%nat [1; 2]%nat "app.__init__");
    reflexivity || (simpl; lia).
Qed.

(** C2 fails on the code: on the scenario of the specification, with the
    modules [app], [app.core], [app.util] and the edge of cardinal 1,
    [build_matrices] raises [TypeError]; there is no depth-1 matrix and
    no self-loop in it. *)
Theorem scenario_fold_raises :
  build_matrices app_as_specified = Raise TypeError
  ∧ build app_resolver app_listing app_extract (__init__ (PStr "app"))
    = Raise TypeError.
Proof. split; by vm_compute. Qed.


(** *** The second loop of the fold

    The loop over the edges is sound for any index remapping: it keeps
    the total of the cardinals, and an edge whose two ends fall together
    stays, as a self-loop. Only the first loop keeps [_build_up_matrix]
    from reaching it. *)

Lemma py_add_int_of (a b c : pyval) :
  py_add a b = Ok c → int_of c = int_of a + int_of b.
Proof. destruct a, b; simpl; try done; by intros [= <-]. Qed.

Lemma setitem_length (h : heap) (e : loc) (k : string) (v : pyval) :
  length (setitem h e k v) = length h.
Proof. unfold setitem. destruct (h !! e); [by rewrite length_insert|done]. Qed.

Lemma getitem_setitem_ne (h : heap) (e l : loc) (k k' : string) (v : pyval) :
  l ≠ e ∨ k' ≠ k → getitem (setitem h e k v) l k' = getitem h l k'.
Proof.
  intros Hne. unfold setitem, getitem.
  destruct (h !! e) as [d|] eqn:He; [|done].
  destruct (decide (l = e)) as [->|Hl].
  - rewrite list_lookup_insert_eq by (by eapply lookup_lt_Some).
    rewrite He. destruct Hne as [?|Hk]; [done|].
    by rewrite lookup_insert_ne.
  - by rewrite list_lookup_insert_ne.
Qed.

Lemma getitem_setitem_eq (h : heap) (e : loc) (k : string) (v : pyval) :
  is_Some (h !! e) → getitem (setitem h e k v) e k = Ok v.
Proof.
  intros [d He]. unfold setitem, getitem. rewrite He.
  rewrite list_lookup_insert_eq by (by eapply lookup_lt_Some).
  by rewrite lookup_insert_eq.
Qed.

Lemma getitem_is_Some (h : heap) (l : loc) (k : string) (v : pyval) :
  getitem h l k = Ok v → is_Some (h !! l).
Proof. unfold getitem. destruct (h !! l); [by eexists|done]. Qed.

Lemma total_cardinal_app (h : heap) (a b : list loc) :
  total_cardinal h (a ++ b) = total_cardinal h a + total_cardinal h b.
Proof.
  induction a as [|x a IH]; simpl; [lia|].
  unfold total_cardinal in *. simpl. rewrite IH. lia.
Qed.

Lemma total_cardinal_ext (h h' : heap) (ls : list loc) :
  (∀ l, l ∈ ls → cardinal_of h' l = cardinal_of h l) →
  total_cardinal h' ls = total_cardinal h ls.
Proof.
  induction ls as [|x ls IH]; intros Hls; [done|].
  unfold total_cardinal in *. simpl.
  rewrite Hls by (by left). rewrite IH; [done|].
  intros l Hl. apply Hls. by right.
Qed.

Lemma total_cardinal_bump (h h' : heap) (ls : list loc) (e : loc) (delta : Z) :
  NoDup ls → e ∈ ls →
  (∀ l, l ≠ e → cardinal_of h' l = cardinal_of h l) →
  cardinal_of h' e = cardinal_of h e + delta →
  total_cardinal h' ls = total_cardinal h ls + delta.
Proof.
  intros Hnd He Hother Hbump.
  induction ls as [|x ls IH]; [by apply elem_of_nil in He|].
  apply NoDup_cons in Hnd as [Hx Hnd].
  change (cardinal_of h' x + total_cardinal h' ls
          = cardinal_of h x + total_cardinal h ls + delta).
  apply elem_of_cons in He as [->|He].
  - rewrite Hbump. rewrite (total_cardinal_ext h h' ls); [lia|].
    intros l Hl. apply Hother. by intros ->.
  - rewrite IH by done. rewrite Hother; [lia|]. by intros ->.
Qed.

Lemma cardinal_of_extends (h more : heap) (l : loc) :
  (l < length h)%nat → cardinal_of (h ++ more) l = cardinal_of h l.
Proof.
  intros Hl. unfold cardinal_of, getitem.
  by rewrite lookup_app_l by done.
Qed.

(** The loop over the edges keeps the total of the cardinals. [n0]
    separates the edges to fold, below it, from the merged edges the
    loop has made, from it on. *)
Lemma fold_imports_total (modules_indexes : gmap Z (Z * pyval)) (n0 : nat)
    (todo : list loc) :
  ∀ (h : heap) (up_imports : list loc) (seen_import : gmap (Z * Z) loc)
    (h' : heap) (up' : list loc),
    (n0 ≤ length h)%nat →
    Forall (λ i, (i < n0)%nat) todo →
    Forall (λ e, (n0 ≤ e < length h)%nat) up_imports →
    NoDup up_imports →
    (∀ id e, seen_import !! id = Some e → e ∈ up_imports) →
    fold_imports modules_indexes todo h up_imports seen_import = Ok (h', up') →
    total_cardinal h' up'
    = total_cardinal h up_imports + total_cardinal h todo.
Proof.
  induction todo as [|i rest IH];
    intros h up seen h' up' Hn0 Htodo Hup Hnd Hseen; simpl.
  { intros [= <- <-]. unfold total_cardinal. simpl. lia. }
  apply Forall_cons in Htodo as [Hi Hrest].
  destruct (getitem h i "source_index") as [si|?]; [|done]. run.
  destruct (index_lookup modules_indexes si) as [[nsi nsn]|?]; [|done]. run.
  destruct (getitem h i "target_index") as [ti|?]; [|done]. run.
  destruct (index_lookup modules_indexes ti) as [[nti ntn]|?]; [|done]. run.
  destruct (seen !! (nsi, nti)) as [e|] eqn:Hid.
  - (* merged into the edge [e] *)
    destruct (getitem h e "cardinal") as [c0|?] eqn:Hc0; [|done]. run.
    destruct (getitem h i "cardinal") as [c|?] eqn:Hc; [|done]. run.
    destruct (py_add c0 c) as [c'|?] eqn:Hadd; [|done]. run.
    set (h1 := setitem h e "cardinal" c').
    destruct (getitem h1 e "imports") as [l0|?]; [|done]. run.
    destruct (getitem h1 i "imports") as [l|?]; [|done]. run.
    destruct (py_add l0 l) as [l'|?]; [|done]. run.
    set (h2 := setitem h1 e "imports" l').
    intros Hfold.
    assert (e ∈ up) as He by (by eapply Hseen).
    assert (n0 ≤ e < length h)%nat as Hebound.
    { rewrite Forall_forall in Hup. by apply Hup. }
    assert (length h2 = length h) as Hlen
      by (unfold h2, h1; by rewrite !setitem_length).
    assert (∀ l, l ≠ e → cardinal_of h2 l = cardinal_of h l) as Hother.
    { intros l0' Hl. unfold cardinal_of, h2, h1.
      by rewrite !getitem_setitem_ne by (by left). }
    assert (cardinal_of h2 e = cardinal_of h e + cardinal_of h i) as Hbump.
    { unfold cardinal_of at 1. unfold h2.
      rewrite getitem_setitem_ne by (by right).
      unfold h1. rewrite getitem_setitem_eq by (by eapply getitem_is_Some).
      unfold cardinal_of. rewrite Hc0, Hc. by apply py_add_int_of. }
    rewrite (IH h2 up seen h' up'); [|lia|done| |done|done|done].
    + rewrite (total_cardinal_bump h h2 up e (cardinal_of h i)) by done.
      rewrite (total_cardinal_ext h h2 rest).
      * change (total_cardinal h (i :: rest))
          with (cardinal_of h i + total_cardinal h rest). lia.
      * intros l0' Hl. apply Hother.
        rewrite Forall_forall in Hrest. specialize (Hrest _ Hl). lia.
    + rewrite Hlen. done.
  - (* a new edge *)
    destruct (getitem h i "cardinal") as [c|?] eqn:Hc; [|done]. run.
    destruct (getitem h i "imports") as [l|?]; [|done]. run.
    unfold alloc.
    set (d := up_import_entry c l nsn nsi ntn nti).
    intros Hfold.
    assert (length h ∉ up) as Hfresh.
    { intros Hin. rewrite Forall_forall in Hup. specialize (Hup _ Hin). lia. }
    rewrite (IH (h ++ [d]) (up ++ [length h]) (<[(nsi, nti) := length h]> seen)
               h' up'); [|rewrite length_app; lia|done|..|done].
    + rewrite total_cardinal_app.
      rewrite (total_cardinal_ext h (h ++ [d]) rest).
      rewrite (total_cardinal_ext h (h ++ [d]) up).
      * change (total_cardinal h (i :: rest))
          with (cardinal_of h i + total_cardinal h rest).
        assert (total_cardinal (h ++ [d]) [length h] = cardinal_of h i)
          as ->; [|lia].
        unfold total_cardinal, cardinal_of at 1, getitem. simpl.
        rewrite lookup_app_r by lia. rewrite Nat.sub_diag. simpl.
        unfold d, up_import_entry. rewrite lookup_insert_eq.
        unfold cardinal_of. rewrite Hc. lia.
      * intros l0' Hl. apply cardinal_of_extends.
        rewrite Forall_forall in Hup. specialize (Hup _ Hl). lia.
      * intros l0' Hl. apply cardinal_of_extends.
        rewrite Forall_forall in Hrest. specialize (Hrest _ Hl). lia.
    + apply Forall_app. split.
      * eapply Forall_impl; [exact Hup|]. intros x Hx. simpl in Hx.
        rewrite length_app. simpl. lia.
      * apply Forall_singleton. rewrite length_app. simpl. lia.
    + apply NoDup_app. split; [done|]. split.
      * intros x Hx ->%list_elem_of_singleton. done.
      * apply NoDup_singleton.
    + intros id e'. rewrite lookup_insert. case_decide.
      * intros [= <-]. apply elem_of_app. right. by left.
      * intros Hs. apply elem_of_app. left. by eapply Hseen.
Qed.

(** From the start of the loop: the merged edges carry the total of the
    cardinals of the edges below. *)
Lemma fold_imports_conserves (modules_indexes : gmap Z (Z * pyval))
    (todo : list loc) (h h' : heap) (up' : list loc) :
  Forall (λ i, (i < length h)%nat) todo →
  fold_imports modules_indexes todo h [] ∅ = Ok (h', up') →
  total_cardinal h' up' = total_cardinal h todo.
Proof.
  intros Htodo Hfold.
  rewrite (fold_imports_total modules_indexes (length h) todo h [] ∅ h' up');
    [done|done|done|apply Forall_nil_2|apply NoDup_nil_2| |done].
  intros id e. by rewrite lookup_empty.
Qed.

(** On the scenario, with the remapping a fold to depth 1 needs, the loop
    keeps the edge from [app.core] to [app.util] as a self-loop on the
    group [app], with cardinal 1. *)
Example fold_imports_keeps_self_loop :
  ∃ h', fold_imports app_remapping (imports app_resolved)
          (objects app_resolved) [] ∅
        = Ok (h', [4%nat])
    ∧ h' !! 4%nat
      = Some (up_import_entry (VInt 1) (VDecls [helper_decl])
                (VList ["app"]) 0 (VList ["app"]) 0).
Proof.
  exists (objects app_resolved
          ++ [up_import_entry (VInt 1) (VDecls [helper_decl])
                (VList ["app"]) 0 (VList ["app"]) 0]).
  split; reflexivity.
Qed.

(** *** When [build_matrices] completes *)

Lemma fold_imports_without_remapping (i : loc) (rest : list loc) (h : heap)
    (up_imports : list loc) (seen_import : gmap (Z * Z) loc) :
  ∃ e, fold_imports ∅ (i :: rest) h up_imports seen_import = Raise e.
Proof.
  simpl. destruct (getitem h i "source_index") as [si|e]; [|by exists e].
  run. unfold index_lookup.
  destruct si; simpl;
    try (by exists KeyError); by exists TypeError.
Qed.

(** A fold completes only below a matrix with no module and no edge. *)
Lemma build_up_matrix_completes (ms : list (option matrix)) (h h' : heap)
    (down_level : nat) (up : matrix) :
  _build_up_matrix ms h down_level = Ok (up, h') →
  ∃ below, py_index ms (Z.of_nat down_level) = Ok (Some below)
           ∧ m_modules below = [] ∧ m_imports below = [].
Proof.
  unfold _build_up_matrix.
  destruct (py_index ms (Z.of_nat down_level)) as [[below|]|e]; [|done..].
  run. intros Hfold. exists below. split; [done|].
  destruct (m_modules below) as [|m rest].
  - split; [done|]. simpl in Hfold. run.
    destruct (m_imports below) as [|i rest]; [done|].
    destruct (fold_imports_without_remapping i rest h [] ∅) as [e He].
    by rewrite He in Hfold.
  - destruct (fold_modules_never_completes down_level m rest h [] [] ∅ 0 (-1))
      as [e He].
    by rewrite He in Hfold.
Qed.

(** The extent of the defect: [build_matrices] completes only when there
    is nothing to fold, with a maximum depth of 1, or with an inventory
    and an edge list that are both empty. *)
Lemma build_matrices_completes (self self' : DependencyMatrix) :
  _imports_are_built self = true → _matrices_are_built self = false →
  build_matrices self = Ok self' →
  max_depth self = 1
  ∨ (2 ≤ max_depth self ∧ modules self = [] ∧ imports self = []).
Proof.
  intros Hi Hm. unfold build_matrices.
  rewrite Hi, Hm. simpl negb. simpl orb. cbv iota.
  set (finest := {| m_modules := modules self; m_imports := imports self |}).
  destruct (py_setindex _ _ _) as [ms|e] eqn:Hset; [|done]. run.
  pose proof (py_setindex_Ok _ _ _ _ Hset) as Hrange.
  rewrite length_replicate in Hrange.
  intros Hbuild.
  destruct (decide (max_depth self = 1)) as [|Hne]; [by left|right].
  rewrite py_setindex_in_range in Hset by (rewrite length_replicate; lia).
  injection Hset as <-.
  destruct (Z.to_nat (max_depth self - 1)) as [|k] eqn:Hk; [lia|].
  simpl build_up in Hbuild.
  destruct (_build_up_matrix _ _ _) as [[up h]|e] eqn:Hup; [|done].
  split; [lia|].
  apply build_up_matrix_completes in Hup as (below & Hbelow & Hmods & Himps).
  destruct (py_index_lookup
              (<[S k := Some finest]>
                 (replicate (Z.to_nat (max_depth self)) None))
              (Z.of_nat (S k))) as (x & Hx & Hpy).
  { rewrite length_insert, length_replicate. lia. }
  rewrite Nat2Z.id in Hx.
  rewrite list_lookup_insert_eq in Hx by (rewrite length_replicate; lia).
  rewrite Hpy in Hbelow. injection Hx as <-. injection Hbelow as <-.
  done.
Qed.

Lemma build_up_fills (k : nat) :
  ∀ (ms : list (option matrix)) (h : heap) (ms' : list (option matrix))
    (h' : heap),
    (∀ j, (k ≤ j < length ms)%nat → ∃ mat, ms !! j = Some (Some mat)) →
    build_up k ms h = Ok (ms', h') →
    length ms' = length ms ∧ Forall is_Some ms'.
Proof.
  induction k as [|k IH]; intros ms h ms' h' Hfilled; simpl.
  - intros [= <- <-]. split; [done|].
    apply Forall_lookup. intros j x Hj.
    destruct (Hfilled j) as [mat Hmat].
    { split; [lia|]. by eapply lookup_lt_Some. }
    rewrite Hmat in Hj. injection Hj as <-. by eexists.
  - destruct (_build_up_matrix ms h (S k)) as [[up h1]|e]; [|done]. run.
    destruct (py_setindex ms (Z.of_nat (S k) - 1) (Some up)) as [ms1|e] eqn:Hset;
      [|done]. run.
    pose proof (py_setindex_length _ _ _ _ Hset) as Hlen.
    pose proof (py_setindex_Ok _ _ _ _ Hset) as Hrange.
    rewrite py_setindex_in_range in Hset by lia.
    injection Hset as <-.
    replace (Z.to_nat (Z.of_nat (S k) - 1)) with k in * by lia.
    intros Hbuild. apply IH in Hbuild as [Hlen' Hall].
    + split; [congruence|done].
    + intros j Hj. rewrite length_insert in Hj.
      destruct (decide (j = k)) as [->|Hne].
      * exists up. apply list_lookup_insert_eq. lia.
      * rewrite list_lookup_insert_ne by done. apply Hfilled. lia.
Qed.

(** An analysis on which [build_matrices] has completed is built. *)
Lemma build_matrices_built (self self' : DependencyMatrix) :
  _imports_are_built self = true → _matrices_are_built self = false →
  build_matrices self = Ok self' → built self'.
Proof.
  intros Hi Hm. unfold build_matrices.
  rewrite Hi, Hm. simpl negb. simpl orb. cbv iota.
  set (finest := {| m_modules := modules self; m_imports := imports self |}).
  destruct (py_setindex _ _ _) as [ms|e] eqn:Hset; [|done]. run.
  pose proof (py_setindex_Ok _ _ _ _ Hset) as Hrange.
  rewrite length_replicate in Hrange.
  rewrite py_setindex_in_range in Hset by (rewrite length_replicate; lia).
  injection Hset as <-.
  destruct (build_up _ _ _) as [[ms' h']|e] eqn:Hup; [|done].
  intros [= <-]. apply build_up_fills in Hup as [Hlen Hall].
  - unfold built. simpl. split_and!; [done|lia| |done].
    by rewrite Hlen, length_insert, length_replicate.
  - intros j Hj. rewrite length_insert, length_replicate in Hj.
    exists finest. replace j with (Z.to_nat (max_depth self - 1)) by lia.
    apply list_lookup_insert_eq. rewrite length_replicate. lia.
Qed.

(** *** The accessor *)

(** With no matrix stored, every depth is out of range. *)
Lemma get_matrix_empty (self : DependencyMatrix) (d : Z) :
  matrices self = [] → get_matrix self d = Raise IndexError.
Proof.
  intros Hm. unfold get_matrix. rewrite Hm. by rewrite py_index_nil.
Qed.

(** C10: before [build_matrices] has run, with [matrices] empty and
    [max_depth] zero, [get_matrix] raises [IndexError] at every depth. *)
Theorem get_matrix_before_build (self : DependencyMatrix) (d : Z) :
  matrices self = [] → max_depth self = 0 →
  get_matrix self d = Raise IndexError.
Proof. intros Hm _. by apply get_matrix_empty. Qed.

Lemma get_matrix_before_build_witness :
  get_matrix (__init__ (PList ["app"; "lib"])) (-3) = Raise IndexError.
Proof. apply get_matrix_before_build; reflexivity. Defined.

Lemma get_matrix_in_range (self : DependencyMatrix) (k : Z) :
  built self → 1 ≤ k ≤ max_depth self →
  ∃ mat, matrix_at self k = Some mat ∧ get_matrix self k = Ok mat.
Proof.
  intros (_ & Hmd & Hlen & Hall) Hk.
  unfold get_matrix, matrix_at.
  rewrite (bool_decide_eq_false_2 (k = 0)) by lia.
  rewrite (bool_decide_eq_false_2 (k > max_depth self)) by lia.
  rewrite (bool_decide_eq_false_2 (k < 0)) by lia. simpl.
  destruct (py_index_lookup (matrices self) (k - 1)) as (stored & Hl & ->);
    [lia|].
  rewrite Hl. simpl.
  rewrite Forall_lookup in Hall.
  destruct (Hall _ _ Hl) as [mat ->]. by exists mat.
Qed.

(** C6: on a built analysis, depth 0 and every depth above [max_depth]
    give what depth [max_depth] gives, every negative depth gives what
    depth 1 gives, a depth [k] from 1 to [max_depth] gives the matrix built
    for depth [k], and every depth gives a matrix. *)
Theorem get_matrix_clamps (self : DependencyMatrix) :
  built self →
  get_matrix self 0 = get_matrix self (max_depth self)
  ∧ (∀ k, k > max_depth self →
       get_matrix self k = get_matrix self (max_depth self))
  ∧ (∀ k, k < 0 → get_matrix self k = get_matrix self 1)
  ∧ (∀ k, 1 ≤ k ≤ max_depth self →
       ∃ mat, matrix_at self k = Some mat ∧ get_matrix self k = Ok mat)
  ∧ (∀ k, ∃ mat, get_matrix self k = Ok mat).
Proof.
  intros Hb. pose proof Hb as (_ & Hmd & _ & _).
  assert (H0 : get_matrix self 0 = get_matrix self (max_depth self)).
  { unfold get_matrix. simpl.
    rewrite (bool_decide_eq_false_2 (max_depth self = 0)) by lia.
    rewrite (bool_decide_eq_false_2 (max_depth self > max_depth self)) by lia.
    rewrite (bool_decide_eq_false_2 (max_depth self < 0)) by lia. done. }
  assert (Hhi : ∀ k, k > max_depth self →
            get_matrix self k = get_matrix self (max_depth self)).
  { intros k Hk. rewrite <- H0. unfold get_matrix.
    rewrite (bool_decide_eq_true_2 (k > max_depth self)) by lia.
    by rewrite orb_true_r. }
  assert (Hlo : ∀ k, k < 0 → get_matrix self k = get_matrix self 1).
  { intros k Hk. unfold get_matrix.
    rewrite (bool_decide_eq_false_2 (k = 0)) by lia.
    rewrite (bool_decide_eq_false_2 (k > max_depth self)) by lia.
    rewrite (bool_decide_eq_true_2 (k < 0)) by lia.
    rewrite (bool_decide_eq_false_2 (1 = 0)) by lia.
    rewrite (bool_decide_eq_false_2 (1 > max_depth self)) by lia.
    rewrite (bool_decide_eq_false_2 (1 < 0)) by lia. done. }
  split_and!; [done|done|done|by intros k Hk; apply get_matrix_in_range|].
  intros k.
  destruct (decide (k = 0)) as [->|?].
  { rewrite H0. destruct (get_matrix_in_range self (max_depth self) Hb)
      as (mat & _ & ->); [lia|]. by exists mat. }
  destruct (decide (k < 0)).
  { rewrite Hlo by done. destruct (get_matrix_in_range self 1 Hb)
      as (mat & _ & ->); [lia|]. by exists mat. }
  destruct (decide (k > max_depth self)).
  { rewrite Hhi by done. destruct (get_matrix_in_range self (max_depth self) Hb)
      as (mat & _ & ->); [lia|]. by exists mat. }
  destruct (get_matrix_in_range self k Hb) as (mat & _ & ->); [lia|].
  by exists mat.
Qed.

Lemma app_built_is_built : built app_built.
Proof.
  split_and!; [done|done|done|].
  repeat (apply Forall_cons_2; [by eexists|]). apply Forall_nil_2.
Qed.

Lemma get_matrix_clamps_witness :
  get_matrix app_built 0 = get_matrix app_built (max_depth app_built)
  ∧ (∀ k, k > max_depth app_built →
       get_matrix app_built k = get_matrix app_built (max_depth app_built))
  ∧ (∀ k, k < 0 → get_matrix app_built k = get_matrix app_built 1)
  ∧ (∀ k, 1 ≤ k ≤ max_depth app_built →
       ∃ mat, matrix_at app_built k = Some mat
              ∧ get_matrix app_built k = Ok mat)
  ∧ (∀ k, ∃ mat, get_matrix app_built k = Ok mat).
Proof. apply get_matrix_clamps. apply app_built_is_built. Defined.

Example get_matrix_clamps_examples :
  get_matrix app_built 0 = Ok app_finest
  ∧ get_matrix app_built 7 = Ok app_finest
  ∧ get_matrix app_built 2 = Ok app_finest
  ∧ get_matrix app_built (-3) = get_matrix app_built 1.
Proof. by vm_compute. Qed.

(** *** Projection *)

Lemma delitem_present (h : heap) (l : loc) (k : string) (d : pydict) :
  h !! l = Some d → is_Some (d !! k) →
  delitem h l k = Ok (<[l := delete k d]> h).
Proof. intros Hl [v Hv]. unfold delitem. by rewrite Hl, Hv. Qed.

(** One deletion loop: every item loses the key, nothing else changes. *)
Lemma del_each_spec (k : string) (items : list loc) (h : heap) :
  NoDup items →
  (∀ l, l ∈ items → ∃ d, h !! l = Some d ∧ is_Some (d !! k)) →
  ∃ h', del_each k items h = Ok h'
        ∧ ∀ l, h' !! l
               = if decide (l ∈ items) then delete k <$> h !! l else h !! l.
Proof.
  revert h. induction items as [|i items IH]; intros h Hnd Hkeys.
  { exists h. split; [done|]. intros l.
    by rewrite decide_False by apply not_elem_of_nil. }
  apply NoDup_cons in Hnd as [Hi Hnd].
  destruct (Hkeys i) as (d & Hd & Hk); [by left|].
  simpl. rewrite (delitem_present h i k d) by done. run.
  assert (i < length h)%nat as Hlt by (by eapply lookup_lt_Some).
  destruct (IH (<[i := delete k d]> h) Hnd) as (h' & -> & Hh').
  { intros l Hl. assert (i ≠ l) by (by intros ->).
    rewrite list_lookup_insert_ne by done. apply Hkeys. by right. }
  exists h'. split; [done|]. intros l. rewrite Hh'.
  destruct (decide (l = i)) as [->|Hne].
  - rewrite decide_False by done. rewrite decide_True by (by left).
    rewrite list_lookup_insert_eq by done. by rewrite Hd.
  - rewrite list_lookup_insert_ne by done.
    destruct (decide (l ∈ items)).
    + by rewrite decide_True by (by right).
    + by rewrite decide_False by (by apply not_elem_of_cons).
Qed.

Lemma without_cons (k : string) (ks : list string) (d : pydict) :
  without (k :: ks) d = without ks (delete k d).
Proof. done. Qed.

Lemma without_lookup (ks : list string) (d : pydict) (k : string) :
  without ks d !! k = if decide (k ∈ ks) then None else d !! k.
Proof.
  revert d. induction ks as [|k' ks IH]; intros d.
  { by rewrite decide_False by apply not_elem_of_nil. }
  rewrite without_cons, IH.
  destruct (decide (k ∈ ks)).
  { by rewrite decide_True by (by right). }
  destruct (decide (k = k')) as [->|Hne].
  - rewrite decide_True by (by left). apply lookup_delete_eq.
  - rewrite decide_False by (by apply not_elem_of_cons).
    by apply lookup_delete_ne.
Qed.

(** The loops for several keys: every item loses them all. *)
Lemma del_keys_spec (ks : list string) (items : list loc) (h : heap) :
  NoDup ks → NoDup items →
  (∀ l, l ∈ items → ∃ d, h !! l = Some d ∧ ∀ k, k ∈ ks → is_Some (d !! k)) →
  ∃ h', del_keys ks items h = Ok h'
        ∧ ∀ l, h' !! l
               = if decide (l ∈ items) then without ks <$> h !! l else h !! l.
Proof.
  revert h. induction ks as [|k ks IH]; intros h Hks Hnd Hkeys.
  { exists h. split; [done|]. intros l. case_decide; [|done].
    by destruct (h !! l). }
  apply NoDup_cons in Hks as [Hk Hks].
  destruct (del_each_spec k items h Hnd) as (h1 & Hdel & Hh1).
  { intros l Hl. destruct (Hkeys l Hl) as (d & Hd & Hall).
    exists d. split; [done|]. apply Hall. by left. }
  simpl. rewrite Hdel. run.
  destruct (IH h1 Hks Hnd) as (h' & -> & Hh').
  { intros l Hl. destruct (Hkeys l Hl) as (d & Hd & Hall).
    exists (delete k d). rewrite Hh1, decide_True, Hd by done.
    split; [done|]. intros k' Hk'.
    rewrite lookup_delete_ne by (by intros ->). apply Hall. by right. }
  exists h'. split; [done|]. intros l. rewrite Hh', Hh1.
  case_decide; [|done]. by destruct (h !! l).
Qed.

(** With every option disabled [_option_filter] is the deletion of the
    two module options and then of the six edge options. *)
Lemma option_filter_all_disabled (mat : matrix) (h : heap) :
  _option_filter mat ALL_DISABLED h
  = (h ← del_keys module_options (m_modules mat) h;
     h ← del_keys edge_options (m_imports mat) h;
     Ok (mat, h)).
Proof.
  unfold _option_filter, ALL_DISABLED, del_unless. simpl.
  repeat match goal with
         | |- context [del_each ?k ?items ?h0] =>
             destruct (del_each k items h0); simpl; [|done]
         end.
  done.
Qed.

Lemma without_all_keys (ks : list string) (d : pydict) :
  dom d = list_to_set ks → without ks d = ∅.
Proof.
  intros Hdom. apply map_eq. intros k.
  rewrite without_lookup, lookup_empty.
  case_decide as Hk; [done|].
  apply not_elem_of_dom. rewrite Hdom. by rewrite elem_of_list_to_set.
Qed.

Lemma entries_fmap (f : pydict → pydict) (h h' : heap) (ls : list loc) :
  (∀ l, l ∈ ls → is_Some (h !! l) ∧ h' !! l = f <$> h !! l) →
  entries h' ls = f <$> entries h ls.
Proof.
  unfold entries. induction ls as [|l ls IH]; intros Hls; [done|].
  rewrite !fmap_cons.
  rewrite IH by (intros l' Hl'; apply Hls; by right). f_equal.
  destruct (Hls l) as [[d Hd] ->]; [by left|]. by rewrite Hd.
Qed.

Lemma edge_options_NoDup : NoDup edge_options.
Proof. apply (bool_decide_unpack _). by vm_compute. Qed.

Lemma module_options_NoDup : NoDup module_options.
Proof. apply (bool_decide_unpack _). by vm_compute. Qed.

(** C5, amended: projecting a matrix with every recognized option disabled
    succeeds; every edge entry becomes the empty mapping; every module
    entry loses [group_name] and [group_index] and keeps its other keys,
    [name] among them; the module list and the edge list keep their
    lengths. *)
Theorem projection_all_disabled (h : heap) (mat : matrix) :
  well_formed h mat →
  ∃ h', _option_filter mat ALL_DISABLED h = Ok (mat, h')
    ∧ doc_modules (dump h' mat)
      = (λ d, delete "group_index" (delete "group_name" d))
          <$> doc_modules (dump h mat)
    ∧ doc_imports (dump h' mat) = (λ _, ∅) <$> doc_imports (dump h mat)
    ∧ length (doc_modules (dump h' mat)) = length (doc_modules (dump h mat))
    ∧ length (doc_imports (dump h' mat)) = length (doc_imports (dump h mat)).
Proof.
  intros (Hnd & Hmods & Hedges).
  apply NoDup_app in Hnd as (Hnd1 & Hdisj & Hnd2).
  rewrite option_filter_all_disabled.
  destruct (del_keys_spec module_options (m_modules mat) h)
    as (h1 & -> & Hh1); [apply module_options_NoDup|done|done|].
  run.
  destruct (del_keys_spec edge_options (m_imports mat) h1)
    as (h2 & -> & Hh2); [apply edge_options_NoDup|done|..].
  { intros l Hl. destruct (Hedges l Hl) as (d & Hd & Hdom).
    exists d. rewrite Hh1, decide_False by (intros ?; by eapply Hdisj).
    split; [done|]. intros k Hk. apply elem_of_dom. rewrite Hdom.
    by apply elem_of_list_to_set. }
  run. exists h2. split; [done|].
  assert (doc_modules (dump h2 mat)
          = (λ d, delete "group_index" (delete "group_name" d))
              <$> doc_modules (dump h mat)) as Hm.
  { apply entries_fmap. intros l Hl.
    destruct (Hmods l Hl) as (d & Hd & _).
    split; [by rewrite Hd|].
    rewrite Hh2, decide_False by (by apply Hdisj).
    by rewrite Hh1, decide_True by done. }
  assert (doc_imports (dump h2 mat) = (λ _, ∅) <$> doc_imports (dump h mat))
    as He.
  { apply entries_fmap. intros l Hl.
    destruct (Hedges l Hl) as (d & Hd & Hdom).
    split; [by rewrite Hd|].
    rewrite Hh2, decide_True by done.
    rewrite Hh1, decide_False by (intros ?; by eapply Hdisj).
    rewrite Hd. change (Some (without edge_options d) = Some ∅).
    by rewrite without_all_keys. }
  split_and!; [done|done|by rewrite Hm, length_fmap|by rewrite He, length_fmap].
Qed.

Lemma app_finest_well_formed : well_formed (objects app_built) app_finest.
Proof.
  split_and!.
  - apply (bool_decide_unpack _). by vm_compute.
  - intros l Hl. simpl in Hl.
    repeat (apply elem_of_cons in Hl as [->|Hl]);
      [..|by apply elem_of_nil in Hl];
      (eexists; split; [reflexivity|]);
      intros k Hk; unfold module_options in Hk;
      repeat (apply elem_of_cons in Hk as [->|Hk]);
      try (by apply elem_of_nil in Hk); by eexists.
  - intros l Hl. simpl in Hl.
    repeat (apply elem_of_cons in Hl as [->|Hl]);
      [..|by apply elem_of_nil in Hl].
    eexists; split; [reflexivity|].
    apply edge_entry_options. by eexists _, _, _, _, _.
Qed.

Lemma projection_all_disabled_witness :
  ∃ h', _option_filter app_finest ALL_DISABLED (objects app_built)
        = Ok (app_finest, h')
    ∧ doc_modules (dump h' app_finest)
      = (λ d, delete "group_index" (delete "group_name" d))
          <$> doc_modules (dump (objects app_built) app_finest)
    ∧ doc_imports (dump h' app_finest)
      = (λ _, ∅) <$> doc_imports (dump (objects app_built) app_finest)
    ∧ length (doc_modules (dump h' app_finest))
      = length (doc_modules (dump (objects app_built) app_finest))
    ∧ length (doc_imports (dump h' app_finest))
      = length (doc_imports (dump (objects app_built) app_finest)).
Proof.
  apply projection_all_disabled. apply app_finest_well_formed.
Defined.

(** C5 as stated fails: with every option disabled the module entries of
    the scenario's finest matrix keep [name] and [path]; they are not
    empty mappings. *)
Lemma projection_all_disabled_counterexample :
  ∃ doc self',
    matrix_to_json app_built 2 ALL_DISABLED = Ok (doc, self')
    ∧ doc_modules doc
      = [ {[ "name" := VStr "app.__init__";
             "path" := VStr "/srv/app/__init__.py" ]};
          {[ "name" := VStr "app.core"; "path" := VStr "/srv/app/core.py" ]};
          {[ "name" := VStr "app.util"; "path" := VStr "/srv/app/util.py" ]} ]
    ∧ ¬ Forall (λ d, d = ∅) (doc_modules doc).
Proof.
  destruct (matrix_to_json app_built 2 ALL_DISABLED) as [[doc self']|e] eqn:E;
    vm_compute in E; [|discriminate].
  exists doc, self'. injection E as <- <-.
  split; [done|]. split; [by vm_compute|].
  intros H. apply Forall_cons in H as [H _].
  apply (f_equal (λ d : pydict, d !! "name")) in H.
  vm_compute in H. discriminate.
Qed.

Lemma option_filter_no_group_name (mat : matrix) (h : heap) :
  _option_filter mat NO_GROUP_NAME h
  = (h ← del_each "group_name" (m_modules mat) h; Ok (mat, h)).
Proof.
  unfold _option_filter, NO_GROUP_NAME, del_unless. simpl.
  by destruct (del_each "group_name" (m_modules mat) h).
Qed.

(** C3 fails on the code: on every analysis, at every depth whose matrix
    is well formed and has a module, [matrix_to_json] with [group_name]
    disabled deletes the key from the stored module entries. The list of
    stored matrices is the same and [get_matrix] returns the same lists,
    but the entries they refer to have lost [group_name], and the same
    call a second time raises [KeyError]. *)
Theorem projection_corrupts_stored_matrix (self : DependencyMatrix)
    (depth : Z) (mat : matrix) (m : loc) (rest : list loc) :
  get_matrix self depth = Ok mat →
  well_formed (objects self) mat →
  m_modules mat = m :: rest →
  ∃ doc self',
    matrix_to_json self depth NO_GROUP_NAME = Ok (doc, self')
    ∧ matrices self' = matrices self
    ∧ (∃ later, read_matrix self' depth = Ok later
         ∧ Forall (λ d, d !! "group_name" = None) (doc_modules later))
    ∧ matrix_to_json self' depth NO_GROUP_NAME = Raise KeyError.
Proof.
  intros Hget (Hnd & Hmods & _) Hcons.
  apply NoDup_app in Hnd as (Hnd & _ & _).
  destruct (del_each_spec "group_name" (m_modules mat) (objects self) Hnd)
    as (h' & Hdel & Hh').
  { intros l Hl. destruct (Hmods l Hl) as (d & Hd & Hkeys).
    exists d. split; [done|]. apply Hkeys. by left. }
  assert (∀ l, l ∈ m_modules mat →
            ∃ d, h' !! l = Some d ∧ d !! "group_name" = None) as Hgone.
  { intros l Hl. destruct (Hmods l Hl) as (d & Hd & _).
    exists (delete "group_name" d).
    rewrite Hh', decide_True, Hd by done.
    split; [done|apply lookup_delete_eq]. }
  assert (get_matrix (with_objects self h') depth = Ok mat) as Hget'
    by exact Hget.
  exists (dump h' mat), (with_objects self h'). split_and!.
  - unfold matrix_to_json. rewrite Hget. run.
    rewrite option_filter_no_group_name, Hdel. done.
  - done.
  - exists (dump h' mat). split.
    + unfold read_matrix. by rewrite Hget'.
    + simpl. unfold entries. apply Forall_fmap, Forall_forall.
      intros l Hl. destruct (Hgone l Hl) as (d & Hl' & Hd).
      unfold compose. by rewrite Hl'.
  - unfold matrix_to_json. rewrite Hget'. run.
    rewrite option_filter_no_group_name, Hcons. simpl.
    destruct (Hgone m) as (d & Hd & Hk); [rewrite Hcons; by left|].
    unfold delitem. by rewrite Hd, Hk.
Qed.

Lemma projection_corrupts_stored_matrix_witness :
  ∃ doc self',
    matrix_to_json app_built 2 NO_GROUP_NAME = Ok (doc, self')
    ∧ matrices self' = matrices app_built
    ∧ (∃ later, read_matrix self' 2 = Ok later
         ∧ Forall (λ d, d !! "group_name" = None) (doc_modules later))
    ∧ matrix_to_json self' 2 NO_GROUP_NAME = Raise KeyError.
Proof.
  apply (projection_corrupts_stored_matrix app_built 2 app_finest
           0%nat [1; 2]%nat).
  - reflexivity.
  - apply app_finest_well_formed.
  - reflexivity.
Defined.

(** On the scenario: the entries read before and after the projection
    differ, also when read through another depth that maps to the same
    matrix. *)
Example projection_corrupts_scenario :
  ∃ doc self',
    matrix_to_json app_built 2 NO_GROUP_NAME = Ok (doc, self')
    ∧ read_matrix self' 2 ≠ read_matrix app_built 2
    ∧ read_matrix self' 0 ≠ read_matrix app_built 0
    ∧ read_matrix self' 1 = read_matrix app_built 1.
Proof.
  destruct (matrix_to_json app_built 2 NO_GROUP_NAME) as [[doc self']|e] eqn:E;
    vm_compute in E; [|discriminate].
  exists doc, self'. injection E as <- <-.
  pose (seen := λ r : result document,
          match r with
          | Ok d => (λ m : pydict, m !! "group_name") <$> doc_modules d
          | Raise _ => []
          end).
  split_and!; [done| | |reflexivity];
    intros H; apply (f_equal seen) in H; vm_compute in H; discriminate.
Qed.

(** A projection leaves the list of stored matrices and the flags as
    they are: the analysis stays built. What it changes is the store. *)
Lemma matrix_to_json_built (self self' : DependencyMatrix) (depth : Z)
    (o : options) (doc : document) :
  built self → matrix_to_json self depth o = Ok (doc, self') → built self'.
Proof.
  intros Hb. unfold matrix_to_json.
  destruct (get_matrix self depth) as [mat|e]; [|done]. run.
  destruct (_option_filter mat o (objects self)) as [[mat' h]|e]; [|done].
  run. by intros [= _ <-].
Qed.

(** *** Discovery: what [_walk] and [build_modules] make *)

Lemma for_each_cons {A B} (f : A → result (list B)) (x : A) (l : list A) :
  for_each f (x :: l) = (a ← f x; b ← for_each f l; Ok (a ++ b)).
Proof. reflexivity. Qed.

Lemma for_each_length {A B} (f : A → result (list B)) (size : A → nat)
    (l : list A) :
  Forall (λ x, ∃ ys, f x = Ok ys ∧ length ys = size x) l →
  ∃ ys, for_each f l = Ok ys ∧ length ys = sum_list (size <$> l).
Proof.
  induction 1 as [|x l (a & Ha & Hlen) _ (b & Hb & Hlenb)].
  { by exists []. }
  exists (a ++ b). rewrite for_each_cons, Ha. run. rewrite Hb. run.
  split; [done|]. by rewrite length_app, fmap_cons, Hlen, Hlenb.
Qed.

Lemma py_index_nat {A} (l : list A) (i : nat) (x : A) :
  l !! i = Some x → py_index l (Z.of_nat i) = Ok x.
Proof.
  intros Hx. destruct (py_index_lookup l (Z.of_nat i)) as (y & Hy & ->).
  { apply lookup_lt_Some in Hx. lia. }
  rewrite Nat2Z.id in Hy. congruence.
Qed.

Lemma py_index_beyond {A} (l : list A) (i : nat) :
  (length l ≤ i)%nat → py_index l (Z.of_nat i) = Raise IndexError.
Proof.
  intros Hi. unfold py_index.
  rewrite (bool_decide_eq_false_2 (Z.of_nat i < 0)) by lia.
  by rewrite bool_decide_eq_false_2 by lia.
Qed.

Lemma forallb_Forall_true {A} (f : A → bool) (l : list A) :
  forallb f l = true → Forall (λ x, f x = true) l.
Proof.
  rewrite forallb_forall. intros Hl. apply Forall_forall.
  intros x Hx. apply Hl. by apply list_elem_of_In.
Qed.

Lemma Forall_forallb_mp {A} (f : A → bool) (P : A → Prop) (l : list A) :
  Forall (λ x, f x = true → P x) l → forallb f l = true → Forall P l.
Proof.
  intros Hl Hf%forallb_Forall_true.
  rewrite Forall_forall in Hl, Hf. apply Forall_forall.
  intros x Hx. apply Hl; [done|by apply Hf].
Qed.

Lemma walk_item_count (gs : groups_obj) (group : nat) (gname : string)
    (node : fsnode) :
  group_label gs group = Ok gname →
  lists node = true →
  ∀ name path prefix,
    ∃ ds, _walk_item gs name path group prefix node = Ok ds
          ∧ length ds = count_py node.
Proof.
  intros Hgname.
  induction node as [item|item children IH|item] using fsnode_induction;
    intros Hlists name path prefix; simpl.
  - destruct (Str.endswith item ".py"); [|by exists []].
    rewrite Hgname. run. by eexists.
  - apply (for_each_length _ count_py).
    eapply Forall_impl; [exact (Forall_forallb_mp _ _ _ IH Hlists)|].
    intros c Hc. apply Hc.
  - done.
Qed.

(** X1: When [self.groups] has a label at the group index and every
    directory of the tree lists, [_walk] completes with one entry per
    Python file of the tree. The keys view of an ordered dictionary has
    no label at any index. *)
Theorem walk_counts_python_files (gs : groups_obj) (name path : string)
    (group : nat) (gname prefix : string) (listing : list fsnode) :
  group_label gs group = Ok gname →
  forallb lists listing = true →
  ∃ ds, _walk gs name path group prefix listing = Ok ds
        ∧ length ds = sum_list (count_py <$> listing).
Proof.
  intros Hgname Hlists. unfold _walk. apply (for_each_length _ count_py).
  eapply Forall_impl; [exact (forallb_Forall_true _ _ Hlists)|].
  intros node Hnode. by apply (walk_item_count gs group gname).
Qed.

Lemma walk_counts_python_files_witness :
  ∃ ds, _walk (GList [""]) "app" "/srv/app" 0 ""
          [FFile "__init__.py"; FDir "sub" [FFile "x.py"; FFile "README"];
           FFile "notes.txt"]
        = Ok ds
        ∧ length ds
          = sum_list (count_py <$>
              [FFile "__init__.py"; FDir "sub" [FFile "x.py"; FFile "README"];
               FFile "notes.txt"]).
Proof. apply (walk_counts_python_files _ _ _ _ ""); reflexivity. Defined.

Lemma for_each_no_label {A B} (f : A → result (list B)) (size : A → nat)
    (e : exn) (l : list A) :
  Forall (λ x, (size x = 0%nat ∧ f x = Ok [])
               ∨ ((0 < size x)%nat ∧ f x = Raise e)) l →
  (sum_list (size <$> l) = 0%nat ∧ for_each f l = Ok [])
  ∨ ((0 < sum_list (size <$> l))%nat ∧ for_each f l = Raise e).
Proof.
  induction 1 as [|x l Hx _ IH]; [by left|].
  rewrite fmap_cons, for_each_cons.
  change (sum_list (size x :: (size <$> l)))
    with (size x + sum_list (size <$> l))%nat.
  destruct Hx as [[Hs ->]|[Hs ->]]; [|right; split; [lia|done]]. run.
  destruct IH as [[Hl ->]|[Hl ->]]; run.
  - left. split; [lia|done].
  - right. split; [lia|done].
Qed.

(** [groups[group]] fails on a list that is too short and on a keys
    view. *)
Lemma group_label_raises (gs : groups_obj) (group : nat) (e : exn) :
  group_label gs group = Raise e ↔
  (∃ labels, gs = GList labels ∧ (length labels ≤ group)%nat
             ∧ e = IndexError)
  ∨ (∃ labels, gs = GKeys labels ∧ e = TypeError).
Proof.
  destruct gs as [labels|labels]; simpl.
  - destruct (decide (group < length labels)%nat) as [Hlt|Hge].
    + destruct (lookup_lt_is_Some_2 labels group Hlt) as [g Hg].
      rewrite (py_index_nat labels group g Hg). split; [done|].
      intros [(l & [= <-] & Hlen & _)|(l & [=] & _)]. lia.
    + rewrite py_index_beyond by lia. split.
      * intros [= <-]. left. exists labels. split_and!; [done|lia|done].
      * by intros [(l & _ & _ & ->)|(l & [=] & _)].
  - split.
    + intros [= <-]. right. by exists labels.
    + by intros [(l & [=] & _)|(l & _ & ->)].
Qed.

Lemma walk_item_no_label (gs : groups_obj) (group : nat) (e : exn)
    (node : fsnode) :
  group_label gs group = Raise e →
  lists node = true →
  ∀ name path prefix,
    (count_py node = 0%nat
     ∧ _walk_item gs name path group prefix node = Ok [])
    ∨ ((0 < count_py node)%nat
       ∧ _walk_item gs name path group prefix node = Raise e).
Proof.
  intros Hg.
  induction node as [item|item children IH|item] using fsnode_induction;
    intros Hlists name path prefix; simpl.
  - destruct (Str.endswith item ".py"); [|by left].
    rewrite Hg. right. split; [lia|done].
  - apply (for_each_no_label _ count_py).
    eapply Forall_impl; [exact (Forall_forallb_mp _ _ _ IH Hlists)|].
    intros c Hc. apply Hc.
  - done.
Qed.

(** X2: When [self.groups] gives no label at the group index, because it
    is a list that is too short ([IndexError]) or the keys view of an
    ordered dictionary ([TypeError]), and every directory of the tree
    lists, [_walk] raises that exception as soon as the tree holds a
    Python file, and yields nothing otherwise. *)
Theorem walk_without_group_label (gs : groups_obj) (name path : string)
    (group : nat) (prefix : string) (listing : list fsnode) (e : exn) :
  group_label gs group = Raise e →
  forallb lists listing = true →
  (e = IndexError ∨ e = TypeError)
  ∧ ((sum_list (count_py <$> listing) = 0%nat
      ∧ _walk gs name path group prefix listing = Ok [])
     ∨ ((0 < sum_list (count_py <$> listing))%nat
        ∧ _walk gs name path group prefix listing = Raise e)).
Proof.
  intros Hg Hlists. split.
  { apply group_label_raises in Hg
      as [(l & _ & _ & ->)|(l & _ & ->)]; [by left|by right]. }
  unfold _walk. apply (for_each_no_label _ count_py).
  eapply Forall_impl; [exact (forallb_Forall_true _ _ Hlists)|].
  intros node Hnode. by apply (walk_item_no_label gs group e).
Qed.

Lemma walk_without_group_label_witness :
  (TypeError = IndexError ∨ TypeError = TypeError)
  ∧ ((sum_list (count_py <$> [FDir "docs" [FFile "index.md"]; FFile "core.py"])
      = 0%nat
      ∧ _walk (GKeys ["lib"]) "lib" "/srv/lib" 0 ""
          [FDir "docs" [FFile "index.md"]; FFile "core.py"] = Ok [])
     ∨ ((0 < sum_list
               (count_py <$>
                  [FDir "docs" [FFile "index.md"]; FFile "core.py"]))%nat
        ∧ _walk (GKeys ["lib"]) "lib" "/srv/lib" 0 ""
            [FDir "docs" [FFile "index.md"]; FFile "core.py"]
          = Raise TypeError)).
Proof. apply walk_without_group_label; reflexivity. Defined.

Lemma walk_item_tagged (gs : groups_obj) (name : string) (group : nat)
    (node : fsnode) :
  ∀ path prefix ds,
    _walk_item gs name path group prefix node = Ok ds →
    Forall (tagged_entry gs name group) ds.
Proof.
  induction node as [item|item children IH|item] using fsnode_induction;
    intros path prefix ds; simpl.
  - destruct (Str.endswith item ".py"); [|by intros [= <-]].
    destruct (group_label gs group) as [gname|e] eqn:Hg; [|done]. run.
    intros [= <-]. apply Forall_singleton.
    by exists
      (Str.replace Str.slash Str.dot (Str.splitext (prefix +:+ item)).1),
      (Str.path_join path item), gname.
  - apply for_each_Forall.
    eapply Forall_impl; [apply IH|]. intros c Hc zs. apply Hc.
  - done.
Qed.

(** X3: Every entry [_walk] returns for a package has the four keys [name],
    [path], [group_index] and [group_name]; its name starts with the
    package name and a dot, and it carries the index and the label of the
    group. *)
Theorem walk_tags_entries (gs : groups_obj) (name path : string)
    (group : nat) (prefix : string) (listing : list fsnode)
    (ds : list pydict) :
  _walk gs name path group prefix listing = Ok ds →
  Forall (tagged_entry gs name group) ds.
Proof.
  unfold _walk. apply for_each_Forall.
  apply Forall_forall. intros node _ zs. apply walk_item_tagged.
Qed.

Lemma walk_tags_entries_witness :
  Forall (tagged_entry (GList ["core"; "plugins"]) "ext" 1)
    [module_entry "ext.sub.x" "/srv/ext/sub/x.py" 1 "plugins"].
Proof.
  apply (walk_tags_entries (GList ["core"; "plugins"]) "ext" "/srv/ext" 1 ""
           [FDir "sub" [FFile "x.py"; FFile "README"]]).
  reflexivity.
Defined.

Lemma name_depths_spec (h : heap) (ms : list loc) (depths : list Z) :
  name_depths h ms = Ok depths → Forall2 (depth_of h) ms depths.
Proof.
  revert depths. induction ms as [|m ms IH]; intros depths; simpl.
  { intros [= <-]. constructor. }
  destruct (getitem h m "name") as [v|e] eqn:Hv; [|done]. run.
  destruct v; try done. simpl py_split. run.
  destruct (name_depths h ms) as [more|e]; [|done]. run.
  intros [= <-]. constructor; [by eexists|by apply IH].
Qed.

Lemma foldl_max_spec (x : Z) (r : list Z) :
  foldl Z.max x r ∈ x :: r ∧ Forall (λ z, z ≤ foldl Z.max x r) (x :: r).
Proof.
  revert x. induction r as [|y r IH]; intros x; simpl.
  { split; [by left|]. apply Forall_singleton. lia. }
  destruct (IH (Z.max x y)) as [Hin Hall].
  apply Forall_cons in Hall as [Hxy Hall]. split.
  - apply elem_of_cons in Hin as [Heq|Hin].
    + rewrite Heq. destruct (Z.max_spec x y) as [[_ ->]|[_ ->]].
      * right. by left.
      * by left.
    + right. by right.
  - apply Forall_cons_2; [lia|]. apply Forall_cons_2; [lia|done].
Qed.

Lemma py_max_spec (l : list Z) (md : Z) :
  py_max l = Ok md → md ∈ l ∧ Forall (λ z, z ≤ md) l.
Proof.
  destruct l as [|x r]; [done|]. simpl. intros [= <-].
  apply foldl_max_spec.
Qed.

(** X4: When [build_modules] runs and completes, [max_depth] is the greatest
    number of dot-separated segments among the names of the inventory:
    no module is deeper, and one module is that deep. *)
Theorem build_modules_max_depth (path_resolver : string → option string)
    (listing : string → option (list fsnode))
    (self self' : DependencyMatrix) :
  _modules_are_built self = false →
  build_modules path_resolver listing self = Ok self' →
  (∀ m, m ∈ modules self' →
     ∃ d, depth_of (objects self') m d ∧ d ≤ max_depth self')
  ∧ (∃ m, m ∈ modules self'
          ∧ depth_of (objects self') m (max_depth self')).
Proof.
  intros Hflag. unfold build_modules. rewrite Hflag.
  destruct (walk_groups _ _ _ _ _) as [found|e]; [|done]. run.
  destruct (alloc_all (objects self) found) as [h ls].
  destruct (name_depths h (modules self ++ ls)) as [depths|e] eqn:Hd; [|done].
  run. destruct (py_max depths) as [md|e] eqn:Hmax; [|done]. run.
  intros [= <-]. simpl.
  apply name_depths_spec in Hd. apply py_max_spec in Hmax as [Hin Hall].
  split.
  - intros m Hm.
    apply list_elem_of_lookup in Hm as [i Hi].
    destruct (Forall2_lookup_l _ _ _ _ _ Hd Hi) as (d & Hdi & Hdepth).
    exists d. split; [done|].
    rewrite Forall_forall in Hall. apply Hall.
    apply list_elem_of_lookup. by exists i.
  - apply list_elem_of_lookup in Hin as [i Hi].
    destruct (Forall2_lookup_r _ _ _ _ _ Hd Hi) as (m & Hmi & Hdepth).
    exists m. split; [|done]. apply list_elem_of_lookup. by exists i.
Qed.

Lemma build_modules_max_depth_witness :
  (∀ m, m ∈ modules app_discovered →
     ∃ d, depth_of (objects app_discovered) m d ∧ d ≤ max_depth app_discovered)
  ∧ (∃ m, m ∈ modules app_discovered
          ∧ depth_of (objects app_discovered) m (max_depth app_discovered)).
Proof.
  apply (build_modules_max_depth app_resolver app_listing
           (__init__ (PStr "app")) app_discovered); reflexivity.
Defined.

(** X5: When [build_modules] completes on a new instance, the inventory is
    not empty, its modules are all entries that [_walk] made, and
    [max_depth] is at least 2: every name has the package name and at
    least one more segment. *)
Theorem build_modules_new_instance (path_resolver : string → option string)
    (listing : string → option (list fsnode)) (arg : packages_arg)
    (self : DependencyMatrix) :
  build_modules path_resolver listing (__init__ arg) = Ok self →
  modules self ≠ []
  ∧ 2 ≤ max_depth self
  ∧ modules self = seq 0 (length (objects self))
  ∧ Forall is_module_entry (objects self)
  ∧ _modules_are_built self = true.
Proof.
  intros Hb.
  pose proof (build_modules_inventory _ _ _ _ Hb)
    as ((Hmd & m & rest & n & Hmods & _) & Hflag & _).
  apply build_modules_shape in Hb as (Hshape & Hseq & _).
  split_and!; [by rewrite Hmods|done|done|done|done].
Qed.

Lemma build_modules_new_instance_witness :
  modules app_discovered ≠ []
  ∧ 2 ≤ max_depth app_discovered
  ∧ modules app_discovered = seq 0 (length (objects app_discovered))
  ∧ Forall is_module_entry (objects app_discovered)
  ∧ _modules_are_built app_discovered = true.
Proof.
  apply (build_modules_new_instance app_resolver app_listing (PStr "app")).
  reflexivity.
Defined.

(** A package the resolver does not find changes nothing: the entries of
    a group are those of its resolved packages alone, and the entries of
    a configuration are those of the configuration without its unresolved
    packages, group by group. *)
Lemma walk_packages_resolved_only (path_resolver : string → option string)
    (listing : string → option (list fsnode)) (gs : groups_obj)
    (group : nat) (pkgs : list string) :
  walk_packages path_resolver listing gs group pkgs
  = walk_packages path_resolver listing gs group
      (filter (λ p, resolves path_resolver p) pkgs).
Proof.
  induction pkgs as [|p pkgs IH]; [done|].
  destruct (resolves path_resolver p) eqn:Hr.
  - rewrite filter_cons_True by (by rewrite Hr). simpl.
    unfold resolves in Hr.
    destruct (path_resolver p) as [[|c module_path]|]; [done| |done].
    destruct (listing _); [|done].
    destruct (_walk _ _ _ _ _ _); [|done]. run. by rewrite IH.
  - rewrite filter_cons_False by (rewrite Hr; exact id). simpl.
    unfold resolves in Hr.
    by destruct (path_resolver p) as [[|c module_path]|].
Qed.

(** X6: [build_modules] walks the packages the resolver finds and no
    others: a package for which the resolver answers [None] or the
    empty string adds nothing and raises nothing, as if it were not in
    the list. *)
Theorem walk_groups_resolved_only (path_resolver : string → option string)
    (listing : string → option (list fsnode)) (gs : groups_obj)
    (group : nat) (pgs : list (list string)) :
  walk_groups path_resolver listing gs group pgs
  = walk_groups path_resolver listing gs group
      (filter (λ p, resolves path_resolver p) <$> pgs).
Proof.
  revert group. induction pgs as [|pg pgs IH]; intros group; [done|].
  rewrite fmap_cons. simpl.
  rewrite <- walk_packages_resolved_only. by rewrite IH.
Qed.

(** X7: A stage that has completed does nothing when it is called again: the
    second call returns the instance as the first one left it. *)
Theorem stage_completes_once (path_resolver : string → option string)
    (listing : string → option (list fsnode))
    (extract : string → result (list import_from))
    (self self' : DependencyMatrix) :
  (build_modules path_resolver listing self = Ok self' →
   build_modules path_resolver listing self' = Ok self')
  ∧ (build_imports extract self = Ok self' →
     build_imports extract self' = Ok self')
  ∧ (build_matrices self = Ok self' → build_matrices self' = Ok self').
Proof.
  split_and!.
  - unfold build_modules at 1.
    destruct (_modules_are_built self) eqn:Hflag.
    { intros [= <-]. unfold build_modules. by rewrite Hflag. }
    destruct (walk_groups _ _ _ _ _) as [found|e]; [|done]. run.
    destruct (alloc_all _ _) as [h ls].
    destruct (name_depths _ _) as [depths|e]; [|done]. run.
    destruct (py_max depths) as [md|e]; [|done]. run.
    by intros [= <-].
  - unfold build_imports at 1.
    destruct (negb (_modules_are_built self) || _imports_are_built self)
      eqn:Hflag.
    { intros [= <-]. unfold build_imports. by rewrite Hflag. }
    destruct (scan_modules _ _ _ _ _ _ _ _) as [[[h edges] inside]|e]; [|done].
    run. intros [= <-]. unfold build_imports. simpl.
    by rewrite orb_true_r.
  - unfold build_matrices at 1.
    destruct (negb (_imports_are_built self) || _matrices_are_built self)
      eqn:Hflag.
    { intros [= <-]. unfold build_matrices. by rewrite Hflag. }
    destruct (py_setindex _ _ _) as [ms|e]; [|done]. run.
    destruct (build_up _ _ _) as [[ms' h]|e]; [|done].
    intros [= <-]. unfold build_matrices. simpl.
    by rewrite orb_true_r.
Qed.

Lemma stage_completes_once_witness :
  build_modules app_resolver app_listing app_discovered = Ok app_discovered
  ∧ build_imports app_extract app_resolved = Ok app_resolved
  ∧ build_matrices app_built = Ok app_built.
Proof.
  destruct (stage_completes_once app_resolver app_listing app_extract
              (__init__ (PStr "app")) app_discovered) as (H1 & _ & _).
  destruct (stage_completes_once app_resolver app_listing app_extract
              app_discovered app_resolved) as (_ & H2 & _).
  destruct (stage_completes_once app_resolver app_listing app_extract
              app_built app_built) as (_ & _ & H3).
  split_and!; [apply H1|apply H2|apply H3]; reflexivity.
Defined.

(** *** The default path resolver *)

(** X8: What [resolve_path] returns exists, and is the [__init__.py] of a
    directory or a [.py] file at the place of the module under an entry
    of [sys.path]. *)
Theorem resolve_path_found (sys_path : list string) (isdir : string → bool)
    (path_exists : string → bool) (module p : string) :
  resolve_path sys_path isdir path_exists module = Some p →
  path_exists p = true
  ∧ ∃ path, path ∈ sys_path
      ∧ ((isdir (candidate path module) = true
          ∧ p = candidate path module +:+ "/__init__.py")
         ∨ (isdir (candidate path module) = false
            ∧ p = candidate path module +:+ ".py")).
Proof.
  unfold resolve_path.
  induction sys_path as [|path rest IH]; [done|]. simpl.
  fold (candidate path module).
  destruct (isdir (candidate path module)) eqn:Hdir.
  - destruct (path_exists (candidate path module +:+ "/__init__.py")) eqn:Hex;
      [|done].
    intros [= <-]. split; [done|]. exists path. split; [by left|]. by left.
  - destruct (path_exists (candidate path module +:+ ".py")) eqn:Hex.
    + intros [= <-]. split; [done|]. exists path. split; [by left|]. by right.
    + intros (Hp & path' & Hin & Hcase)%IH. split; [done|].
      exists path'. split; [by right|done].
Qed.

Lemma resolve_path_found_witness :
  lib_exists "/lib/app/__init__.py" = true
  ∧ ∃ path, path ∈ ["/usr"; "/lib"]
      ∧ ((lib_isdir (candidate path "app") = true
          ∧ "/lib/app/__init__.py" = candidate path "app" +:+ "/__init__.py")
         ∨ (lib_isdir (candidate path "app") = false
            ∧ "/lib/app/__init__.py" = candidate path "app" +:+ ".py")).
Proof.
  apply (resolve_path_found ["/usr"; "/lib"] lib_isdir lib_exists "app").
  reflexivity.
Defined.

(** X9: The first entry of [sys.path] that holds a directory or a module file
    at the place of the module decides: a directory with an
    [__init__.py] gives that file, a directory without one gives [None]
    whatever the later entries hold, and a module file gives that file. *)
Theorem resolve_path_first_entry_decides (isdir : string → bool)
    (path_exists : string → bool) (module path : string)
    (before after : list string) :
  (∀ q, q ∈ before →
     isdir (candidate q module) = false
     ∧ path_exists (candidate q module +:+ ".py") = false) →
  isdir (candidate path module) = true
  ∨ path_exists (candidate path module +:+ ".py") = true →
  resolve_path (before ++ path :: after) isdir path_exists module
  = if isdir (candidate path module) then
      if path_exists (candidate path module +:+ "/__init__.py")
      then Some (candidate path module +:+ "/__init__.py")
      else None
    else Some (candidate path module +:+ ".py").
Proof.
  intros Hbefore Hhere. unfold resolve_path.
  induction before as [|q before IH]; simpl.
  - fold (candidate path module).
    destruct (isdir (candidate path module)); [done|].
    destruct Hhere as [?|Hfile]; [done|]. by rewrite Hfile.
  - fold (candidate q module).
    destruct (Hbefore q) as [Hd Hf]; [by left|]. rewrite Hd, Hf.
    apply IH. intros q' Hq'. apply Hbefore. by right.
Qed.

Lemma resolve_path_first_entry_decides_witness :
  resolve_path (["/usr"] ++ "/lib" :: ["/opt"]) lib_isdir opt_exists "app"
  = if lib_isdir (candidate "/lib" "app") then
      if opt_exists (candidate "/lib" "app" +:+ "/__init__.py")
      then Some (candidate "/lib" "app" +:+ "/__init__.py")
      else None
    else Some (candidate "/lib" "app" +:+ ".py").
Proof.
  apply resolve_path_first_entry_decides.
  - intros q Hq. apply list_elem_of_singleton in Hq as ->. by split.
  - by left.
Defined.

(** A package directory without [__init__.py] hides the module file of a
    later entry. *)
Example resolve_path_shadowed :
  resolve_path ["/usr"; "/lib"; "/opt"] lib_isdir opt_exists "app" = None.
Proof. reflexivity. Qed.

(** *** Containment *)

Lemma existsb_elem_of {A} (f : A → bool) (l : list A) :
  existsb f l = true ↔ ∃ x, x ∈ l ∧ f x = true.
Proof.
  rewrite existsb_exists. split; intros (x & Hx & Hf); exists x;
    (split; [by apply list_elem_of_In|done]).
Qed.

Lemma contained_spec (pkgs : list (list string)) (module : string) :
  contained pkgs module = true
  ↔ ∃ package_group package,
      package_group ∈ pkgs ∧ package ∈ package_group
      ∧ (module = package ∨ ∃ rest, module = (package +:+ ".") +:+ rest).
Proof.
  unfold contained. rewrite existsb_elem_of. split.
  - intros (pg & Hpg & (p & Hp & Htest)%existsb_elem_of).
    exists pg, p. split_and!; [done..|].
    apply orb_true_iff in Htest as [Heq|Hpre].
    + left. by apply bool_decide_eq_true in Heq.
    + right. by apply startswith_spec.
  - intros (pg & p & Hpg & Hp & Hcase).
    exists pg. split; [done|]. apply existsb_elem_of.
    exists p. split; [done|]. apply orb_true_iff.
    destruct Hcase as [->|Hpre].
    + left. by apply bool_decide_eq_true.
    + right. by apply startswith_spec.
Qed.

(** X10: On a name the cache does not hold, [contains] answers whether the
    name is a configured package or starts with a configured package and
    a dot, and records that answer under the name, leaving the rest of
    the cache as it is. *)
Theorem contains_on_miss (pkgs : list (list string))
    (inside : gmap string bool) (module : string) :
  inside !! module = None →
  ∃ b, contains pkgs inside module = (b, <[module := b]> inside)
       ∧ (b = true
          ↔ ∃ package_group package,
              package_group ∈ pkgs ∧ package ∈ package_group
              ∧ (module = package
                 ∨ ∃ rest, module = (package +:+ ".") +:+ rest)).
Proof.
  intros Hmiss. exists (contained pkgs module). split.
  - unfold contains. by rewrite Hmiss.
  - apply contained_spec.
Qed.

Lemma contains_on_miss_witness :
  ∃ b, contains [["pkg"]] ∅ "pkg2" = (b, <["pkg2" := b]> ∅)
       ∧ (b = true
          ↔ ∃ package_group package,
              package_group ∈ [["pkg"]] ∧ package ∈ package_group
              ∧ ("pkg2" = package
                 ∨ ∃ rest, "pkg2" = (package +:+ ".") +:+ rest)).
Proof. apply contains_on_miss. reflexivity. Defined.

Example contains_needs_the_dot :
  (contains [["pkg"]] ∅ "pkg2").1 = false
  ∧ (contains [["pkg"]] ∅ "pkg").1 = true
  ∧ (contains [["pkg"]] ∅ "pkg.sub.mod").1 = true.
Proof. done. Qed.

(** X11: Once [contains] has answered for a name, it gives the same answer
    for it from then on and leaves the cache alone, even for an instance
    with other packages: the cached answer is never computed again. *)
Theorem contains_memoized (pkgs pkgs' : list (list string))
    (inside inside' : gmap string bool) (module : string) (b : bool) :
  contains pkgs inside module = (b, inside') →
  contains pkgs' inside' module = (b, inside').
Proof.
  unfold contains. destruct (inside !! module) as [c|] eqn:Hc.
  - intros [= <- <-]. by rewrite Hc.
  - intros [= <- <-]. by rewrite lookup_insert_eq.
Qed.

Lemma contains_memoized_witness :
  contains [] {["app.util" := true]} "app.util"
  = (true, {["app.util" := true]}).
Proof.
  apply (contains_memoized [["app"]] [] ∅ _ "app.util" true). reflexivity.
Defined.

Lemma contains_sound (pkgs : list (list string))
    (inside inside' : gmap string bool) (module : string) (b : bool) :
  cache_sound pkgs inside →
  contains pkgs inside module = (b, inside') →
  b = contained pkgs module ∧ cache_sound pkgs inside' ∧ inside ⊆ inside'.
Proof.
  intros Hsound. unfold contains.
  destruct (inside !! module) as [c|] eqn:Hc.
  - intros [= <- <-]. split_and!; [by apply Hsound|done|done].
  - intros [= <- <-]. split_and!; [done| |by apply insert_subseteq].
    intros m b. rewrite lookup_insert. case_decide as Hm.
    + intros [= <-]. by rewrite Hm.
    + apply Hsound.
Qed.

(** *** Declarations: what [parse_imports] records *)

Lemma sum_from_add_keys (sf : list (string * import_decl))
    (t name : string) (ns : list string) :
  (sum_from_add sf t name ns).*1
  = if decide (t ∈ sf.*1) then sf.*1 else sf.*1 ++ [t].
Proof.
  induction sf as [|[k d] sf IH].
  { by destruct (decide (t ∈ ([] : list (string * import_decl)).*1))
      as [?%elem_of_nil|]. }
  cbn [sum_from_add]. rewrite fmap_cons. cbn [fst].
  case_bool_decide as Hk.
  - subst k. rewrite decide_True by (by left). by rewrite fmap_cons.
  - rewrite fmap_cons, IH. cbn [fst]. destruct (decide (t ∈ sf.*1)).
    + by rewrite decide_True by (by right).
    + rewrite decide_False; [done|].
      apply not_elem_of_cons. split; [congruence|done].
Qed.

Lemma sum_from_add_lookup (sf : list (string * import_decl))
    (t name : string) (ns : list string) (k : string) :
  sum_lookup (sum_from_add sf t name ns) k
  = if decide (k = t) then
      Some match sum_lookup sf t with
           | Some d => {| d_by := d_by d; d_from := d_from d;
                          d_import := d_import d ++ ns |}
           | None => {| d_by := name; d_from := t; d_import := ns |}
           end
    else sum_lookup sf k.
Proof.
  induction sf as [|[k' d] sf IH]; simpl.
  { destruct (decide (t = k)) as [->|Hne].
    - by rewrite decide_True.
    - by rewrite decide_False by congruence. }
  case_bool_decide as Hk'; simpl.
  - subst k'. destruct (decide (t = k)) as [->|Hne].
    + by rewrite !decide_True.
    + by rewrite decide_False by congruence.
  - destruct (decide (k' = k)) as [->|Hne].
    + rewrite decide_False by congruence. done.
    + rewrite IH. destruct (decide (k = t)); [|done].
      by rewrite decide_False by done.
Qed.

Lemma sum_lookup_keys (sf : list (string * import_decl)) (k : string) :
  k ∈ sf.*1 ↔ is_Some (sum_lookup sf k).
Proof.
  induction sf as [|[k' d] sf IH].
  { rewrite fmap_nil, elem_of_nil. split; [done|by intros [? ?]]. }
  rewrite fmap_cons, elem_of_cons. cbn [sum_lookup fst].
  destruct (decide (k' = k)) as [->|Hne].
  - split; [by eexists|by left].
  - rewrite <- IH. split; [intros [?|?]; [congruence|done]|by right].
Qed.

Lemma names_for_snoc (k t : string) (ns : list string)
    (ks : list (string * list string)) :
  names_for k (ks ++ [(t, ns)])
  = names_for k ks ++ (if decide (t = k) then ns else []).
Proof.
  unfold names_for. rewrite filter_app, fmap_app, concat_app. f_equal.
  destruct (decide (t = k)) as [->|Hne].
  - rewrite filter_cons_True by done. simpl. by rewrite app_nil_r.
  - by rewrite filter_cons_False by done.
Qed.


Lemma names_for_absent (k : string) (ks : list (string * list string)) :
  k ∉ ks.*1 → names_for k ks = [].
Proof.
  unfold names_for. induction ks as [|[t ns] ks IH]; [done|].
  rewrite fmap_cons. cbn [fst]. intros [Hne Hk]%not_elem_of_cons.
  rewrite filter_cons_False by (simpl; congruence). by apply IH.
Qed.

Lemma recorded_add (name : string) (ks : list (string * list string))
    (sf : list (string * import_decl)) (t : string) (ns : list string) :
  recorded name ks sf →
  recorded name (ks ++ [(t, ns)]) (sum_from_add sf t name ns).
Proof.
  intros [Hnd Hlook]. split.
  - rewrite sum_from_add_keys. case_decide as Ht; [done|].
    apply NoDup_app. split_and!; [done| |apply NoDup_singleton].
    intros x Hx ->%list_elem_of_singleton. done.
  - intros k. rewrite sum_from_add_lookup, fmap_app, names_for_snoc.
    cbn [fmap list_fmap fst].
    destruct (decide (k = t)) as [->|Hne].
    + rewrite decide_True by (apply elem_of_app; right; by left).
      rewrite decide_True by done. rewrite Hlook.
      case_decide as Ht; [done|]. by rewrite names_for_absent.
    + rewrite Hlook. rewrite (decide_False (P := t = k)) by congruence.
      rewrite app_nil_r. destruct (decide (k ∈ ks.*1)) as [Hk|Hk].
      * by rewrite decide_True by (apply elem_of_app; by left).
      * rewrite decide_False; [done|].
        intros [?|?%list_elem_of_singleton]%elem_of_app; done.
Qed.

Lemma recorded_foldl (name : string) (ks done_ : list (string * list string))
    (sf : list (string * import_decl)) :
  recorded name done_ sf →
  recorded name (done_ ++ ks)
    (foldl (λ sf e, sum_from_add sf e.1 name e.2) sf ks).
Proof.
  revert done_ sf. induction ks as [|[t ns] ks IH]; intros done_ sf Hrec; simpl.
  { by rewrite app_nil_r. }
  replace (done_ ++ (t, ns) :: ks) with ((done_ ++ [(t, ns)]) ++ ks)
    by (by rewrite <- app_assoc).
  apply IH. by apply recorded_add.
Qed.

(** The loop of [parse_imports] with a sound cache: the cache decides
    nothing the packages do not, and the dictionary is that of the kept
    declarations. *)
Lemma parse_nodes_spec (pkgs : list (list string)) (name : string)
    (force : bool) (nodes : list import_from) :
  ∀ (sf : list (string * import_decl)) (inside : gmap string bool),
    cache_sound pkgs inside →
    ∃ inside',
      parse_nodes pkgs name force nodes sf inside
      = (foldl (λ sf e, sum_from_add sf e.1 name e.2) sf
           (kept_of pkgs name force nodes), inside')
      ∧ cache_sound pkgs inside' ∧ inside ⊆ inside'.
Proof.
  unfold kept_of.
  induction nodes as [|node nodes IH]; intros sf inside Hsound.
  { by exists inside. }
  cbn [parse_nodes omap list_omap]. unfold kept at 1.
  destruct (node_module node) as [[|c node_mod]|]; [by apply IH| |by apply IH].
  cbv zeta.
  destruct (contains pkgs inside _) as [b inside1] eqn:Hc.
  destruct (contains_sound _ _ _ _ _ Hsound Hc) as (-> & Hsound1 & Hsub).
  destruct (contained pkgs _ || force) eqn:Hkeep.
  - destruct (IH (sum_from_add sf
                    (resolve_import name (node_level node) (String c node_mod))
                    name (node_names node)) inside1 Hsound1)
      as (inside' & -> & Hs' & Hsub').
    exists inside'. split_and!; [done|done|by etrans].
  - destruct (IH sf inside1 Hsound1) as (inside' & -> & Hs' & Hsub').
    exists inside'. split_and!; [done|done|by etrans].
Qed.

Lemma parse_imports_spec (extract : string → result (list import_from))
    (h : heap) (pkgs : list (list string)) (inside : gmap string bool)
    (module : loc) (force : bool) (path name : string)
    (nodes : list import_from) :
  getitem h module "path" = Ok (VStr path) →
  extract path = Ok nodes →
  getitem h module "name" = Ok (VStr name) →
  cache_sound pkgs inside →
  ∃ sf inside',
    parse_imports extract h pkgs inside module force = Ok (sf, inside')
    ∧ recorded name (kept_of pkgs name force nodes) sf
    ∧ cache_sound pkgs inside' ∧ inside ⊆ inside'.
Proof.
  intros Hpath Hex Hname Hsound. unfold parse_imports.
  rewrite Hpath. run. simpl as_str. run. rewrite Hex. run.
  rewrite Hname. run. simpl as_str. run.
  destruct (parse_nodes_spec pkgs name force nodes [] inside Hsound)
    as (inside' & -> & Hs & Hsub).
  eexists _, inside'. split_and!; [done| |done|done].
  apply (recorded_foldl name _ [] []). split; [apply NoDup_nil_2|done].
Qed.

(** X12: With a sound cache [parse_imports] completes on a module whose file
    the extractor reads, and its ordered dictionary has distinct keys,
    one per target of a kept declaration; the record under a target
    holds the module's name under [by], the target under [from], and
    under [import] the names of all kept declarations of that target,
    in order. *)
Theorem parse_imports_records (extract : string → result (list import_from))
    (h : heap) (pkgs : list (list string)) (inside : gmap string bool)
    (module : loc) (force : bool) (path name : string)
    (nodes : list import_from) :
  getitem h module "path" = Ok (VStr path) →
  extract path = Ok nodes →
  getitem h module "name" = Ok (VStr name) →
  cache_sound pkgs inside →
  ∃ sf inside',
    parse_imports extract h pkgs inside module force = Ok (sf, inside')
    ∧ NoDup sf.*1
    ∧ ∀ k, sum_lookup sf k
           = if decide (k ∈ (kept_of pkgs name force nodes).*1)
             then Some {| d_by := name; d_from := k;
                          d_import :=
                            names_for k (kept_of pkgs name force nodes) |}
             else None.
Proof.
  intros Hpath Hex Hname Hsound.
  destruct (parse_imports_spec extract h pkgs inside module force path name
              nodes Hpath Hex Hname Hsound) as (sf & inside' & Hp & Hrec & _).
  exists sf, inside'. split; [done|]. apply Hrec.
Qed.

Lemma parse_imports_records_witness :
  ∃ sf inside',
    parse_imports abc_extract abc_store [["a"]] ∅ 0%nat false
    = Ok (sf, inside')
    ∧ NoDup sf.*1
    ∧ ∀ k, sum_lookup sf k
           = if decide (k ∈ (kept_of [["a"]] "a.b.c" false abc_nodes).*1)
             then Some {| d_by := "a.b.c"; d_from := k;
                          d_import :=
                            names_for k
                              (kept_of [["a"]] "a.b.c" false abc_nodes) |}
             else None.
Proof.
  apply (parse_imports_records abc_extract abc_store [["a"]] ∅ 0%nat false
           "/srv/a/b/c.py" "a.b.c" abc_nodes); try reflexivity.
  intros m b. by rewrite lookup_empty.
Defined.

Example parse_imports_merges :
  parse_imports abc_extract abc_store [["a"]] ∅ 0%nat false
  = Ok ([("a.b.d",
          {| d_by := "a.b.c"; d_from := "a.b.d";
             d_import := ["x"; "y"; "z"] |})],
        {[ "a.b.d" := true; "os.path" := false ]}).
Proof. by vm_compute. Qed.

Lemma kept_of_elem (pkgs : list (list string)) (name : string) (force : bool)
    (nodes : list import_from) (k : string) :
  k ∈ (kept_of pkgs name force nodes).*1 →
  ∃ node node_mod,
    node ∈ nodes ∧ node_module node = Some node_mod
    ∧ node_mod ≠ EmptyString
    ∧ k = resolve_import name (node_level node) node_mod
    ∧ contained pkgs k || force = true.
Proof.
  intros ([k' ns] & -> & Hin)%list_elem_of_fmap.
  apply list_elem_of_omap in Hin as (node & Hnode & Hkept).
  unfold kept in Hkept.
  destruct (node_module node) as [[|c node_mod]|] eqn:Hm; [done| |done].
  cbv zeta in Hkept.
  destruct (contained pkgs _ || force) eqn:Hc; [|done].
  injection Hkept as <- <-. exists node, (String c node_mod).
  split_and!; done.
Qed.

(** X13: Without [force], every key of the dictionary [parse_imports] returns
    is the resolved name of a declaration of the file that names a
    module, and is a configured package or below one. *)
Theorem parse_imports_keeps_contained
    (extract : string → result (list import_from))
    (h : heap) (pkgs : list (list string)) (inside : gmap string bool)
    (module : loc) (path name : string) (nodes : list import_from)
    (sf : list (string * import_decl)) (inside' : gmap string bool) :
  getitem h module "path" = Ok (VStr path) →
  extract path = Ok nodes →
  getitem h module "name" = Ok (VStr name) →
  cache_sound pkgs inside →
  parse_imports extract h pkgs inside module false = Ok (sf, inside') →
  ∀ k, k ∈ sf.*1 →
    contained pkgs k = true
    ∧ ∃ node node_mod,
        node ∈ nodes ∧ node_module node = Some node_mod
        ∧ k = resolve_import name (node_level node) node_mod.
Proof.
  intros Hpath Hex Hname Hsound Hparse k Hk.
  destruct (parse_imports_spec extract h pkgs inside module false path name
              nodes Hpath Hex Hname Hsound)
    as (sf0 & inside0 & Hp & [_ Hlook] & _).
  rewrite Hp in Hparse. injection Hparse as -> ->.
  apply sum_lookup_keys in Hk. rewrite Hlook in Hk.
  case_decide as Hin; [|by destruct Hk].
  apply kept_of_elem in Hin
    as (node & node_mod & Hnode & Hm & _ & -> & Hc).
  rewrite orb_false_r in Hc. split; [done|]. by exists node, node_mod.
Qed.

Lemma parse_imports_keeps_contained_witness :
  contained [["a"]] "a.b.d" = true
  ∧ ∃ node node_mod,
      node ∈ abc_nodes ∧ node_module node = Some node_mod
      ∧ "a.b.d" = resolve_import "a.b.c" (node_level node) node_mod.
Proof.
  apply (parse_imports_keeps_contained abc_extract abc_store [["a"]] ∅ 0%nat
           "/srv/a/b/c.py" "a.b.c" abc_nodes
           [("a.b.d",
             {| d_by := "a.b.c"; d_from := "a.b.d";
                d_import := ["x"; "y"; "z"] |})]
           {[ "a.b.d" := true; "os.path" := false ]}).
  - reflexivity.
  - reflexivity.
  - reflexivity.
  - intros m b. by rewrite lookup_empty.
  - reflexivity.
  - by left.
Defined.

(** *** The index of a module *)

Lemma index_where_range (h : heap) (test : pyval → result bool)
    (ms : list loc) (idx i : Z) :
  index_where h test ms idx = Ok (Some i) →
  idx ≤ i < idx + Z.of_nat (length ms).
Proof.
  revert idx. induction ms as [|m ms IH]; intros idx; simpl; [done|].
  destruct (getitem h m "name") as [name|e]; [|done]. run.
  destruct (test name) as [[]|e]; [| |done]; run.
  - intros [= <-]. lia.
  - intros Hi%IH. lia.
Qed.

Lemma module_index_range (h : heap) (ms : list loc) (target : string)
    (i : Z) :
  module_index h ms target = Ok (Some i) → 0 ≤ i < Z.of_nat (length ms).
Proof.
  unfold module_index.
  destruct (index_where h (λ name, Ok (bool_decide (VStr target = name)))
              ms 0) as [[i1|]|e] eqn:H1; run; [| |done].
  { intros [= <-]. apply index_where_range in H1. lia. }
  destruct (index_where h
              (λ name, Ok (bool_decide (name = VStr (target +:+ ".__init__"))))
              ms 0) as [[i2|]|e] eqn:H2; run; [| |done].
  { intros [= <-]. apply index_where_range in H2. lia. }
  intros H3%index_where_range. lia.
Qed.

(** X14: An index [module_index] returns is a position of the inventory. *)
Theorem module_index_in_range (h : heap) (ms : list loc) (target : string)
    (i : Z) :
  module_index h ms target = Ok (Some i) → 0 ≤ i < Z.of_nat (length ms).
Proof. apply module_index_range. Qed.

Lemma module_index_in_range_witness : 0 ≤ 1 < Z.of_nat (length [0; 1]%nat).
Proof.
  apply (module_index_in_range namespace_store [0; 1]%nat "app.core.x.helper").
  reflexivity.
Defined.

(** X15: In an inventory of distinct names, the index of a module's own name
    is the position of the module. *)
Theorem module_index_own_name (h : heap) (ms : list loc)
    (names : list string) (i : nat) (n : string) :
  module_names h ms names → NoDup names → names !! i = Some n →
  module_index h ms n = Ok (Some (Z.of_nat i)).
Proof.
  intros Hnames Hnd Hi. unfold module_index.
  destruct (index_where_spec h
              (λ name, Ok (bool_decide (VStr n = name)))
              (exact n) ms names 0 Hnames) as (r1 & -> & H1).
  { intros n'. eexists. split; [done|].
    rewrite bool_decide_eq_true. unfold exact.
    split; [by intros [= ->]|by intros ->]. }
  run. destruct r1 as [i1|].
  - rewrite Z.sub_0_r in H1. destruct H1 as (Hpos & (n' & Hn' & ->) & _).
    pose proof (NoDup_lookup _ _ _ _ Hnd Hn' Hi) as Heq.
    do 2 f_equal. lia.
  - unfold no_match in H1. rewrite Forall_forall in H1.
    exfalso. apply (H1 n); [|done].
    apply list_elem_of_lookup. by exists i.
Qed.

Lemma module_index_own_name_witness :
  module_index (objects app_resolved) [0; 1; 2]%nat "app.util"
  = Ok (Some (Z.of_nat 2)).
Proof.
  apply (module_index_own_name _ _ ["app.__init__"; "app.core"; "app.util"]).
  - repeat constructor.
  - apply (bool_decide_unpack _). by vm_compute.
  - reflexivity.
Defined.

(** *** The edges [build_imports] makes *)

Lemma parse_imports_cache (extract : string → result (list import_from))
    (h : heap) (pkgs : list (list string)) (inside inside' : gmap string bool)
    (module : loc) (force : bool) (sf : list (string * import_decl)) :
  cache_sound pkgs inside →
  parse_imports extract h pkgs inside module force = Ok (sf, inside') →
  cache_sound pkgs inside' ∧ inside ⊆ inside'.
Proof.
  intros Hsound. unfold parse_imports.
  destruct (getitem h module "path") as [path|e]; [|done]. run.
  destruct (as_str path) as [path'|e]; [|done]. run.
  destruct (extract path') as [nodes|e]; [|done]. run.
  destruct (getitem h module "name") as [name|e]; [|done]. run.
  destruct (as_str name) as [name'|e]; [|done]. run.
  destruct (parse_nodes_spec pkgs name' force nodes [] inside Hsound)
    as (inside0 & -> & Hs & Hsub).
  by intros [= _ <-].
Qed.

Lemma scan_modules_cache (extract : string → result (list import_from))
    (pkgs : list (list string)) (ms todo : list loc) :
  ∀ (source_index : Z) (h h' : heap) (edges edges' : list loc)
    (inside inside' : gmap string bool),
    cache_sound pkgs inside →
    scan_modules extract pkgs ms todo source_index h edges inside
    = Ok (h', edges', inside') →
    cache_sound pkgs inside' ∧ inside ⊆ inside'.
Proof.
  induction todo as [|module rest IH];
    intros source_index h h' edges edges' inside inside' Hsound; simpl.
  { by intros [= _ _ <-]. }
  destruct (parse_imports extract h pkgs inside module false)
    as [[imports_dicts inside1]|e] eqn:Hp; [|done]. run.
  apply parse_imports_cache in Hp as [Hs1 Hsub1]; [|done].
  destruct (add_edges _ _ _ _ _ _) as [[h1 edges1]|e]; [|done]. run.
  intros [Hs Hsub]%IH; [|done]. split; [done|by etrans].
Qed.

(** X16: [build_imports] keeps the containment cache sound: if every cached
    answer is right for the configured packages before the call, so is
    every cached answer after it, and no answer is dropped or changed. A
    new instance has an empty cache, so its cache is always sound. *)
Theorem build_imports_cache_sound
    (extract : string → result (list import_from))
    (self self' : DependencyMatrix) :
  cache_sound (packages self) (_inside self) →
  build_imports extract self = Ok self' →
  cache_sound (packages self') (_inside self')
  ∧ _inside self ⊆ _inside self'.
Proof.
  intros Hsound. unfold build_imports.
  destruct (negb (_modules_are_built self) || _imports_are_built self).
  { by intros [= <-]. }
  destruct (scan_modules _ _ _ _ _ _ _ _) as [[[h edges] inside]|e] eqn:Hscan;
    [|done]. run.
  intros [= <-]. simpl. by eapply scan_modules_cache.
Qed.

Lemma build_imports_cache_sound_witness :
  cache_sound (packages app_resolved) (_inside app_resolved)
  ∧ _inside app_discovered ⊆ _inside app_resolved.
Proof.
  apply (build_imports_cache_sound app_extract app_discovered app_resolved).
  - intros m b. simpl. by rewrite lookup_empty.
  - reflexivity.
Defined.

Lemma py_index_nonneg {A} (l : list A) (i : Z) (x : A) :
  0 ≤ i → py_index l i = Ok x → l !! Z.to_nat i = Some x.
Proof.
  intros Hi. unfold py_index.
  rewrite (bool_decide_eq_false_2 (i < 0)) by lia.
  case_bool_decide; [|done].
  destruct (l !! Z.to_nat i); [|done]. by intros [= <-].
Qed.

Lemma sound_edge_extends (h more : heap) (ms : list loc) (d : pydict) :
  sound_edge h ms d → sound_edge (h ++ more) ms d.
Proof.
  intros (si & ti & s & t & sn & tn & decl & -> & ? & ? & ? & ? & Hs & Ht).
  exists si, ti, s, t, sn, tn, decl.
  split_and!; [done..|by apply getitem_extends|by apply getitem_extends].
Qed.

Lemma add_edges_sound (ms : list loc) (source : loc) (source_index : Z)
    (imports_dicts : list (string * import_decl)) :
  0 ≤ source_index → ms !! Z.to_nat source_index = Some source →
  ∀ (h h' : heap) (edges edges' : list loc),
    add_edges ms source source_index imports_dicts h edges = Ok (h', edges') →
    ∃ more, h' = h ++ more
            ∧ edges' = edges ++ seq (length h) (length more)
            ∧ Forall (sound_edge h' ms) more.
Proof.
  intros Hpos Hsource.
  induction imports_dicts as [|[key decl] rest IH];
    intros h h' edges edges'; simpl.
  { intros [= <- <-]. exists []. by rewrite !app_nil_r. }
  destruct (module_index h ms key) as [target_index|e] eqn:Hidx; [|done]. run.
  destruct (getitem h source "name") as [source_name|e] eqn:Hsn; [|done]. run.
  destruct target_index as [target_index|]; [|done].
  destruct (py_index ms target_index) as [target|e] eqn:Ht; [|done]. run.
  destruct (getitem h target "name") as [target_name|e] eqn:Htn; [|done]. run.
  intros (more & -> & -> & Hmore)%IH.
  eexists (_ :: more). split_and!.
  - by rewrite <- app_assoc.
  - rewrite <- app_assoc. f_equal. rewrite length_app. simpl.
    by rewrite Nat.add_1_r.
  - apply Forall_cons_2; [|done].
    apply module_index_range in Hidx.
    rewrite <- app_assoc. apply sound_edge_extends.
    exists source_index, target_index, source, target, source_name,
      target_name, decl.
    split_and!; [done|done|done|lia|by apply py_index_nonneg; [lia|]|done|done].
Qed.

Lemma scan_modules_sound (extract : string → result (list import_from))
    (pkgs : list (list string)) (done_ todo : list loc) :
  ∀ (h h' : heap) (edges edges' : list loc)
    (inside inside' : gmap string bool),
    scan_modules extract pkgs (done_ ++ todo) todo (Z.of_nat (length done_))
      h edges inside
    = Ok (h', edges', inside') →
    ∃ more, h' = h ++ more
            ∧ edges' = edges ++ seq (length h) (length more)
            ∧ Forall (sound_edge h' (done_ ++ todo)) more.
Proof.
  revert done_. induction todo as [|module rest IH];
    intros done_ h h' edges edges' inside inside'; simpl.
  { intros [= <- <- _]. exists []. by rewrite !app_nil_r. }
  destruct (parse_imports extract h pkgs inside module false)
    as [[imports_dicts inside1]|e]; [|done]. run.
  destruct (add_edges _ _ _ _ _ _) as [[h1 edges1]|e] eqn:Hadd; [|done]. run.
  apply add_edges_sound in Hadd as (more1 & -> & -> & Hmore1);
    [|lia|by rewrite Nat2Z.id, list_lookup_middle].
  replace (done_ ++ module :: rest) with ((done_ ++ [module]) ++ rest)
    by (by rewrite <- app_assoc).
  replace (Z.of_nat (length done_) + 1)
    with (Z.of_nat (length (done_ ++ [module])))
    by (rewrite length_app; simpl; lia).
  intros (more & -> & -> & Hmore)%IH.
  exists (more1 ++ more). split_and!.
  - by rewrite <- app_assoc.
  - rewrite <- !app_assoc. f_equal. rewrite !length_app.
    by rewrite seq_app.
  - apply Forall_app. split; [|done].
    eapply Forall_impl; [exact Hmore1|]. intros d Hd.
    replace ((done_ ++ [module]) ++ rest) with (done_ ++ module :: rest)
      by (by rewrite <- app_assoc).
    by apply sound_edge_extends.
Qed.

(** X17: Every edge [build_imports] makes joins two modules of the inventory:
    its source and target indices are positions in [self.modules], its
    source and target names are the names of the modules there, its
    [imports] list holds the one declaration record of the pair, and its
    cardinal is the number of names of that record. *)
Theorem build_imports_edges (extract : string → result (list import_from))
    (self self' : DependencyMatrix) :
  _modules_are_built self = true → _imports_are_built self = false →
  build_imports extract self = Ok self' →
  ∃ new, imports self' = imports self ++ new
         ∧ ∀ l, l ∈ new →
             ∃ d, objects self' !! l = Some d
                  ∧ sound_edge (objects self') (modules self') d.
Proof.
  intros Hm Hi. unfold build_imports.
  rewrite Hm, Hi. simpl negb. simpl orb. cbv iota.
  destruct (scan_modules _ _ _ _ _ _ _ _) as [[[h edges] inside]|e] eqn:Hscan;
    [|done]. run.
  intros [= <-]. simpl.
  apply (scan_modules_sound extract (packages self) [] (modules self))
    in Hscan as (more & -> & -> & Hmore).
  exists (seq (length (objects self)) (length more)). split; [done|].
  intros l Hl%elem_of_seq.
  destruct (lookup_lt_is_Some_2 more (l - length (objects self))) as [d Hd];
    [lia|].
  exists d. split.
  - rewrite lookup_app_r by lia. done.
  - rewrite Forall_lookup in Hmore. by eapply Hmore.
Qed.

Lemma build_imports_edges_witness :
  ∃ new, imports app_resolved = imports app_discovered ++ new
         ∧ ∀ l, l ∈ new →
             ∃ d, objects app_resolved !! l = Some d
                  ∧ sound_edge (objects app_resolved) (modules app_resolved) d.
Proof.
  apply (build_imports_edges app_extract app_discovered app_resolved);
    reflexivity.
Defined.

(** *** The edge loop, and what [build_matrices] stores *)

(** X18: The second loop of [_build_up_matrix], for any index remapping: when
    it completes, the merged edges carry the total of the cardinals of
    the edges it was given. *)
Theorem edge_loop_keeps_total (modules_indexes : gmap Z (Z * pyval))
    (todo : list loc) (h h' : heap) (up' : list loc) :
  Forall (λ i, (i < length h)%nat) todo →
  fold_imports modules_indexes todo h [] ∅ = Ok (h', up') →
  total_cardinal h' up' = total_cardinal h todo.
Proof. apply fold_imports_conserves. Qed.

Lemma edge_loop_keeps_total_witness :
  total_cardinal
    (objects app_resolved
     ++ [up_import_entry (VInt 1) (VDecls [helper_decl])
           (VList ["app"]) 0 (VList ["app"]) 0]) [4%nat]
  = total_cardinal (objects app_resolved) (imports app_resolved).
Proof.
  apply (edge_loop_keeps_total app_remapping).
  - repeat constructor.
  - reflexivity.
Defined.

(** X19: [build_matrices] completes only when there is nothing to fold:
    [max_depth] is 1, or the inventory and the edge list are both
    empty. *)
Theorem build_matrices_completes_when (self self' : DependencyMatrix) :
  _imports_are_built self = true → _matrices_are_built self = false →
  build_matrices self = Ok self' →
  max_depth self = 1
  ∨ (2 ≤ max_depth self ∧ modules self = [] ∧ imports self = []).
Proof. apply build_matrices_completes. Qed.

Lemma build_matrices_completes_when_witness :
  max_depth app_flat = 1
  ∨ (2 ≤ max_depth app_flat ∧ modules app_flat = []
     ∧ imports app_flat = []).
Proof.
  apply (build_matrices_completes_when app_flat
           {| packages := [["app"]]; groups := GList [""];
              modules := [0; 1; 2]%nat; imports := [3%nat];
              max_depth := 1; matrices := [Some app_finest];
              _inside := {["app.util" := true]};
              _modules_are_built := true; _imports_are_built := true;
              _matrices_are_built := true;
              objects := objects app_resolved |}); reflexivity.
Defined.

Lemma build_up_keeps_above (k : nat) :
  ∀ (ms : list (option matrix)) (h : heap) (ms' : list (option matrix))
    (h' : heap) (j : nat),
    build_up k ms h = Ok (ms', h') → (k ≤ j)%nat → ms' !! j = ms !! j.
Proof.
  induction k as [|k IH]; intros ms h ms' h' j; simpl.
  { by intros [= <- <-]. }
  destruct (_build_up_matrix ms h (S k)) as [[up h1]|e]; [|done]. run.
  destruct (py_setindex ms (Z.of_nat (S k) - 1) (Some up)) as [ms1|e] eqn:Hset;
    [|done]. run.
  pose proof (py_setindex_Ok _ _ _ _ Hset) as Hrange.
  destruct (decide (Z.of_nat (S k) - 1 < Z.of_nat (length ms))) as [Hin|Hout];
    [|lia].
  rewrite py_setindex_in_range in Hset by lia. injection Hset as <-.
  intros Hbuild Hj. rewrite (IH _ _ _ _ j Hbuild) by lia.
  apply list_lookup_insert_ne. lia.
Qed.

Lemma build_matrices_finest (self self' : DependencyMatrix) :
  _imports_are_built self = true → _matrices_are_built self = false →
  build_matrices self = Ok self' →
  built self'
  ∧ max_depth self' = max_depth self
  ∧ matrix_at self' (max_depth self')
    = Some {| m_modules := modules self; m_imports := imports self |}.
Proof.
  intros Hi Hm Hbuild.
  split; [by eapply build_matrices_built|].
  revert Hbuild. unfold build_matrices.
  rewrite Hi, Hm. simpl negb. simpl orb. cbv iota.
  set (finest := {| m_modules := modules self; m_imports := imports self |}).
  destruct (py_setindex _ _ _) as [ms|e] eqn:Hset; [|done]. run.
  pose proof (py_setindex_Ok _ _ _ _ Hset) as Hrange.
  rewrite length_replicate in Hrange.
  rewrite py_setindex_in_range in Hset by (rewrite length_replicate; lia).
  injection Hset as <-.
  destruct (build_up _ _ _) as [[ms' h']|e] eqn:Hup; [|done].
  intros [= <-]. simpl. split; [done|].
  unfold matrix_at. simpl.
  rewrite (build_up_keeps_above _ _ _ _ _ _ Hup) by lia.
  rewrite list_lookup_insert_eq by (rewrite length_replicate; lia). done.
Qed.

(** X20: When [build_matrices] runs and completes, the instance holds one
    matrix per depth from 1 to [max_depth], and the matrix at
    [max_depth] is the pair of [self.modules] and [self.imports]
    themselves. *)
Theorem build_matrices_stores_finest (self self' : DependencyMatrix) :
  _imports_are_built self = true → _matrices_are_built self = false →
  build_matrices self = Ok self' →
  built self'
  ∧ max_depth self' = max_depth self
  ∧ matrix_at self' (max_depth self')
    = Some {| m_modules := modules self; m_imports := imports self |}.
Proof. apply build_matrices_finest. Qed.

Lemma build_matrices_stores_finest_witness :
  ∃ self', build_matrices app_flat = Ok self'
    ∧ built self'
    ∧ max_depth self' = max_depth app_flat
    ∧ matrix_at self' (max_depth self')
      = Some {| m_modules := modules app_flat; m_imports := imports app_flat |}.
Proof.
  eexists. split; [reflexivity|].
  apply (build_matrices_stores_finest app_flat); reflexivity.
Defined.

(** *** Projection: what [_option_filter] leaves alone *)

Lemma trimmed_refl (keys : list string) (h : heap) : trimmed keys h h.
Proof. split; [done|]. intros l d Hd. by exists d. Qed.

Lemma trimmed_trans (keys : list string) (h1 h2 h3 : heap) :
  trimmed keys h1 h2 → trimmed keys h2 h3 → trimmed keys h1 h3.
Proof.
  intros [Hlen12 H12] [Hlen23 H23]. split; [congruence|].
  intros l d3 Hd3.
  destruct (H23 l d3 Hd3) as (d2 & Hd2 & Hsub23 & Hk23).
  destruct (H12 l d2 Hd2) as (d1 & Hd1 & Hsub12 & Hk12).
  exists d1. split_and!; [done|by etrans|].
  intros k Hk. by rewrite Hk23, Hk12.
Qed.

Lemma del_each_trimmed (keys : list string) (k : string)
    (items : list loc) :
  k ∈ keys →
  ∀ h h', del_each k items h = Ok h' →
    trimmed keys h h' ∧ ∀ l, l ∉ items → h' !! l = h !! l.
Proof.
  intros Hk. induction items as [|i items IH]; intros h h'; simpl.
  { intros [= <-]. split; [apply trimmed_refl|done]. }
  unfold delitem at 1.
  destruct (h !! i) as [d|] eqn:Hi; [|done].
  destruct (d !! k) as [v|]; [|done]. run.
  intros [Htrim Hframe]%IH.
  assert (i < length h)%nat as Hlt by (by eapply lookup_lt_Some).
  split.
  - eapply trimmed_trans; [|exact Htrim].
    split; [by rewrite length_insert|].
    intros l d'. destruct (decide (l = i)) as [->|Hne].
    + rewrite list_lookup_insert_eq by done. intros [= <-].
      exists d. split_and!; [done|apply delete_subseteq|].
      intros k' Hk'. apply lookup_delete_ne. by intros ->.
    + rewrite list_lookup_insert_ne by done. intros Hl. by exists d'.
  - intros l [Hne Hl]%not_elem_of_cons.
    rewrite Hframe by done. by apply list_lookup_insert_ne.
Qed.

Lemma del_unless_trimmed (keys : list string) (keep : bool) (k : string)
    (items : list loc) (h h' : heap) :
  k ∈ keys → del_unless keep k items h = Ok h' →
  trimmed keys h h' ∧ ∀ l, l ∉ items → h' !! l = h !! l.
Proof.
  intros Hk. unfold del_unless. destruct keep.
  - intros [= <-]. split; [apply trimmed_refl|done].
  - by apply del_each_trimmed.
Qed.

Ltac in_options :=
  unfold module_options, edge_options; cbn [app];
  repeat (first [by left | right]).

(** X21: Whatever the options, when [_option_filter] completes it returns the
    matrix it was given; the store keeps its size; a dictionary that is
    not an entry of the matrix is untouched; and an entry only loses
    keys among the eight options: no value is added or changed, and
    every other key, [name] and [path] among them, keeps its value. *)
Theorem option_filter_frame (mat mat' : matrix) (o : options) (h h' : heap) :
  _option_filter mat o h = Ok (mat', h') →
  mat' = mat
  ∧ trimmed (module_options ++ edge_options) h h'
  ∧ ∀ l, l ∉ m_modules mat → l ∉ m_imports mat → h' !! l = h !! l.
Proof.
  unfold _option_filter.
  destruct (del_unless (o_group_name o) _ _ h) as [h1|e] eqn:H1; [|done]. run.
  destruct (del_unless (o_group_index o) _ _ h1) as [h2|e] eqn:H2; [|done]. run.
  destruct (del_unless (o_source_name o) _ _ h2) as [h3|e] eqn:H3; [|done]. run.
  destruct (del_unless (o_source_index o) _ _ h3) as [h4|e] eqn:H4; [|done]. run.
  destruct (del_unless (o_target_name o) _ _ h4) as [h5|e] eqn:H5; [|done]. run.
  destruct (del_unless (o_target_index o) _ _ h5) as [h6|e] eqn:H6; [|done]. run.
  destruct (del_unless (o_imports o) _ _ h6) as [h7|e] eqn:H7; [|done]. run.
  destruct (del_unless (o_cardinal o) _ _ h7) as [h8|e] eqn:H8; [|done]. run.
  intros [= <- <-].
  apply (del_unless_trimmed (module_options ++ edge_options)) in H1 as [T1 F1];
    [|in_options].
  apply (del_unless_trimmed (module_options ++ edge_options)) in H2 as [T2 F2];
    [|in_options].
  apply (del_unless_trimmed (module_options ++ edge_options)) in H3 as [T3 F3];
    [|in_options].
  apply (del_unless_trimmed (module_options ++ edge_options)) in H4 as [T4 F4];
    [|in_options].
  apply (del_unless_trimmed (module_options ++ edge_options)) in H5 as [T5 F5];
    [|in_options].
  apply (del_unless_trimmed (module_options ++ edge_options)) in H6 as [T6 F6];
    [|in_options].
  apply (del_unless_trimmed (module_options ++ edge_options)) in H7 as [T7 F7];
    [|in_options].
  apply (del_unless_trimmed (module_options ++ edge_options)) in H8 as [T8 F8];
    [|in_options].
  split_and!; [done| |].
  - repeat (eapply trimmed_trans; [eassumption|]). apply trimmed_refl.
  - intros l Hm He.
    by rewrite F8, F7, F6, F5, F4, F3, F2, F1.
Qed.

Lemma option_filter_frame_witness :
  ∃ h', _option_filter app_finest NO_GROUP_NAME (objects app_built)
        = Ok (app_finest, h')
    ∧ app_finest = app_finest
    ∧ trimmed (module_options ++ edge_options) (objects app_built) h'
    ∧ ∀ l, l ∉ m_modules app_finest → l ∉ m_imports app_finest →
        h' !! l = objects app_built !! l.
Proof.
  eexists. split; [reflexivity|].
  apply (option_filter_frame app_finest app_finest NO_GROUP_NAME).
  reflexivity.
Defined.

(** X22: With the default options [matrix_to_json] deletes nothing: it
    returns the document [get_matrix] reads and the instance as it was,
    and it raises what [get_matrix] raises. *)
Theorem matrix_to_json_default (self : DependencyMatrix) (depth : Z) :
  matrix_to_json self depth DEFAULT_OPTIONS
  = (doc ← read_matrix self depth; Ok (doc, self)).
Proof.
  unfold matrix_to_json, read_matrix.
  destruct (get_matrix self depth) as [mat|e]; [|done]. run.
  by destruct self.
Qed.

(** *** The errors of [build_modules] *)

Lemma for_each_raises {A B} (f : A → result (list B)) (l : list A)
    (e : exn) :
  for_each f l = Raise e → ∃ x, x ∈ l ∧ f x = Raise e.
Proof.
  induction l as [|x l IH]; [done|]. rewrite for_each_cons.
  destruct (f x) as [a|e'] eqn:Hx.
  - run. destruct (for_each f l) as [b|e'']; [done|]. run.
    intros [= <-]. destruct IH as (y & Hy & Hfy); [done|].
    exists y. split; [by right|done].
  - run. intros [= <-]. exists x. split; [by left|done].
Qed.

Lemma walk_item_raises (gs : groups_obj) (name : string) (group : nat)
    (e : exn) (node : fsnode) :
  ∀ path prefix,
    _walk_item gs name path group prefix node = Raise e →
    e = OSError ∨ group_label gs group = Raise e.
Proof.
  induction node as [item|item children IH|item] using fsnode_induction;
    intros path prefix; simpl.
  - destruct (Str.endswith item ".py"); [|done].
    destruct (group_label gs group) as [gname|e'] eqn:Hg; [done|]. run.
    intros [= <-]. by right.
  - intros (c & Hc & Hraise)%for_each_raises.
    rewrite Forall_forall in IH. by eapply IH.
  - intros [= <-]. by left.
Qed.

Lemma walk_raises (gs : groups_obj) (name path : string) (group : nat)
    (prefix : string) (listing : list fsnode) (e : exn) :
  _walk gs name path group prefix listing = Raise e →
  e = OSError ∨ group_label gs group = Raise e.
Proof.
  unfold _walk. intros (node & _ & Hraise)%for_each_raises.
  by eapply walk_item_raises.
Qed.

Lemma walk_packages_raises (path_resolver : string → option string)
    (listing : string → option (list fsnode)) (gs : groups_obj)
    (group : nat) (pkgs : list string) (e : exn) :
  walk_packages path_resolver listing gs group pkgs = Raise e →
  e = OSError ∨ group_label gs group = Raise e.
Proof.
  induction pkgs as [|p pkgs IH]; simpl; [done|].
  destruct (path_resolver p) as [[|c module_path]|]; [done| |done].
  destruct (listing _) as [entries_|]; [|intros [= <-]; by left].
  destruct (_walk _ _ _ _ _ _) as [found|e'] eqn:Hw.
  - run. destruct (walk_packages _ _ _ _ _) as [more|e'']; [done|]. run.
    intros [= <-]. by apply IH.
  - run. intros [= <-]. by eapply walk_raises.
Qed.

Lemma walk_groups_raises (path_resolver : string → option string)
    (listing : string → option (list fsnode)) (gs : groups_obj)
    (pgs : list (list string)) :
  ∀ (group : nat) (e : exn),
    walk_groups path_resolver listing gs group pgs = Raise e →
    e = OSError
    ∨ ∃ g, (group ≤ g < group + length pgs)%nat
           ∧ group_label gs g = Raise e.
Proof.
  induction pgs as [|pg pgs IH]; intros group e; simpl; [done|].
  destruct (walk_packages _ _ _ _ _) as [found|e'] eqn:Hw.
  - run. destruct (walk_groups _ _ _ _ _) as [more|e''] eqn:Hg; [done|]. run.
    intros [= <-]. destruct (IH _ _ Hg) as [->|(g & Hrange & Hlabel)];
      [by left|].
    right. exists g. split; [lia|done].
  - run. intros [= <-].
    destruct (walk_packages_raises _ _ _ _ _ _ Hw) as [->|Hlabel];
      [by left|].
    right. exists group. split; [lia|done].
Qed.




(** *** When [build_imports] raises *)

Lemma first_match_no_match (P : string → Prop) (names : list string) (i : Z) :
  first_match P names i → no_match P names → False.
Proof.
  intros (_ & (n & Hn & HP) & _) Hnone. unfold no_match in Hnone.
  rewrite Forall_lookup in Hnone. by eapply Hnone.
Qed.

Lemma module_index_answer (h : heap) (ms : list loc) (names : list string)
    (target : string) :
  module_names h ms names →
  ∃ r, module_index h ms target = Ok r
       ∧ (r = None ↔ tiered below_module names target None).
Proof.
  intros Hnames. unfold module_index.
  destruct (index_where_spec h
              (λ name, Ok (bool_decide (VStr target = name)))
              (exact target) ms names 0 Hnames) as (r1 & -> & H1).
  { intros n. eexists. split; [done|].
    rewrite bool_decide_eq_true. unfold exact.
    split; [by intros [= ->]|by intros ->]. }
  run. destruct r1 as [i|].
  { exists (Some i). split; [done|]. split; [done|]. intros (Hn & _).
    exfalso. by eapply first_match_no_match. }
  destruct (index_where_spec h
              (λ name, Ok (bool_decide (name = VStr (target +:+ ".__init__"))))
              (init_of target) ms names 0 Hnames) as (r2 & -> & H2).
  { intros n. eexists. split; [done|].
    rewrite bool_decide_eq_true. unfold init_of.
    split; [by intros [= ->]|by intros ->]. }
  run. destruct r2 as [i|].
  { exists (Some i). split; [done|]. split; [done|]. intros (_ & Hn & _).
    exfalso. by eapply first_match_no_match. }
  destruct (index_where_spec h
              (λ name, match name with
                       | VStr n => Ok (Str.startswith target (n +:+ "."))
                       | _ => Raise TypeError
                       end)
              (below_module target) ms names 0 Hnames) as (r3 & -> & H3).
  { intros n. eexists. split; [done|]. apply startswith_spec. }
  exists r3. split; [done|]. destruct r3 as [i|].
  - split; [done|]. intros (_ & _ & Hn).
    exfalso. by eapply first_match_no_match.
  - done.
Qed.

Lemma module_names_extends (h more : heap) (ms : list loc)
    (names : list string) :
  module_names h ms names → module_names (h ++ more) ms names.
Proof.
  unfold module_names. intros Hnames.
  eapply Forall2_impl; [exact Hnames|]. intros m n. apply getitem_extends.
Qed.

Lemma module_sources_extends (extract : string → result (list import_from))
    (h more : heap) (ms : list loc) (srcs : list (string * list import_from)) :
  module_sources extract h ms srcs → module_sources extract (h ++ more) ms srcs.
Proof.
  unfold module_sources. intros Hsrcs.
  eapply Forall2_impl; [exact Hsrcs|].
  intros m s (path & Hn & Hp & He). exists path.
  split_and!; [by apply getitem_extends|by apply getitem_extends|done].
Qed.

Lemma add_edges_outcome (ms : list loc) (names : list string)
    (source : loc) (source_index : Z)
    (imports_dicts : list (string * import_decl)) :
  ∀ (h : heap) (edges : list loc),
    module_names h ms names →
    (∃ v, getitem h source "name" = Ok v) →
    (∃ more edges',
       add_edges ms source source_index imports_dicts h edges
       = Ok (h ++ more, edges')
       ∧ ∀ key, key ∈ imports_dicts.*1 →
           ¬ tiered below_module names key None)
    ∨ (add_edges ms source source_index imports_dicts h edges
       = Raise TypeError
       ∧ ∃ key, key ∈ imports_dicts.*1
                ∧ tiered below_module names key None).
Proof.
  induction imports_dicts as [|[key decl] rest IH];
    intros h edges Hnames [v Hv]; cbn [add_edges].
  { left. exists [], edges. rewrite app_nil_r. split; [done|].
    intros key Hkey. by apply elem_of_nil in Hkey. }
  destruct (module_index_answer h ms names key Hnames) as (r & Hr & Hnone).
  rewrite Hr. run. rewrite Hv. run.
  destruct r as [i|].
  - pose proof (module_index_range _ _ _ _ Hr) as Hrange.
    destruct (py_index_lookup ms i Hrange) as (target & Htarget & ->). run.
    destruct (Forall2_lookup_l _ _ _ _ _ Hnames Htarget)
      as (n & _ & Hn).
    rewrite Hn. run. unfold alloc.
    destruct (IH (h ++ [edge_entry v source_index i (VStr n) decl])
                (edges ++ [length h])) as [(more & edges' & Hok & Hkeys)|
                                            (Hraise & key' & Hkey' & Hnokey)].
    + by apply module_names_extends.
    + exists v. by apply getitem_extends.
    + left. eexists (_ :: more), edges'. split.
      * rewrite Hok. by rewrite <- app_assoc.
      * intros key' [->|Hin]%elem_of_cons; [|by apply Hkeys].
        intros Hno. by apply Hnone in Hno.
    + right. split; [done|]. exists key'. split; [by right|done].
  - right. split; [done|]. exists key. split; [by left|]. by apply Hnone.
Qed.

Lemma scan_modules_outcome (extract : string → result (list import_from))
    (pkgs : list (list string)) (ms : list loc) (names : list string)
    (todo : list loc) :
  ∀ (srcs : list (string * list import_from)) (source_index : Z) (h : heap)
    (edges : list loc) (inside : gmap string bool),
    module_names h ms names →
    module_sources extract h todo srcs →
    cache_sound pkgs inside →
    ((∃ r, scan_modules extract pkgs ms todo source_index h edges inside = Ok r)
     ∧ ¬ dangling pkgs names srcs)
    ∨ (scan_modules extract pkgs ms todo source_index h edges inside
       = Raise TypeError
       ∧ dangling pkgs names srcs).
Proof.
  induction todo as [|module rest IH];
    intros srcs source_index h edges inside Hnames Hsrcs Hsound.
  { apply Forall2_nil_inv_l in Hsrcs as ->. left. split; [by eexists|].
    intros (s & _ & Hs & _). by apply elem_of_nil in Hs. }
  apply Forall2_cons_inv_l in Hsrcs
    as ([name nodes] & srcs' & (path & Hname & Hpath & Hex) & Hrest & ->).
  cbn [fst snd] in Hname, Hex. cbn [scan_modules].
  destruct (parse_imports_spec extract h pkgs inside module false path name
              nodes Hpath Hex Hname Hsound)
    as (sf & inside1 & -> & [_ Hlook] & Hsound1 & _). run.
  assert (∀ k, k ∈ sf.*1 ↔ k ∈ (kept_of pkgs name false nodes).*1) as Hkeys.
  { intros k. rewrite sum_lookup_keys, Hlook.
    case_decide; [split; [done|by eexists]|].
    split; [by intros [? ?]|done]. }
  destruct (add_edges_outcome ms names module source_index sf h edges Hnames)
    as [(more & edges1 & -> & Hhere)|(-> & key & Hkey & Hno)];
    [by eexists| |].
  - run.
    destruct (IH srcs' (source_index + 1) (h ++ more) edges1 inside1)
      as [[Hok Hnone]|[Hraise Hsome]].
    + by apply module_names_extends.
    + by apply module_sources_extends.
    + done.
    + left. split; [done|].
      intros (s & target & [->|Hs]%elem_of_cons & Htarget & Hno).
      * cbn [fst snd] in Htarget. apply Hkeys in Htarget.
        by apply (Hhere target).
      * apply Hnone. by exists s, target.
    + right. split; [done|].
      destruct Hsome as (s & target & Hs & Htarget & Hno).
      exists s, target. split; [by right|done].
  - right. split; [done|].
    exists (name, nodes), key. split_and!; [by left|by apply Hkeys|done].
Qed.

(** X24: On an inventory whose files all read and parse, and with a
    sound cache, [build_imports] completes or raises [TypeError], and it
    raises exactly when some module keeps a declaration whose target
    matches no module in any of the three tiers of [module_index]:
    [module_index] answers [None] and [self.modules[None]] is a type
    error. *)
Theorem build_imports_raises_on_unknown_target
    (extract : string → result (list import_from))
    (self : DependencyMatrix) (srcs : list (string * list import_from)) :
  _modules_are_built self = true → _imports_are_built self = false →
  module_sources extract (objects self) (modules self) srcs →
  cache_sound (packages self) (_inside self) →
  ((∃ self', build_imports extract self = Ok self')
   ∧ ¬ dangling (packages self) srcs.*1 srcs)
  ∨ (build_imports extract self = Raise TypeError
     ∧ dangling (packages self) srcs.*1 srcs).
Proof.
  intros Hm Hi Hsrcs Hsound. unfold build_imports. rewrite Hm, Hi.
  simpl negb. simpl orb. cbv iota.
  destruct (scan_modules_outcome extract (packages self) (modules self)
              srcs.*1 (modules self) srcs 0 (objects self) (imports self)
              (_inside self))
    as [[[[[h edges] inside] ->] Hnone]|[-> Hsome]]; [|done|done| |].
  - unfold module_names. apply Forall2_fmap_r.
    eapply Forall2_impl; [exact Hsrcs|]. by intros m s (path & Hn & _).
  - left. split; [by eexists|done].
  - by right.
Qed.

Lemma build_imports_raises_on_unknown_target_witness :
  ((∃ self', build_imports ghost_extract app_discovered = Ok self')
   ∧ ¬ dangling (packages app_discovered) ghost_sources.*1 ghost_sources)
  ∨ (build_imports ghost_extract app_discovered = Raise TypeError
     ∧ dangling (packages app_discovered) ghost_sources.*1 ghost_sources).
Proof.
  apply build_imports_raises_on_unknown_target.
  - reflexivity.
  - reflexivity.
  - repeat constructor; by eexists.
  - intros module b. simpl. by rewrite lookup_empty.
Defined.

(** *** The names [_walk] gives *)

Lemma str_length_app (s t : string) :
  String.length (s +:+ t) = (String.length s + String.length t)%nat.
Proof. induction s as [|c s IH]; [done|]. rewrite app_cons. simpl. lia. Qed.

Lemma str_app_nil_r (s : string) : s +:+ EmptyString = s.
Proof. induction s as [|c s IH]; [done|]. rewrite app_cons. by rewrite IH. Qed.

Lemma str_rev_app_acc (s t : string) :
  String.rev_app s t = String.rev s +:+ t.
Proof.
  revert t. induction s as [|c s IH]; intros t; [done|].
  unfold String.rev. simpl. rewrite (IH (String c t)), (IH (String c "")).
  by rewrite app_assoc_str.
Qed.

Lemma str_rev_app (s t : string) :
  String.rev (s +:+ t) = String.rev t +:+ String.rev s.
Proof.
  induction s as [|c s IH].
  { rewrite app_nil_l. simpl. by rewrite str_app_nil_r. }
  rewrite app_cons. unfold String.rev at 1 3. simpl.
  rewrite !str_rev_app_acc, IH. by rewrite app_assoc_str.
Qed.

Lemma str_rev_involutive (s : string) : String.rev (String.rev s) = s.
Proof.
  induction s as [|c s IH]; [done|].
  unfold String.rev at 2. simpl. rewrite str_rev_app_acc, str_rev_app.
  by rewrite IH.
Qed.

Lemma endswith_py (item : string) :
  Str.endswith item ".py" = true → item = stem item +:+ ".py".
Proof.
  unfold Str.endswith. intros [rest Hrest]%startswith_spec.
  assert (item = String.rev rest +:+ ".py") as Hitem.
  { rewrite <- (str_rev_involutive item), Hrest. by rewrite str_rev_app. }
  unfold stem. rewrite Hitem at 2 3. rewrite str_length_app.
  replace (String.length (String.rev rest) + String.length ".py" - 3)%nat
    with (String.length (String.rev rest)) by (simpl; lia).
  by rewrite take_length_app.
Qed.

Lemma rfind_from_snoc (c : ascii) (s : string) (i acc : Z) :
  Str.rfind_from c (s +:+ String c "") i acc
  = i + Z.of_nat (String.length s).
Proof. rewrite rfind_from_app. simpl. by rewrite Ascii.eqb_refl. Qed.

Lemma dir_prefix_snoc (dirs : list string) (d : string) :
  dir_prefix (dirs ++ [d]) = dir_prefix dirs +:+ d +:+ "/".
Proof.
  induction dirs as [|d' dirs IH]; simpl.
  { by rewrite app_nil_l. }
  by rewrite IH, !app_assoc_str.
Qed.

Lemma rfind_dir_prefix (dirs : list string) :
  Str.rfind Str.slash (dir_prefix dirs)
  = Z.of_nat (String.length (dir_prefix dirs)) - 1.
Proof.
  destruct dirs as [|d0 dirs0] using rev_ind; [done|].
  rewrite dir_prefix_snoc, <- app_assoc_str. unfold Str.rfind.
  change ("/" : string) with (String Str.slash "").
  rewrite rfind_from_snoc, (str_length_app _ (String Str.slash "")).
  cbn [String.length]. lia.
Qed.

(** The extension of [<prefix><stem>.py] is [.py]. *)
Lemma splitext_py (pre q : string) :
  Str.rfind Str.slash pre = Z.of_nat (String.length pre) - 1 →
  occurs Str.slash q = false → Str.has_other Str.dot q = true →
  Str.splitext (pre +:+ q +:+ ".py") = (pre +:+ q, ".py").
Proof.
  intros Hpre Hslash Hother. unfold Str.splitext.
  assert (Str.rfind Str.slash (pre +:+ q +:+ ".py")
          = Z.of_nat (String.length pre) - 1) as ->.
  { unfold Str.rfind in *. rewrite rfind_from_app.
    rewrite rfind_from_absent; [done|].
    by rewrite occurs_app, Hslash. }
  assert (Str.rfind Str.dot (pre +:+ q +:+ ".py")
          = Z.of_nat (String.length pre) + Z.of_nat (String.length q)) as ->.
  { unfold Str.rfind. rewrite !rfind_from_app.
    change (".py" : string) with (String Str.dot "py"). simpl. lia. }
  rewrite bool_decide_eq_true_2 by lia.
  replace (Z.to_nat (Z.of_nat (String.length pre) - 1 + 1))
    with (String.length pre) by lia.
  replace (Z.to_nat (Z.of_nat (String.length pre)
                     + Z.of_nat (String.length q)
                     - (Z.of_nat (String.length pre) - 1 + 1)))
    with (String.length q) by lia.
  rewrite drop_length_app, take_length_app, Hother.
  replace (Z.to_nat (Z.of_nat (String.length pre)
                     + Z.of_nat (String.length q)))
    with (String.length (pre +:+ q)) by (rewrite str_length_app; lia).
  rewrite <- app_assoc_str.
  by rewrite take_length_app, drop_length_app.
Qed.

Lemma replace_app (a b : ascii) (s t : string) :
  Str.replace a b (s +:+ t) = Str.replace a b s +:+ Str.replace a b t.
Proof.
  induction s as [|c s IH]; [by rewrite !app_nil_l|].
  rewrite app_cons. simpl. by rewrite IH.
Qed.

Lemma replace_absent (a b : ascii) (s : string) :
  occurs a s = false → Str.replace a b s = s.
Proof.
  induction s as [|c s IH]; [done|]. simpl.
  intros [-> Hs]%orb_false_iff. by rewrite IH.
Qed.

Lemma replace_dir_prefix (dirs : list string) (q : string) :
  Forall (λ d, occurs Str.slash d = false) dirs →
  occurs Str.slash q = false →
  Str.replace Str.slash Str.dot (dir_prefix dirs +:+ q)
  = Str.join "." (dirs ++ [q]).
Proof.
  intros Hdirs Hq. induction Hdirs as [|d dirs Hd _ IH].
  { simpl. rewrite app_nil_l. by apply replace_absent. }
  cbn [dir_prefix]. rewrite !app_assoc_str.
  rewrite (replace_app _ _ d), (replace_app _ _ "/"), IH.
  rewrite (replace_absent _ _ d) by done.
  change (Str.replace Str.slash Str.dot "/") with ("." : string).
  cbn [app]. destruct (dirs ++ [q]) eqn:Hl; [by destruct dirs|]. done.
Qed.

Lemma walk_module_name (dirs : list string) (item : string) :
  Forall (λ d, occurs Str.slash d = false) dirs →
  occurs Str.slash item = false →
  Str.endswith item ".py" = true →
  Str.has_other Str.dot (stem item) = true →
  Str.replace Str.slash Str.dot (Str.splitext (dir_prefix dirs +:+ item)).1
  = Str.join "." (dirs ++ [stem item]).
Proof.
  intros Hdirs Hslash Hpy%endswith_py. revert Hpy.
  generalize (stem item) as q. intros q -> Hother.
  rewrite occurs_app in Hslash. apply orb_false_iff in Hslash as [Hq _].
  rewrite splitext_py; [|apply rfind_dir_prefix|done|done].
  by apply replace_dir_prefix.
Qed.

Lemma for_each_concat {A B} (f : A → result (list B)) (g : A → list B)
    (l : list A) :
  Forall (λ x, f x = Ok (g x)) l → for_each f l = Ok (concat (g <$> l)).
Proof.
  induction 1 as [|x l Hx _ IH]; [done|].
  rewrite for_each_cons, Hx. run. rewrite IH. run. done.
Qed.

Lemma walk_item_files (gs : groups_obj) (name : string) (group : nat)
    (gname : string) (node : fsnode) :
  group_label gs group = Ok gname →
  ∀ (path : string) (above : list string),
    plain node = true → lists node = true →
    Forall (λ d, occurs Str.slash d = false) above →
    _walk_item gs name path group (dir_prefix above) node
    = Ok (file_entry name path group gname above <$> python_files node).
Proof.
  intros Hgname.
  induction node as [item|item children IH|item] using fsnode_induction;
    intros path above Hplain Hlists Habove.
  - cbn [_walk_item python_files]. cbn [plain] in Hplain.
    apply andb_true_iff in Hplain as [Hslash%negb_true_iff Hstem].
    destruct (Str.endswith item ".py") eqn:Hpy; [|done].
    simpl in Hstem. rewrite Hgname. run.
    rewrite walk_module_name by done. done.
  - cbn [_walk_item python_files]. cbn [plain] in Hplain.
    cbn [lists] in Hlists.
    apply andb_true_iff in Hplain as [Hslash%negb_true_iff Hchildren].
    apply forallb_Forall_true in Hchildren, Hlists.
    rewrite <- dir_prefix_snoc.
    rewrite (for_each_concat _
               (λ c, file_entry name (Str.path_join path item) group gname
                       (above ++ [item]) <$> python_files c)).
    + f_equal. clear. induction children as [|c children IHc]; [done|].
      rewrite !fmap_cons. cbn [concat]. rewrite !fmap_app, IHc. f_equal.
      rewrite <- list_fmap_compose. apply list_fmap_ext. intros _ [dirs f] _.
      unfold file_entry. simpl. by rewrite <- app_assoc.
    + rewrite Forall_forall in IH, Hchildren, Hlists.
      apply Forall_forall. intros c Hc.
      apply IH; [done|by apply Hchildren|by apply Hlists|].
      apply Forall_app. split; [done|]. by apply Forall_singleton.
  - done.
Qed.

(** X25: When [self.groups] has a label at the group index, every
    directory of the tree lists and the names are as a file system has
    them, [_walk] yields one entry per Python file of the tree, in
    listing order; the name of an entry is the package name followed by
    the directories down to the file and the file name without [.py],
    joined by dots, and its path is the same chain joined to the
    directory of the package. *)
Theorem walk_names_files (gs : groups_obj) (name path : string)
    (group : nat) (gname : string) (listing : list fsnode) :
  group_label gs group = Ok gname →
  forallb lists listing = true →
  forallb plain listing = true →
  _walk gs name path group "" listing
  = Ok (file_entry name path group gname []
          <$> concat (python_files <$> listing)).
Proof.
  intros Hgname Hlists Hplain. unfold _walk.
  apply forallb_Forall_true in Hlists, Hplain.
  rewrite (for_each_concat _
             (λ c, file_entry name path group gname [] <$> python_files c)).
  - f_equal. clear. induction listing as [|c listing IH]; [done|].
    rewrite !fmap_cons. cbn [concat]. rewrite fmap_app. by f_equal.
  - rewrite Forall_forall in Hlists, Hplain.
    apply Forall_forall. intros c Hc.
    apply (walk_item_files gs name group gname c Hgname path []);
      [by apply Hplain|by apply Hlists|by apply Forall_nil_2].
Qed.

Lemma walk_names_files_witness :
  _walk (GList ["core"; "plugins"]) "ext" "/srv/ext" 1 ""
    [FFile "__init__.py"; FDir "v1.2" [FDir "io" [FFile "a.b.py"]];
     FFile "notes.txt"]
  = Ok (file_entry "ext" "/srv/ext" 1 "plugins" []
          <$> concat (python_files <$>
                [FFile "__init__.py"; FDir "v1.2" [FDir "io" [FFile "a.b.py"]];
                 FFile "notes.txt"])).
Proof. apply walk_names_files; reflexivity. Defined.

(** *** The total of the cardinals across depths *)






(** *** An instance made from an ordered dictionary *)

Lemma walk_packages_tagged (path_resolver : string → option string)
    (listing : string → option (list fsnode)) (gs : groups_obj)
    (group : nat) (pkgs : list string) (ds : list pydict) :
  walk_packages path_resolver listing gs group pkgs = Ok ds →
  Forall (λ d, ∃ name, tagged_entry gs name group d) ds.
Proof.
  revert ds. induction pkgs as [|p pkgs IH]; intros ds; simpl.
  { by intros [= <-]. }
  destruct (path_resolver p) as [[|c module_path]|]; [by apply IH| |by apply IH].
  destruct (listing _) as [entries_|]; [|done].
  destruct (_walk _ _ _ _ _ _) as [found|e] eqn:Hw; [|done]. run.
  destruct (walk_packages _ _ _ _ _) as [more|e]; [|done]. run.
  intros [= <-]. apply Forall_app. split; [|by apply IH].
  unfold _walk in Hw.
  eapply Forall_impl; [|intros d Hd; exists p; exact Hd].
  eapply for_each_Forall; [|exact Hw].
  apply Forall_forall. intros node _ zs. apply walk_item_tagged.
Qed.

Lemma walk_groups_tagged (path_resolver : string → option string)
    (listing : string → option (list fsnode)) (gs : groups_obj)
    (pgs : list (list string)) :
  ∀ (group : nat) (ds : list pydict),
    walk_groups path_resolver listing gs group pgs = Ok ds →
    Forall (λ d, ∃ name g, tagged_entry gs name g d) ds.
Proof.
  induction pgs as [|pg pgs IH]; intros group ds; simpl.
  { by intros [= <-]. }
  destruct (walk_packages _ _ _ _ _) as [found|e] eqn:Hw; [|done]. run.
  destruct (walk_groups _ _ _ _ _) as [more|e] eqn:Hg; [|done]. run.
  intros [= <-]. apply Forall_app. split; [|by eapply IH].
  apply walk_packages_tagged in Hw.
  eapply Forall_impl; [exact Hw|]. intros d [name Hd]. by exists name, group.
Qed.

(** X27: on an instance made from an ordered dictionary [build_modules]
    never completes. [self.groups] is the keys view of the dictionary,
    which [_walk] cannot index: the first Python file found raises
    [TypeError]; a directory that does not list raises [OSError]; and
    when nothing is found the maximum over the empty inventory raises
    [ValueError]. *)
Theorem build_modules_ordered_dict (path_resolver : string → option string)
    (listing : string → option (list fsnode))
    (d : list (string * list string)) :
  ∃ e, build_modules path_resolver listing (__init__ (POrderedDict d))
       = Raise e
       ∧ (e = OSError ∨ e = ValueError ∨ e = TypeError).
Proof.
  unfold build_modules. cbn [__init__ _modules_are_built groups packages].
  destruct (walk_groups _ _ _ _ _) as [found|e] eqn:Hw.
  - run. apply walk_groups_tagged in Hw.
    destruct found as [|x found].
    + exists ValueError. split; [done|]. by right; left.
    + apply Forall_cons in Hw as [(name & g & rest & path & gname & Hg & _) _].
      done.
  - run. exists e. split; [done|].
    destruct (walk_groups_raises _ _ _ _ _ _ Hw) as [->|(g & _ & Hg)];
      [by left|].
    right; right. by injection Hg.
Qed.
